(** * Analytics functions of app2.py: a shallow embedding

    The Streamlit dashboard [app2.py] loads one CSV per symbol into a single
    pandas DataFrame and derives per-symbol returns, volatility, cumulative
    returns, monthly performance and a correlation matrix from it.

    Numbers are IEEE-754 binary64 values ([PrimFloat.float], what a Python
    [float] and a numpy [float64] are), a DataFrame is a list of column
    names with a list of rows, and a Python exception is an explicit
    [Raise] result. *)

From Stdlib Require Import List String Ascii ZArith Bool Lia Floats.
From Stdlib Require Import Sorting.Sorted Sorting.Permutation.
Import ListNotations.
Open Scope string_scope.
Open Scope list_scope.

(* Decimal literals stand for the nearest binary64 value. *)
Set Warnings "-inexact-float".

(** ** Python results: a value or a raised exception *)

Module Py.

Inductive exn : Type :=
| KeyError (key : string)
| IndexError
| TypeError
| ValueError
| OverflowError
| AttributeError.

Inductive result (A : Type) : Type :=
| Ok (a : A)
| Raise (e : exn).

Arguments Ok {A} a.
Arguments Raise {A} e.

Definition bind {A B : Type} (m : result A) (k : A -> result B) : result B :=
  match m with
  | Ok a => k a
  | Raise e => Raise e
  end.

Fixpoint mapM {A B : Type} (f : A -> result B) (l : list A) : result (list B) :=
  match l with
  | [] => Ok []
  | x :: xs =>
      bind (f x) (fun y => bind (mapM f xs) (fun ys => Ok (y :: ys)))
  end.

End Py.

Import Py.

Notation "x <- m ;; k" := (Py.bind m (fun x => k))
  (at level 61, m at next level, right associativity).

(** ** Timestamps

    A [Date] is a day count from 1970-01-01, the order pandas sorts by.
    [civil] recovers year, month and day (proleptic Gregorian calendar),
    [ymd] is its inverse on valid dates. *)

Definition Date := Z.

Definition ymd (y m d : Z) : Date :=
  let y' := if (m <=? 2)%Z then (y - 1)%Z else y in
  let era := (y' / 400)%Z in
  let yoe := (y' - era * 400)%Z in
  let mp := ((m + 9) mod 12)%Z in
  let doy := ((153 * mp + 2) / 5 + d - 1)%Z in
  let doe := (yoe * 365 + yoe / 4 - yoe / 100 + doy)%Z in
  (era * 146097 + doe - 719468)%Z.

Definition civil (t : Date) : Z * Z * Z :=
  let z := (t + 719468)%Z in
  let era := (z / 146097)%Z in
  let doe := (z - era * 146097)%Z in
  let yoe := ((doe - doe / 1460 + doe / 36524 - doe / 146096) / 365)%Z in
  let doy := (doe - (365 * yoe + yoe / 4 - yoe / 100))%Z in
  let mp := ((5 * doy + 2) / 153)%Z in
  let d := (doy - (153 * mp + 2) / 5 + 1)%Z in
  let m := if (mp <? 10)%Z then (mp + 3)%Z else (mp - 9)%Z in
  let y := (yoe + era * 400)%Z in
  ((if (m <=? 2)%Z then y + 1 else y)%Z, m, d).

Definition digit (n : Z) : string :=
  String (ascii_of_nat (48 + Z.to_nat (n mod 10))) EmptyString.

(** [dt.to_period('M').astype(str)]: the month as "YYYY-MM". *)
Definition to_period_M (t : Date) : string :=
  let '(y, m, _) := civil t in
  digit (y / 1000) ++ digit (y / 100) ++ digit (y / 10) ++ digit y
    ++ "-" ++ digit (m / 10) ++ digit m.

(** ** Cells, rows and frames *)

Inductive value : Type :=
| VStr (s : string)
| VDate (t : Date)
| VNum (x : float).

Definition isnan (x : float) : bool := negb (PrimFloat.eqb x x).

Definition isna (v : value) : bool :=
  match v with
  | VNum x => isnan x
  | _ => false
  end.

Definition value_eqb (a b : value) : bool :=
  match a, b with
  | VStr s, VStr t => String.eqb s t
  | VDate s, VDate t => Z.eqb s t
  | VNum x, VNum y => PrimFloat.Leibniz.eqb x y
  | _, _ => false
  end.

(** The order a column is sorted by.  Columns hold one kind of value;
    across kinds the order is by kind, so that it stays total. *)
Definition value_leb (a b : value) : bool :=
  match a, b with
  | VStr s, VStr t => String.leb s t
  | VDate s, VDate t => Z.leb s t
  | VNum x, VNum y => PrimFloat.leb x y
  | VStr _, _ => true
  | VDate _, VNum _ => true
  | _, _ => false
  end.

Fixpoint key_eqb (a b : list value) : bool :=
  match a, b with
  | [], [] => true
  | x :: a', y :: b' => value_eqb x y && key_eqb a' b'
  | _, _ => false
  end.

(** Tuples compare lexicographically. *)
Fixpoint key_leb (a b : list value) : bool :=
  match a, b with
  | [], _ => true
  | _ :: _, [] => false
  | x :: a', y :: b' =>
      if value_eqb x y then key_leb a' b' else value_leb x y
  end.

(** A row maps each column of its frame to a cell. *)
Definition row := list (string * value).

Record DataFrame : Type := mkDataFrame {
  columns : list string;
  rows : list row
}.

Definition has_column (df : DataFrame) (c : string) : bool :=
  existsb (String.eqb c) (columns df).

Fixpoint assoc (c : string) (r : row) : option value :=
  match r with
  | [] => None
  | (k, v) :: r' => if String.eqb c k then Some v else assoc c r'
  end.

(** [row[c]] *)
Definition row_get (r : row) (c : string) : result value :=
  match assoc c r with
  | Some v => Ok v
  | None => Raise (KeyError c)
  end.

(** [float(v)] of a cell used in arithmetic. *)
Definition as_float (v : value) : result float :=
  match v with
  | VNum x => Ok x
  | _ => Raise TypeError
  end.

(** [df[c]]: the column as a list of cells. *)
Definition getitem (df : DataFrame) (c : string) : result (list value) :=
  if has_column df c then mapM (fun r => row_get r c) (rows df)
  else Raise (KeyError c).

(** [df[c]] as numbers. *)
Definition getitem_num (df : DataFrame) (c : string) : result (list float) :=
  vs <- getitem df c ;; mapM as_float vs.

(** [df.empty] *)
Definition empty (df : DataFrame) : bool :=
  match columns df, rows df with
  | [], _ | _, [] => true
  | _, _ => false
  end.

Fixpoint set_cell (c : string) (v : value) (r : row) : row :=
  match r with
  | [] => [(c, v)]
  | (k, w) :: r' =>
      if String.eqb c k then (k, v) :: r' else (k, w) :: set_cell c v r'
  end.

Fixpoint set_cells (c : string) (vs : list value) (rs : list row) : list row :=
  match rs, vs with
  | r :: rs', v :: vs' => set_cell c v r :: set_cells c vs' rs'
  | _, _ => rs
  end.

(** [df[c] = vs]: the column is replaced, or appended when new.  The
    assigned series carries the frame's own index, so cells pair up by
    position. *)
Definition setitem (df : DataFrame) (c : string) (vs : list value) : DataFrame :=
  {| columns := if has_column df c then columns df else columns df ++ [c];
     rows := set_cells c vs (rows df) |}.

Fixpoint add_new (cs : list string) (ks : list string) : list string :=
  match ks with
  | [] => cs
  | k :: ks' =>
      add_new (if existsb (String.eqb k) cs then cs else cs ++ [k]) ks'
  end.

(** [pd.DataFrame(records)]: the columns are the records' keys in order of
    first appearance (none for an empty list), a key a record lacks reads
    NaN. *)
Definition DataFrame_of_records (records : list row) : DataFrame :=
  let cols := fold_left (fun cs r => add_new cs (map fst r)) records [] in
  {| columns := cols;
     rows := map (fun r =>
               map (fun c => (c, match assoc c r with
                                 | Some v => v
                                 | None => VNum nan
                                 end)) cols) records |}.

(** The cell of column [c], NaN where the row has none. *)
Definition cell (r : row) (c : string) : value :=
  match assoc c r with
  | Some v => v
  | None => VNum nan
  end.

Definition check_columns (df : DataFrame) (cs : list string) : result unit :=
  match find (fun c => negb (has_column df c)) cs with
  | Some c => Raise (KeyError c)
  | None => Ok tt
  end.

(** ** Sorting

    A stable insertion sort stands for numpy's [argsort]; what is proved
    below about an order of rows does not depend on how ties fall. *)

Section Sort.
Context {A K : Type} (le : K -> K -> bool) (key : A -> K).

Fixpoint insert (x : A) (l : list A) : list A :=
  match l with
  | [] => [x]
  | y :: l' => if le (key x) (key y) then x :: l else y :: insert x l'
  end.

Definition sort_on (l : list A) : list A := fold_right insert [] l.
End Sort.

(** [nargsort]: the rows with a NaN key go last; for a descending sort the
    others are reversed, sorted ascending and reversed again. *)
Definition nargsort (ascending : bool) (key : row -> value) (rs : list row)
  : list row :=
  let non_nans := filter (fun r => negb (isna (key r))) rs in
  let nans := filter (fun r => isna (key r)) rs in
  let sorted :=
    if ascending then sort_on value_leb key non_nans
    else rev (sort_on value_leb key (rev non_nans)) in
  sorted ++ nans.

(** [df.sort_values(by, ascending=...)]: a new frame.  One key goes through
    [nargsort], several keys through a lexicographic sort. *)
Definition sort_values (df : DataFrame) (by_ : list string) (ascending : bool)
  : result DataFrame :=
  _ <- check_columns df by_ ;;
  let rs :=
    match by_ with
    | [c] => nargsort ascending (fun r => cell r c) (rows df)
    | _ =>
        let sorted := sort_on key_leb (fun r => map (cell r) by_) (rows df) in
        if ascending then sorted else rev sorted
    end in
  Ok {| columns := columns df; rows := rs |}.

(** ** Grouping *)

Fixpoint dedup (l : list (list value)) : list (list value) :=
  match l with
  | [] => []
  | k :: l' => k :: filter (fun k' => negb (key_eqb k k')) (dedup l')
  end.

Definition group_keys (by_ : list string) (rs : list row) : list (list value) :=
  sort_on key_leb (fun k => k)
    (dedup (filter (fun k => negb (existsb isna k))
              (map (fun r => map (cell r) by_) rs))).

(** [df.groupby(by)], iterated: the groups in the order of their keys, each
    with its rows in the frame's order; a key with a NaN makes no group. *)
Definition groupby (df : DataFrame) (by_ : list string)
  : result (list (list value * DataFrame)) :=
  _ <- check_columns df by_ ;;
  Ok (map (fun k =>
             (k, {| columns := columns df;
                    rows := filter (fun r => key_eqb (map (cell r) by_) k)
                                   (rows df) |}))
          (group_keys by_ (rows df))).

(** Grouping by one column yields the key itself, not a tuple. *)
Definition groupby1 (df : DataFrame) (c : string)
  : result (list (value * DataFrame)) :=
  gs <- groupby df [c] ;;
  Ok (map (fun g => (hd (VNum nan) (fst g), snd g)) gs).

(** [df.iloc[i]], a negative [i] counting from the end. *)
Definition iloc (df : DataFrame) (i : Z) : result row :=
  let n := Z.of_nat (List.length (rows df)) in
  let j := if (i <? 0)%Z then (n + i)%Z else i in
  if ((0 <=? j) && (j <? n))%Z
  then match nth_error (rows df) (Z.to_nat j) with
       | Some r => Ok r
       | None => Raise IndexError
       end
  else Raise IndexError.

(** ** Series arithmetic and statistics *)

Definition float_of_nat (n : nat) : float :=
  PrimFloat.of_uint63 (Uint63.of_Z (Z.of_nat n)).

Fixpoint map2 {A B C : Type} (f : A -> B -> C) (l : list A) (l' : list B)
  : list C :=
  match l, l' with
  | x :: t, y :: t' => f x y :: map2 f t t'
  | _, _ => []
  end.

(** numpy's sum of a float64 array ([np.add.reduce]).  An array of fewer
    than 8 values is added up from the left; up to [PW_BLOCKSIZE] values
    go into 8 running sums, one per position modulo 8, which are then
    added in pairs, and the values past the last whole group of 8 are
    added one by one; a longer array is cut in two at a multiple of 8 and
    the sums of the parts are added.  Every sum starts from [-0.0], which
    changes no value it is added to, and the sum of no value is [0.0]. *)
Definition PW_BLOCKSIZE : nat := 128.

Definition accumulators : Type :=
  float * float * float * float * float * float * float * float.

(** The loop over whole groups of 8: what is left is shorter than 8. *)
Fixpoint add_blocks (r : accumulators) (a : list float) {struct a}
  : accumulators * list float :=
  match a with
  | a0 :: a1 :: a2 :: a3 :: a4 :: a5 :: a6 :: a7 :: a' =>
      let '(r0, r1, r2, r3, r4, r5, r6, r7) := r in
      add_blocks (r0 + a0, r1 + a1, r2 + a2, r3 + a3,
                  r4 + a4, r5 + a5, r6 + a6, r7 + a7)%float a'
  | _ => (r, a)
  end.

Definition block_sum (a : list float) : float :=
  match a with
  | a0 :: a1 :: a2 :: a3 :: a4 :: a5 :: a6 :: a7 :: a' =>
      let '((r0, r1, r2, r3, r4, r5, r6, r7), rest) :=
        add_blocks (a0, a1, a2, a3, a4, a5, a6, a7) a' in
      let res := (((r0 + r1) + (r2 + r3)) + ((r4 + r5) + (r6 + r7)))%float in
      fold_left PrimFloat.add rest res
  | _ => fold_left PrimFloat.add a neg_zero
  end.

(** [pairwise_sum]; [fuel] bounds the depth of the halving, the length of
    the array is more than enough. *)
Fixpoint pairwise_sum (fuel : nat) (a : list float) : float :=
  let n := List.length a in
  if (n <? 8)%nat then fold_left PrimFloat.add a neg_zero
  else if (n <=? PW_BLOCKSIZE)%nat then block_sum a
  else
    match fuel with
    | O => block_sum a
    | S fuel' =>
        let n2 := (n / 2)%nat in
        let n2 := (n2 - n2 mod 8)%nat in
        (pairwise_sum fuel' (firstn n2 a)
         + pairwise_sum fuel' (skipn n2 a))%float
    end.

(** [a.sum()] *)
Definition np_sum (a : list float) : float :=
  match a with
  | [] => 0%float
  | _ => (neg_zero + pairwise_sum (List.length a) a)%float
  end.

Definition notnan (x : float) : bool := negb (isnan x).

(** The values with 0 in the place of each NaN, as pandas' [nanops] hands
    them to numpy. *)
Definition zero_fill (xs : list float) : list float :=
  map (fun x => if isnan x then 0%float else x) xs.

(** [s.mean()]: [nanmean], the sum of the zero-filled values over the
    number of values that are not NaN. *)
Definition mean (xs : list float) : float :=
  let count := List.length (filter notnan xs) in
  let the_sum := np_sum (zero_fill xs) in
  if (0 <? count)%nat then (the_sum / float_of_nat count)%float else nan.

(** [nanvar] with [ddof]: NaN when no more than [ddof] values are not NaN;
    else the squared deviations from the mean, 0 where the value is NaN,
    summed and divided by [count - ddof].  (The optional bottleneck
    package, which would take over [std], is not among the imports.) *)
Definition var (ddof : nat) (xs : list float) : float :=
  let count := List.length (filter notnan xs) in
  if (count <=? ddof)%nat then nan
  else
    let values := zero_fill xs in
    let avg := (np_sum values / float_of_nat count)%float in
    let sqr :=
      map2 (fun x v => if isnan x then 0%float
                       else ((avg - v) * (avg - v))%float) xs values in
    (np_sum sqr / (float_of_nat count - float_of_nat ddof))%float.

(** [s.std()]: [ddof = 1]. *)
Definition std (xs : list float) : float := PrimFloat.sqrt (var 1 xs).

(** [s.shift(1)] *)
Definition shift (xs : list float) : list float :=
  match xs with
  | [] => []
  | _ => nan :: removelast xs
  end.

(** [s.pct_change()]: [s / s.shift(1) - 1]. *)
Definition pct_change (xs : list float) : list float :=
  map2 (fun x p => (x / p - 1)%float) xs (shift xs).

Fixpoint accumulate (f : float -> float -> float) (acc : float)
  (l : list float) : list float :=
  match l with
  | [] => []
  | x :: l' => let acc' := f acc x in acc' :: accumulate f acc' l'
  end.

(** [s.cumprod()]: a NaN counts as 1 in the running product and stays NaN
    in the result. *)
Definition cumprod (xs : list float) : list float :=
  let vals := map (fun x => if isnan x then 1%float else x) xs in
  let result :=
    match vals with
    | [] => []
    | v :: vs => v :: accumulate PrimFloat.mul v vs
    end in
  map2 (fun x c => if isnan x then nan else c) xs result.

(** Group-wise series operations keep the frame's row order: the values
    computed for a group go back to the positions of its rows. *)
Fixpoint take_next (k : list value) (res : list (list value * list float))
  : float * list (list value * list float) :=
  match res with
  | [] => (nan, [])
  | (k', vs) :: res' =>
      if key_eqb k k'
      then match vs with
           | [] => (nan, res)
           | v :: vs' => (v, (k', vs') :: res')
           end
      else let '(v, res'') := take_next k res' in (v, (k', vs) :: res'')
  end.

Fixpoint scatter (keys : list (list value))
  (res : list (list value * list float)) : list float :=
  match keys with
  | [] => []
  | k :: keys' =>
      let '(v, res') := take_next k res in v :: scatter keys' res'
  end.

(** [df.groupby(by)[c].transform(f)] *)
Definition groupby_transform (df : DataFrame) (by_ : list string) (c : string)
  (f : list float -> list float) : result (list float) :=
  gs <- groupby df by_ ;;
  res <- mapM (fun g => xs <- getitem_num (snd g) c ;; Ok (fst g, f xs)) gs ;;
  Ok (scatter (map (fun r => map (cell r) by_) (rows df)) res).

(** ** The Time-Series Table

    [load_stock_data] reads one CSV per symbol, parses [Date] and adds the
    [Symbol] column; what the analytics read of the result is modelled by
    [table_of]. *)

Record Observation : Type := mkObservation {
  symbol : string;
  date : Date;
  close : float;
  volume : float
}.

Definition row_of (o : Observation) : row :=
  [("Date", VDate (date o)); ("Close", VNum (close o));
   ("Volume", VNum (volume o)); ("Symbol", VStr (symbol o))].

Definition table_columns : list string := ["Date"; "Close"; "Volume"; "Symbol"].

Definition table_of (obs : list Observation) : DataFrame :=
  {| columns := table_columns; rows := map row_of obs |}.

(** ** Analytics functions *)

(** The body of the loop of [calculate_metrics] for one group. *)
Definition metrics_row (g : value * DataFrame) : result row :=
  let '(symbol, data) := g in
  data <- sort_values data ["Date"] true ;;
  r0 <- iloc data 0 ;;
  v0 <- row_get r0 "Close" ;;
  start <- as_float v0 ;;
  r1 <- iloc data (-1) ;;
  v1 <- row_get r1 "Close" ;;
  end_ <- as_float v1 ;;
  let yearly_return := ((end_ - start) / start * 100)%float in
  closes <- getitem_num data "Close" ;;
  volumes <- getitem_num data "Volume" ;;
  Ok [("Symbol", symbol);
      ("Return (%)", VNum yearly_return);
      ("Avg Price", VNum (mean closes));
      ("Avg Volume", VNum (mean volumes))].

Definition calculate_metrics (df : DataFrame) : result DataFrame :=
  groups <- groupby1 df "Symbol" ;;
  result <- mapM metrics_row groups ;;
  sort_values (DataFrame_of_records result) ["Return (%)"] false.

(** The body of the loop of [calculate_volatility] for one group.  The
    column is assigned on the sorted copy, not on the caller's frame. *)
Definition volatility_row (g : value * DataFrame) : result row :=
  let '(symbol, data) := g in
  data <- sort_values data ["Date"] true ;;
  closes <- getitem_num data "Close" ;;
  let data := setitem data "Daily Return" (map VNum (pct_change closes)) in
  daily <- getitem_num data "Daily Return" ;;
  Ok [("Symbol", symbol); ("Volatility", VNum (std daily))].

Definition calculate_volatility (df : DataFrame) : result DataFrame :=
  groups <- groupby1 df "Symbol" ;;
  vol <- mapM volatility_row groups ;;
  sort_values (DataFrame_of_records vol) ["Volatility"] false.

(** [df[df["Symbol"].isin(top_symbols)].copy()] *)
Definition isin_copy (df : DataFrame) (c : string) (vals : list value)
  : result DataFrame :=
  col <- getitem df c ;;
  Ok {| columns := columns df;
        rows := filter (fun r => existsb (value_eqb (cell r c)) vals)
                       (rows df) |}.

Definition calculate_cumulative_returns (df : DataFrame)
  (top_symbols : list value) : result DataFrame :=
  subset <- isin_copy df "Symbol" top_symbols ;;
  subset <- sort_values subset ["Symbol"; "Date"] true ;;
  daily <- groupby_transform subset ["Symbol"] "Close" pct_change ;;
  let subset := setitem subset "Daily Return" (map VNum daily) in
  cumulative <- groupby_transform subset ["Symbol"] "Daily Return"
                  (fun x => cumprod (map (PrimFloat.add 1) x)) ;;
  let subset := setitem subset "Cumulative Return" (map VNum cumulative) in
  Ok subset.

(** [df['Date'].dt.to_period('M').astype(str)] *)
Definition month_series (df : DataFrame) : result (list value) :=
  dates <- getitem df "Date" ;;
  mapM (fun v => match v with
                 | VDate t => Ok (VStr (to_period_M t))
                 | _ => Raise AttributeError
                 end) dates.

(** The body of the loop of [calculate_monthly_performance]. *)
Definition monthly_row (g : list value * DataFrame) : result row :=
  match fst g with
  | [month; symbol] =>
      group <- sort_values (snd g) ["Date"] true ;;
      r1 <- iloc group (-1) ;;
      v1 <- row_get r1 "Close" ;;
      last_ <- as_float v1 ;;
      r0 <- iloc group 0 ;;
      v0 <- row_get r0 "Close" ;;
      first_ <- as_float v0 ;;
      let m_return := ((last_ - first_) / first_ * 100)%float in
      Ok [("Month", month); ("Symbol", symbol); ("Return", VNum m_return)]
  | _ => Raise ValueError
  end.

(** [calculate_monthly_performance] assigns the [Month] column on the frame
    it is given, which is the caller's: the function returns its result
    together with that frame as the call leaves it. *)
Definition calculate_monthly_performance (df : DataFrame)
  : result DataFrame * DataFrame :=
  match month_series df with
  | Raise e => (Raise e, df)
  | Ok months =>
      let df := setitem df "Month" months in
      (groups <- groupby df ["Month"; "Symbol"] ;;
       monthly_data <- mapM monthly_row groups ;;
       Ok (DataFrame_of_records monthly_data),
       df)
  end.

(** ** Pivot and correlation *)

Fixpoint has_dup (l : list (list value)) : bool :=
  match l with
  | [] => false
  | k :: l' => existsb (key_eqb k) l' || has_dup l'
  end.

(** [df.pivot(index=i, columns=c, values=v)]: one row per index value, one
    column per value of [c], NaN where the pair has no row; a pair that
    occurs twice cannot be reshaped.  The frame keeps the cells only: the
    index labels play no part in [corr]. *)
Definition pivot (df : DataFrame) (i c v : string) : result DataFrame :=
  _ <- check_columns df [i; c; v] ;;
  if has_dup (map (fun r => [cell r i; cell r c]) (rows df))
  then Raise ValueError
  else
    names <- mapM (fun k => match k with
                            | [VStr s] => Ok s
                            | _ => Raise TypeError
                            end) (group_keys [c] (rows df)) ;;
    Ok {| columns := names;
          rows :=
            map (fun ik =>
                   map (fun s =>
                          (s, match find (fun r => key_eqb [cell r i; cell r c]
                                                     (ik ++ [VStr s]))
                                         (rows df) with
                              | Some r => cell r v
                              | None => VNum nan
                              end)) names)
                (group_keys [i] (rows df)) |}.

(** [df[labels]]: the listed columns, in the order listed. *)
Definition select (df : DataFrame) (labels : list value) : result DataFrame :=
  names <- mapM (fun l => match l with
                          | VStr s => if has_column df s then Ok s
                                      else Raise (KeyError s)
                          | _ => Raise TypeError
                          end) labels ;;
  Ok {| columns := names;
        rows := map (fun r => map (fun s => (s, cell r s)) names) (rows df) |}.

Definition isfinite (x : float) : bool :=
  negb (isnan x) && negb (PrimFloat.eqb (PrimFloat.abs x) infinity).

(** The running sums of [nancorr] (Welford's method). *)
Record welford : Type := mkWelford {
  nobs : nat;
  meanx : float;
  meany : float;
  ssqdmx : float;
  ssqdmy : float;
  covxy : float
}.

Definition welford0 : welford := mkWelford 0 0 0 0 0 0.

Definition welford_step (w : welford) (v : float * float) : welford :=
  let '(vx, vy) := v in
  if isfinite vx && isfinite vy then
    let n := S (nobs w) in
    let dx := (vx - meanx w)%float in
    let dy := (vy - meany w)%float in
    let mx := (meanx w + 1 / float_of_nat n * dx)%float in
    let my := (meany w + 1 / float_of_nat n * dy)%float in
    mkWelford n mx my
      (ssqdmx w + (vx - mx) * dx)%float
      (ssqdmy w + (vy - my) * dy)%float
      (covxy w + (vx - mx) * dy)%float
  else w.

(** One cell: the rows where both columns are finite, at least one of them
    ([min_periods = 1]); the quotient is clipped to [-1, 1]. *)
Definition corr_pair (xs ys : list float) : float :=
  let w := fold_left welford_step (combine xs ys) welford0 in
  if (nobs w <? 1)%nat then nan
  else
    let divisor := PrimFloat.sqrt (ssqdmx w * ssqdmy w) in
    if negb (PrimFloat.eqb divisor 0) then
      let val := (covxy w / divisor)%float in
      if PrimFloat.ltb 1 val then 1%float
      else if PrimFloat.ltb val (-1) then (-1)%float
      else val
    else nan.

Definition matrix := list (list float).

Fixpoint list_set {A : Type} (l : list A) (i : nat) (v : A) : list A :=
  match l, i with
  | [], _ => []
  | _ :: l', O => v :: l'
  | x :: l', S i' => x :: list_set l' i' v
  end.

Definition mat_get (m : matrix) (i j : nat) : float :=
  nth j (nth i m []) nan.

Definition mat_set (m : matrix) (i j : nat) (v : float) : matrix :=
  list_set m i (list_set (nth i m []) j v).

(** [nancorr]: the cells on and below the diagonal are computed, each is
    written to [(xi, yi)] and to [(yi, xi)].  [result] is the array as
    [np.empty] hands it over. *)
Definition nancorr (cols : list (list float)) (result : matrix) : matrix :=
  fold_left
    (fun result xi =>
       fold_left
         (fun result yi =>
            let val := corr_pair (nth xi cols []) (nth yi cols []) in
            mat_set (mat_set result xi yi val) yi xi val)
         (seq 0 (S xi)) result)
    (seq 0 (List.length cols)) result.

Definition np_empty (k : nat) : matrix := repeat (repeat nan k) k.

(** [df.corr()] *)
Definition corr (df : DataFrame) : result matrix :=
  cols <- mapM (getitem_num df) (columns df) ;;
  Ok (nancorr cols (np_empty (List.length cols))).

(** The correlation heatmap's matrix: the closes pivoted by date and
    symbol, the columns of the selected symbols, their correlation.  (The
    script pivots before it takes the selection from the metrics; neither
    step has an effect on the other.) *)
Definition correlation (df : DataFrame) (top : list value) : result matrix :=
  pv <- pivot df "Date" "Symbol" "Close" ;;
  sel <- select pv top ;;
  corr sel.

(** [df.head(n)] *)
Definition head (n : nat) (df : DataFrame) : DataFrame :=
  {| columns := columns df; rows := firstn n (rows df) |}.


(** ** The page

    The script computes the overview and the tables below when the loaded
    table is not empty and shows a warning otherwise. *)

(** [df.tail(n)] *)
Definition tail (n : nat) (df : DataFrame) : DataFrame :=
  {| columns := columns df;
     rows := skipn (List.length (rows df) - n) (rows df) |}.

(** [s.nunique()]: the number of distinct values, NaN apart. *)
Definition nunique (vs : list value) : nat :=
  List.length (dedup (map (fun v => [v])
                        (filter (fun v => negb (isna v)) vs))).

(** The counts of the market overview: the symbols with a return above 0,
    and the others. *)
Definition market_summary (metrics : DataFrame) : result (Z * Z) :=
  syms <- getitem metrics "Symbol" ;;
  let total_stocks := Z.of_nat (nunique syms) in
  returns <- getitem_num metrics "Return (%)" ;;
  let green_stocks :=
    Z.of_nat (List.length (filter (fun x => PrimFloat.ltb 0 x) returns)) in
  let red_stocks := (total_stocks - green_stocks)%Z in
  Ok (green_stocks, red_stocks).

(** The two tables under the overview. *)
Definition top_gainers (metrics : DataFrame) : DataFrame := head 10 metrics.

Definition top_losers (metrics : DataFrame) : DataFrame := tail 10 metrics.

(** [int(x)]: the integer part, no integer for NaN or an infinity. *)
Definition py_int (x : float) : result Z :=
  match Prim2SF x with
  | S754_nan => Raise ValueError
  | S754_infinity _ => Raise OverflowError
  | S754_zero _ => Ok 0%Z
  | S754_finite s m e =>
      let n := Z.shiftl (Z.pos m) e in
      Ok (if s then (- n)%Z else n)
  end.

(** What the page holds when it is shown.  [mean_close] is the number
    that line 88 rounds to two decimals and formats, [avg_volume] the
    integer that line 89 formats. *)
Record Page : Type := mkPage {
  green_stocks : Z;
  red_stocks : Z;
  mean_close : float;
  avg_volume : Z;
  metrics_df : DataFrame;
  cum_df : DataFrame;
  vol_df : DataFrame;
  corr_matrix : matrix;
  monthly_perf : DataFrame
}.

Inductive Screen : Type :=
| Shown (p : Page)
| Warning (msg : string).

(** The script from line 74 on, given the loaded table.  The charts are
    drawn from the frames held in [Page]; drawing and the formatting of
    numbers are not modelled.  The monthly tables depend on the month
    picked in the select box and are modelled apart: [months],
    [month_data], [monthly_gainers], [monthly_losers].  Beside the screen
    comes the table as the script leaves it. *)
Definition main (df : DataFrame) : result Screen * DataFrame :=
  if negb (empty df) then
    match
      (metrics <- calculate_metrics df ;;
       counts <- market_summary metrics ;;
       closes <- getitem_num df "Close" ;;
       volumes <- getitem_num df "Volume" ;;
       volume <- py_int (mean volumes) ;;
       top5_symbols <- getitem (head 5 metrics) "Symbol" ;;
       cum <- calculate_cumulative_returns df top5_symbols ;;
       vol <- calculate_volatility df ;;
       top15 <- getitem (head 15 metrics) "Symbol" ;;
       cm <- correlation df top15 ;;
       Ok (mkPage (fst counts) (snd counts) (mean closes) volume
                  metrics cum (head 10 vol) cm))
    with
    | Raise e => (Raise e, df)
    | Ok page =>
        let '(monthly, df') := calculate_monthly_performance df in
        (monthly <- monthly ;; Ok (Shown (page monthly)), df')
    end
  else (Ok (Warning "No data found. Please check your CSV path."), df).

(** ** Loading the table *)

(** [s.endswith(suffix)] *)
Definition endswith (s suffix : string) : bool :=
  let n := String.length s in
  let m := String.length suffix in
  (m <=? n)%nat && String.eqb (substring (n - m) m s) suffix.

(** [s.replace(old, new)]: every occurrence of [old], found from the left
    and not overlapping, is replaced.  [skip] counts the characters of an
    occurrence still to pass over. *)
Fixpoint replace_from (old new : string) (skip : nat) (s : string) : string :=
  match s with
  | EmptyString => EmptyString
  | String c s' =>
      match skip with
      | S k => replace_from old new k s'
      | O =>
          if prefix old s
          then (new ++ replace_from old new (String.length old - 1) s')%string
          else String c (replace_from old new 0 s')
      end
  end.

Fixpoint interleave (new s : string) : string :=
  match s with
  | EmptyString => EmptyString
  | String c s' => String c (new ++ interleave new s')%string
  end.

Definition replace (s old new : string) : string :=
  match old with
  | EmptyString => (new ++ interleave new s)%string
  | _ => replace_from old new 0 s
  end.

(** [pd.DataFrame()] *)
Definition DataFrame_empty : DataFrame := {| columns := []; rows := [] |}.

(** [pd.concat(dfs, ignore_index=True)] of at least one frame: the columns
    of all frames in order of first appearance, the rows of the frames one
    after the other, NaN where a frame lacks a column. *)
Definition concat (dfs : list DataFrame) : result DataFrame :=
  match dfs with
  | [] => Raise ValueError
  | _ =>
      let cols := fold_left (fun cs df => add_new cs (columns df)) dfs [] in
      Ok {| columns := cols;
            rows := map (fun r => map (fun c => (c, cell r c)) cols)
                        (flat_map rows dfs) |}
  end.

(** What [load_stock_data] gives back: the table, and the message it put
    on the page with [st.error], if any.  ([st.cache_data] keeps the result
    for later runs of the script; a single call is modelled.) *)
Record Loaded : Type := mkLoaded {
  table : DataFrame;
  error_shown : option string
}.

Section Loader.

(** The directory and the CSV reader are the program's surroundings:
    [os.path.exists], [os.listdir], [os.path.join], [pd.read_csv] and
    [pd.to_datetime] are taken as they come, an exception of theirs a
    [Raise]. *)
Variable path_exists : string -> bool.
Variable listdir : string -> result (list string).
Variable path_join : string -> string -> string.
Variable read_csv : string -> result DataFrame.
Variable to_datetime : list value -> result (list value).

(** The body of the loop of [load_stock_data] for one CSV file. *)
Definition load_file (csv_dir file : string) : result DataFrame :=
  df <- read_csv (path_join csv_dir file) ;;
  dates <- getitem df "Date" ;;
  dates <- to_datetime dates ;;
  let df := setitem df "Date" dates in
  Ok (setitem df "Symbol"
        (map (fun _ => VStr (replace file ".csv" "")) (rows df))).

Definition load_stock_data (csv_dir : string) : result Loaded :=
  if negb (path_exists csv_dir) then
    Ok (mkLoaded DataFrame_empty (Some ("Directory not found: " ++ csv_dir)%string))
  else
    files <- listdir csv_dir ;;
    dfs <- mapM (load_file csv_dir)
             (filter (fun file => endswith file ".csv") files) ;;
    match dfs with
    | [] => Ok (mkLoaded DataFrame_empty None)
    | _ => df <- concat dfs ;; Ok (mkLoaded df None)
    end.

End Loader.

(** ** The monthly tables of the page *)

(** [s.unique()]: the distinct values in order of first appearance. *)
Fixpoint unique (vs : list value) : list value :=
  match vs with
  | [] => []
  | v :: vs' => v :: filter (fun w => negb (value_eqb v w)) (unique vs')
  end.

(** [sorted(vs, reverse=True)]: largest first, equal values in their
    original order. *)
Definition sorted_reverse (vs : list value) : list value :=
  rev (sort_on value_leb (fun v => v) (rev vs)).

(** The choices of the month select box. *)
Definition months (monthly_perf : DataFrame) : result (list value) :=
  col <- getitem monthly_perf "Month" ;;
  Ok (sorted_reverse (unique col)).

(** [a == b] on cells: NaN equals nothing. *)
Definition cell_eq (a b : value) : bool :=
  value_eqb a b && negb (isna a).

(** [monthly_perf[monthly_perf["Month"] == selected_month]] *)
Definition month_data (monthly_perf : DataFrame) (selected_month : value)
  : result DataFrame :=
  col <- getitem monthly_perf "Month" ;;
  Ok {| columns := columns monthly_perf;
        rows := map snd
                  (filter (fun p => cell_eq (fst p) selected_month)
                          (combine col (rows monthly_perf))) |}.

(** The table under "Top Monthly Gainers". *)
Definition monthly_gainers (m_data : DataFrame) : result DataFrame :=
  sorted <- sort_values m_data ["Return"] false ;;
  Ok (head 5 sorted).

(** The table under "Top Monthly Losers". *)
Definition monthly_losers (m_data : DataFrame) : result DataFrame :=
  sorted <- sort_values m_data ["Return"] true ;;
  Ok (head 5 sorted).

(** ** Notions the properties are stated with *)

(** The observations of one symbol, and of one symbol in one month. *)
Definition group_of (s : string) (obs : list Observation) : list Observation :=
  filter (fun o => String.eqb (symbol o) s) obs.

Definition month_group_of (m s : string) (obs : list Observation)
  : list Observation :=
  filter (fun o => String.eqb (to_period_M (date o)) m
                   && String.eqb (symbol o) s) obs.

Definition earliest (o : Observation) (g : list Observation) : Prop :=
  In o g /\ forall o', In o' g -> (date o <= date o')%Z.

Definition latest (o : Observation) (g : list Observation) : Prop :=
  In o g /\ forall o', In o' g -> (date o' <= date o)%Z.

(** One observation per date. *)
Definition unique_dates (g : list Observation) : Prop := NoDup (map date g).

(** The observations of a group in the order of their dates. *)
Definition by_date (g : list Observation) : list Observation :=
  sort_on Z.leb date g.

Definition no_observation : Observation := mkObservation "" 0%Z nan nan.

Definition num (v : value) : float :=
  match v with
  | VNum x => x
  | _ => nan
  end.

Definition column_nums (df : DataFrame) (c : string) : list float :=
  map (fun r => num (cell r c)) (rows df).

(** Non-increasing, for [<=] on binary64. *)
Definition descending (l : list float) : Prop :=
  Sorted (fun a b => PrimFloat.leb b a = true) l.

(** The rows of a ranking whose metric is a number. *)
Definition defined_values (df : DataFrame) (c : string) : list float :=
  filter notnan (column_nums df c).

(** [(lastClose - firstClose) / firstClose * 100] *)
Definition return_pct (first_ last_ : float) : float :=
  ((last_ - first_) / first_ * 100)%float.

(** The record [calculate_metrics] appends for the observations [g] of
    symbol [s]. *)
Definition metrics_record (s : string) (g : list Observation) : row :=
  let d := by_date g in
  [("Symbol", VStr s);
   ("Return (%)",
    VNum (return_pct (close (hd no_observation d))
                     (close (last d no_observation))));
   ("Avg Price", VNum (mean (map close d)));
   ("Avg Volume", VNum (mean (map volume d)))].

Definition metrics_columns : list string :=
  ["Symbol"; "Return (%)"; "Avg Price"; "Avg Volume"].

(** The record [calculate_volatility] appends for the observations [g] of
    symbol [s]. *)
Definition volatility_record (s : string) (g : list Observation) : row :=
  [("Symbol", VStr s);
   ("Volatility", VNum (std (pct_change (map close (by_date g)))))].

Definition volatility_columns : list string := ["Symbol"; "Volatility"].

(** The shape the two rankings share: one record per symbol, sorted by a
    metric, largest first. *)
Definition ranking (row_fn : value * DataFrame -> result row) (metric : string)
  (df : DataFrame) : result DataFrame :=
  groups <- groupby1 df "Symbol" ;;
  records <- mapM row_fn groups ;;
  sort_values (DataFrame_of_records records) [metric] false.

(** The row of a ranking that belongs to symbol [s]. *)
Definition row_of_symbol (df : DataFrame) (s : string) : option row :=
  find (fun r => value_eqb (cell r "Symbol") (VStr s)) (rows df).

(** A row of the table once [calculate_monthly_performance] has assigned
    its [Month] column. *)
Definition row_of_month (o : Observation) : row :=
  row_of o ++ [("Month", VStr (to_period_M (date o)))].

Definition month_columns : list string := table_columns ++ ["Month"].

(** The month and the symbol of an observation: the key of its group. *)
Definition month_key (o : Observation) : string * string :=
  (to_period_M (date o), symbol o).

(** The record [calculate_monthly_performance] appends for the
    observations [g] of symbol [s] in month [m]. *)
Definition monthly_record (m s : string) (g : list Observation) : row :=
  let d := by_date g in
  [("Month", VStr m); ("Symbol", VStr s);
   ("Return",
    VNum (return_pct (close (hd no_observation d))
                     (close (last d no_observation))))].

Definition monthly_columns : list string := ["Month"; "Symbol"; "Return"].

(** The row of the monthly table for month [m] and symbol [s]. *)
Definition row_of_month_symbol (df : DataFrame) (m s : string) : option row :=
  find (fun r => value_eqb (cell r "Month") (VStr m)
                 && value_eqb (cell r "Symbol") (VStr s)) (rows df).

(** A square matrix of side [k]. *)
Definition square (k : nat) (m : matrix) : Prop :=
  List.length m = k /\ forall i, i < k -> List.length (nth i m []) = k.

(** The two writes [nancorr] makes for a pair of columns. *)
Definition write_pair (cols : list (list float)) (m : matrix) (p : nat * nat)
  : matrix :=
  let val := corr_pair (nth (fst p) cols []) (nth (snd p) cols []) in
  mat_set (mat_set m (fst p) (snd p) val) (snd p) (fst p) val.

(** The pairs in the order of the two loops of [nancorr]. *)
Definition index_pairs (k : nat) : list (nat * nat) :=
  flat_map (fun xi => map (fun yi => (xi, yi)) (seq 0 (S xi))) (seq 0 k).

(** [corr_pair] clips the quotient to [-1, 1]. *)
Definition clip (val : float) : float :=
  if PrimFloat.ltb 1 val then 1%float
  else if PrimFloat.ltb val (-1) then (-1)%float
  else val.

(** The sum of squared deviations of a column from its running mean, over
    its finite values, as [nancorr] accumulates it. *)
Definition sum_sq_dev (xs : list float) : float :=
  ssqdmx (fold_left welford_step (combine xs xs) welford0).

Definition finite_count (xs : list float) : nat :=
  nobs (fold_left welford_step (combine xs xs) welford0).

(** A diagonal cell: the formula of any other cell, applied to a column
    and itself. *)
Definition self_corr (xs : list float) : float :=
  let v := sum_sq_dev xs in
  if (finite_count xs <? 1)%nat then nan
  else if PrimFloat.eqb (PrimFloat.sqrt (v * v)) 0 then nan
  else clip (v / PrimFloat.sqrt (v * v)).

(** The symbols of a ranking, in the order of its rows. *)
Definition ranked_symbols (df : DataFrame) : list value :=
  map (fun r => cell r "Symbol") (rows df).

Definition symbol_name (v : value) : string :=
  match v with
  | VStr s => s
  | _ => ""
  end.

(** The daily returns of a series of closes:
    [r_t = close_t / close_(t-1) - 1] from the second close on. *)
Definition daily_returns (closes : list float) : list float :=
  map2 (fun c p => (c / p - 1)%float) (List.tl closes) closes.

(** The sample standard deviation of the values of [rs] that are numbers,
    with [n - 1] in the denominator, [n] being how many they are; it has no
    value for fewer than two.  The sums are numpy's, taken over [rs] with 0
    in the place of each NaN. *)
Definition sample_std (rs : list float) : float :=
  let n := List.length (filter notnan rs) in
  if (n <? 2)%nat then nan
  else
    let mean := (np_sum (zero_fill rs) / float_of_nat n)%float in
    PrimFloat.sqrt
      (np_sum (map (fun r => if isnan r then 0%float
                             else ((r - mean) * (r - mean))%float) rs)
       / (float_of_nat n - 1))%float.

(** [d] lists the observations [g] in the order of their dates, no date
    twice. *)
Definition in_date_order (d g : list Observation) : Prop :=
  Permutation d g /\ StronglySorted (fun a b => (date a < date b)%Z) d.

(** The values a group-wise result holds for key [k]. *)
Fixpoint lookup (k : list value) (res : list (list value * list float))
  : option (list float) :=
  match res with
  | [] => None
  | (k', vs) :: res' => if key_eqb k k' then Some vs else lookup k res'
  end.

(** The values of a column at the rows whose key is [k], in row order. *)
Fixpoint gather (k : list value) (keys : list (list value)) (vals : list float)
  : list float :=
  match keys, vals with
  | k' :: keys', v :: vals' =>
      if key_eqb k' k then v :: gather k keys' vals' else gather k keys' vals'
  | _, _ => []
  end.

(** The key [calculate_cumulative_returns] sorts its selection by. *)
Definition symbol_date_key (o : Observation) : list value :=
  [VStr (symbol o); VDate (date o)].

(** The observations of the selected symbols, by symbol and date. *)
Definition selection (top : list value) (obs : list Observation)
  : list Observation :=
  sort_on key_leb symbol_date_key
    (filter (fun o => existsb (value_eqb (VStr (symbol o))) top) obs).

(** The rows of a frame that belong to symbol [s], in the frame's order. *)
Definition rows_of_symbol (df : DataFrame) (s : string) : list row :=
  filter (fun r => value_eqb (cell r "Symbol") (VStr s)) (rows df).

(** The growth factors of a series of daily returns. *)
Definition growth (daily : list float) : list float :=
  cumprod (map (PrimFloat.add 1) daily).

(** ** Example tables *)

Definition example_observation (s : string) (y m d : Z) (c : float)
  : Observation :=
  mkObservation s (ymd y m d) c 1000.

(** Symbol A closes at 100, 110, 99 and symbol B at 100, 90; the rows are
    not in date order. *)
Definition table_AB : list Observation :=
  [example_observation "A" 2024 1 3 99;
   example_observation "B" 2024 1 1 100;
   example_observation "A" 2024 1 1 100;
   example_observation "A" 2024 1 2 110;
   example_observation "B" 2024 1 2 90].

(** Symbol A starts from a close of 0. *)
Definition table_zero_start : list Observation :=
  [example_observation "A" 2024 1 1 0;
   example_observation "A" 2024 1 2 5;
   example_observation "B" 2024 1 1 100;
   example_observation "B" 2024 1 2 110].

(** Symbol A over two months. *)
Definition table_months : list Observation :=
  [example_observation "A" 2024 1 1 100;
   example_observation "A" 2024 1 31 120;
   example_observation "A" 2024 2 1 120;
   example_observation "A" 2024 2 28 90].

(** Symbol A falls from a close of 0 to -5. *)
Definition table_zero_fall : list Observation :=
  [example_observation "A" 2024 1 1 0;
   example_observation "A" 2024 1 2 (-5);
   example_observation "B" 2024 1 1 100;
   example_observation "B" 2024 1 2 110].

(** Symbol N over nine days. *)
Definition table_nine : list Observation :=
  [example_observation "N" 2024 1 1 6;
   example_observation "N" 2024 1 2 2;
   example_observation "N" 2024 1 3 5;
   example_observation "N" 2024 1 4 6;
   example_observation "N" 2024 1 5 1;
   example_observation "N" 2024 1 6 7;
   example_observation "N" 2024 1 7 2;
   example_observation "N" 2024 1 8 3;
   example_observation "N" 2024 1 9 4].

Definition no_data : string := "No data found. Please check your CSV path.".

(** One observation, with a close of 0. *)
Definition table_single_zero : list Observation :=
  [example_observation "A" 2024 1 3 0].

(** Symbol C closes at 5 on every date. *)
Definition table_constant : list Observation :=
  [example_observation "A" 2024 1 1 100;
   example_observation "A" 2024 1 2 110;
   example_observation "A" 2024 1 3 99;
   example_observation "C" 2024 1 1 5;
   example_observation "C" 2024 1 2 5;
   example_observation "C" 2024 1 3 5].

(** Symbol A has two rows for the same date. *)
Definition table_duplicate : list Observation :=
  [example_observation "A" 2024 1 1 100;
   example_observation "B" 2024 1 1 50;
   example_observation "A" 2024 1 1 101].

(** ** File names *)

(** [s] holds no dot. *)
Fixpoint no_dot (s : string) : bool :=
  match s with
  | EmptyString => true
  | String c s' => negb (Ascii.eqb c ".") && no_dot s'
  end.

(** The names of a listing that [load_stock_data] reads. *)
Definition csv_files (files : list string) : list string :=
  filter (fun file => endswith file ".csv") files.

(** A directory [dir] with two CSV files of one row each and a text file. *)
Definition example_exists (path : string) : bool := String.eqb path "dir".

Definition example_listdir (path : string) : result (list string) :=
  if String.eqb path "dir" then Ok ["A.csv"; "notes.txt"; "B.csv"]
  else Raise ValueError.

Definition example_join (dir file : string) : string :=
  (dir ++ "/" ++ file)%string.

Definition example_csv (c : float) : DataFrame :=
  {| columns := ["Date"; "Close"; "Volume"];
     rows := [[("Date", VStr "2024-01-01"); ("Close", VNum c);
               ("Volume", VNum 1000)]] |}.

Definition example_read_csv (path : string) : result DataFrame :=
  if String.eqb path "dir/A.csv" then Ok (example_csv 100)
  else if String.eqb path "dir/B.csv" then Ok (example_csv 50)
  else Raise ValueError.

Definition example_to_datetime (vs : list value) : result (list value) :=
  mapM (fun v => match v with
                 | VStr s =>
                     if String.eqb s "2024-01-01"
                     then Ok (VDate (ymd 2024 1 1)) else Raise ValueError
                 | VDate t => Ok (VDate t)
                 | VNum _ => Raise TypeError
                 end) vs.

(** A directory whose only CSV file has no [Date] column. *)
Definition example_read_undated (path : string) : result DataFrame :=
  Ok {| columns := ["Close"]; rows := [[("Close", VNum 1)]] |}.

(** Non-decreasing, for [<=] on binary64. *)
Definition ascending (l : list float) : Prop :=
  Sorted (fun a b => PrimFloat.leb a b = true) l.

(** The months of a table of observations. *)
Definition months_of (obs : list Observation) : list string :=
  map (fun o => to_period_M (date o)) obs.

(** The number of rows [read_csv] gives for a path, 0 when it raises. *)
Definition rows_in_file (read_csv : string -> result DataFrame)
  (path : string) : nat :=
  match read_csv path with
  | Ok raw => List.length (rows raw)
  | Raise _ => 0
  end.

(** The rows that the CSV files of a listing hold for symbol [s]: those of
    the files whose name, every ".csv" taken out, is [s]. *)
Definition rows_for_symbol (path_join : string -> string -> string)
  (read_csv : string -> result DataFrame) (csv_dir : string)
  (files : list string) (s : string) : nat :=
  list_sum
    (map (fun file =>
            if String.eqb (replace file ".csv" "") s
            then rows_in_file read_csv (path_join csv_dir file) else 0)
         (csv_files files)).

(** A directory with two CSV files that load under one symbol. *)
Definition example_listdir_twins (path : string) : result (list string) :=
  Ok ["A.csvB.csv"; "notes.txt"; "AB.csv"].

Definition example_read_any (path : string) : result DataFrame :=
  Ok (example_csv 100).

(** One observation, without a volume. *)
Definition table_no_volume : list Observation :=
  [mkObservation "A" (ymd 2024 1 1) 100 nan].

(** * Facts about binary64 arithmetic

    Derived from the specification of the primitive operations
    ([FloatAxioms]) by case analysis on the four kinds of value. *)

Module FloatFacts.

Lemma Prim2SF_nan : Prim2SF nan = S754_nan.
Proof. reflexivity. Qed.

Lemma Prim2SF_zero : Prim2SF 0 = S754_zero false.
Proof. reflexivity. Qed.

Lemma SFcompare_refl (f : spec_float) :
  f <> S754_nan -> SFcompare f f = Some Eq.
Proof.
  destruct f as [s| s | | s m e]; simpl; intros H; try congruence.
  - destruct s; reflexivity.
  - rewrite Z.compare_refl, Pos.compare_cont_refl. destruct s; reflexivity.
Qed.

Lemma isnan_spec (x : float) :
  isnan x = match Prim2SF x with S754_nan => true | _ => false end.
Proof.
  unfold isnan. rewrite eqb_spec. unfold SFeqb.
  destruct (Prim2SF x) as [s| s | | s m e] eqn:E; try reflexivity;
    rewrite SFcompare_refl by discriminate; reflexivity.
Qed.

Lemma isnan_true (x : float) : isnan x = true -> x = nan.
Proof.
  rewrite isnan_spec. intros H. apply Prim2SF_inj. rewrite Prim2SF_nan.
  destruct (Prim2SF x); congruence.
Qed.

Lemma isnan_false (x : float) : isnan x = false -> Prim2SF x <> S754_nan.
Proof. rewrite isnan_spec. intros H E. rewrite E in H. discriminate. Qed.

Lemma isnan_nan : isnan nan = true.
Proof. reflexivity. Qed.

Lemma SFcompare_antisym (f g : spec_float) :
  SFcompare g f = option_map CompOpp (SFcompare f g).
Proof.
  destruct f as [s| s | | s m e], g as [t| t | | t n e']; simpl;
    try reflexivity; try (destruct s; reflexivity);
    try (destruct t; reflexivity); try (destruct s, t; reflexivity).
  destruct s, t; try reflexivity; rewrite (Z.compare_antisym e e');
    destruct (e ?= e')%Z eqn:E; simpl; try reflexivity;
    rewrite (Pos.compare_cont_antisym m n Eq); simpl;
    try rewrite CompOpp_involutive; reflexivity.
Qed.

(** On numbers, [<=] is total. *)
Lemma leb_total (a b : float) :
  isnan a = false -> isnan b = false ->
  PrimFloat.leb a b = false -> PrimFloat.leb b a = true.
Proof.
  intros Ha Hb. apply isnan_false in Ha, Hb.
  rewrite !leb_spec. unfold SFleb.
  rewrite (SFcompare_antisym (Prim2SF a) (Prim2SF b)).
  destruct (SFcompare (Prim2SF a) (Prim2SF b)) as [[]|] eqn:E; simpl;
    try congruence.
  destruct (Prim2SF a), (Prim2SF b); simpl in E; congruence.
Qed.

Lemma leibniz_eqb_refl (x : float) : PrimFloat.Leibniz.eqb x x = true.
Proof. apply FloatAxioms.Leibniz.eqb_spec. reflexivity. Qed.

(** NaN propagates through the arithmetic of [pct_change] and of the
    running product. *)
Lemma div_nan_r (x : float) : (x / nan)%float = nan.
Proof.
  apply Prim2SF_inj. rewrite div_spec, Prim2SF_nan.
  destruct (Prim2SF x) as [s| s | | s m e]; reflexivity.
Qed.

Lemma pct_of_nan (x : float) : (x / nan - 1)%float = nan.
Proof. rewrite div_nan_r. reflexivity. Qed.

Lemma isfinite_spec (x : float) :
  isfinite x = match Prim2SF x with
               | S754_zero _ | S754_finite _ _ _ => true
               | _ => false
               end.
Proof.
  unfold isfinite. rewrite isnan_spec, eqb_spec, abs_spec. unfold SFeqb.
  destruct (Prim2SF x) as [s| s | | s m e]; reflexivity.
Qed.

Lemma is_zero_spec (x : float) :
  PrimFloat.eqb x 0 = match Prim2SF x with S754_zero _ => true | _ => false end.
Proof.
  rewrite eqb_spec, Prim2SF_zero. unfold SFeqb.
  destruct (Prim2SF x) as [s| s | | s m e]; try reflexivity; destruct s; reflexivity.
Qed.

Lemma is_neg_spec (x : float) :
  PrimFloat.ltb x 0 = match Prim2SF x with
                      | S754_infinity s | S754_finite s _ _ => s
                      | _ => false
                      end.
Proof.
  rewrite ltb_spec, Prim2SF_zero. unfold SFltb.
  destruct (Prim2SF x) as [s| s | | s m e]; try reflexivity; destruct s; reflexivity.
Qed.

(** A return from a zero start: [(l - 0) / 0 * 100]. *)
Lemma return_from_zero (l : float) :
  ((l - 0) / 0 * 100)%float =
  if isnan l || PrimFloat.eqb l 0 then nan
  else if PrimFloat.ltb l 0 then neg_infinity else infinity.
Proof.
  rewrite isnan_spec, is_zero_spec, is_neg_spec.
  apply Prim2SF_inj. rewrite mul_spec, div_spec, sub_spec, Prim2SF_zero.
  destruct (Prim2SF l) as [s| s | | s m e]; try (destruct s); reflexivity.
Qed.

(** The same from a zero of either sign. *)
Lemma return_from_any_zero (z l : float) :
  PrimFloat.eqb z 0 = true ->
  if isnan l || PrimFloat.eqb l 0
  then ((l - z) / z * 100)%float = nan
  else PrimFloat.abs ((l - z) / z * 100)%float = infinity.
Proof.
  rewrite isnan_spec, !is_zero_spec. intros Hz.
  destruct (Prim2SF z) as [sz| | |] eqn:Ez; try discriminate.
  destruct (Prim2SF l) as [s| s | | s m e] eqn:El; cbn [orb];
    apply Prim2SF_inj;
    rewrite ?abs_spec, mul_spec, div_spec, sub_spec, Ez, El;
    destruct sz; try (destruct s); reflexivity.
Qed.

Lemma SFsub_diag (s : bool) (m : positive) (e : Z) :
  SF64sub (S754_finite s m e) (S754_finite s m e) = S754_zero false.
Proof.
  unfold SF64sub, SFsub. rewrite Z.sub_diag. reflexivity.
Qed.

(** The return of a group with one observation: [(c - c) / c * 100]. *)
Lemma return_of_single (c : float) :
  ((c - c) / c * 100)%float =
  if isfinite c && negb (PrimFloat.eqb c 0)
  then if PrimFloat.ltb c 0 then (-0)%float else 0%float
  else nan.
Proof.
  rewrite isfinite_spec, is_zero_spec, is_neg_spec.
  apply Prim2SF_inj. rewrite mul_spec, div_spec, sub_spec.
  destruct (Prim2SF c) as [s| s | | s m e]; try (destruct s; reflexivity);
    try reflexivity.
  rewrite SFsub_diag. destruct s; reflexivity.
Qed.

(** The square root of the square of a zero is a zero. *)
Lemma sqrt_sq_zero (v : float) :
  PrimFloat.eqb v 0 = true ->
  PrimFloat.eqb (PrimFloat.sqrt (v * v)) 0 = true.
Proof.
  rewrite !is_zero_spec, sqrt_spec, mul_spec.
  destruct (Prim2SF v) as [s| | |]; try discriminate.
  intros _. destruct s; reflexivity.
Qed.

(** A squared difference does not depend on the order of its operands. *)
Lemma round_aux_opp (m e : Z) (l : location) :
  binary_round_aux prec emax true m e l
  = SFopp (binary_round_aux prec emax false m e l).
Proof.
  unfold binary_round_aux.
  destruct (shr_fexp prec emax m e l) as [mrs' e'].
  destruct (shr_fexp prec emax _ e' loc_Exact) as [mrs'' e''].
  destruct (shr_m mrs''); try reflexivity.
  destruct (Z.leb e'' (emax - prec)); reflexivity.
Qed.

Lemma SFmul_opp_opp (r : spec_float) :
  SF64mul (SFopp r) (SFopp r) = SF64mul r r.
Proof. destruct r as [[]|[]| |[] m e]; reflexivity. Qed.

Lemma normalize_opp_sq (z e : Z) :
  SF64mul (binary_normalize prec emax (- z) e false)
          (binary_normalize prec emax (- z) e false)
  = SF64mul (binary_normalize prec emax z e false)
            (binary_normalize prec emax z e false).
Proof.
  destruct z as [|p|p]; cbn [Z.opp binary_normalize]; [reflexivity| |];
    unfold binary_round;
    destruct (shl_align p e (fexp prec emax (Z.pos (digits2_pos p) + e)))
      as [mz ez];
    rewrite round_aux_opp; [|symmetry]; apply SFmul_opp_opp.
Qed.

Lemma SFsub_swap_sq (a b : spec_float) :
  SF64mul (SF64sub a b) (SF64sub a b) = SF64mul (SF64sub b a) (SF64sub b a).
Proof.
  destruct a as [s|s| |s m e], b as [t|t| |t n e'];
    try (destruct s; try destruct t; reflexivity);
    try (destruct t; reflexivity); try reflexivity.
  unfold SF64sub, SFsub. rewrite (Z.min_comm e' e).
  set (x := cond_Zopp s _). set (y := cond_Zopp t _).
  replace (y - x)%Z with (- (x - y))%Z by lia.
  symmetry. apply normalize_opp_sq.
Qed.

Lemma sq_sub_swap (a b : float) :
  ((a - b) * (a - b))%float = ((b - a) * (b - a))%float.
Proof.
  apply Prim2SF_inj. rewrite !mul_spec, !sub_spec. apply SFsub_swap_sq.
Qed.

End FloatFacts.

(** * Lists, sorting and grouping *)

Section SortFacts.
Context {A K : Type} (le : K -> K -> bool) (key : A -> K).

Lemma insert_perm (x : A) (l : list A) :
  Permutation (insert le key x l) (x :: l).
Proof.
  induction l as [|y l IH]; simpl.
  - reflexivity.
  - destruct (le (key x) (key y)).
    + reflexivity.
    + rewrite IH. apply perm_swap.
Qed.

Lemma sort_on_perm (l : list A) : Permutation (sort_on le key l) l.
Proof.
  induction l as [|x l IH]; simpl.
  - reflexivity.
  - rewrite insert_perm. now constructor.
Qed.

Lemma sort_on_in (l : list A) (x : A) : In x (sort_on le key l) <-> In x l.
Proof.
  split; apply Permutation_in;
    [apply sort_on_perm | symmetry; apply sort_on_perm].
Qed.

Lemma sort_on_length (l : list A) :
  List.length (sort_on le key l) = List.length l.
Proof. apply Permutation_length, sort_on_perm. Qed.

(** The order need only be total on the keys that occur. *)
Variable ok : K -> Prop.
Hypothesis le_total : forall a b, ok a -> ok b -> le a b = false -> le b a = true.

Lemma insert_sorted (x : A) (l : list A) :
  ok (key x) -> Forall (fun y => ok (key y)) l ->
  Sorted (fun a b => le (key a) (key b) = true) l ->
  Sorted (fun a b => le (key a) (key b) = true) (insert le key x l).
Proof.
  intros Hx Hl Hs. induction l as [|y l IH]; simpl.
  - repeat constructor.
  - inversion Hl as [|? ? Hy Hl']; subst.
    inversion Hs as [|? ? Hs' Hhd]; subst.
    destruct (le (key x) (key y)) eqn:E.
    + constructor; [assumption | constructor; assumption].
    + constructor; [apply IH; assumption|].
      destruct l as [|z l]; simpl.
      * constructor. now apply le_total.
      * destruct (le (key x) (key z)); constructor.
        -- now apply le_total.
        -- now inversion Hhd.
Qed.

Lemma sort_on_sorted (l : list A) :
  Forall (fun y => ok (key y)) l ->
  Sorted (fun a b => le (key a) (key b) = true) (sort_on le key l).
Proof.
  induction l as [|x l IH]; simpl; intros H.
  - constructor.
  - inversion H as [|? ? Hx Hl]; subst. apply insert_sorted.
    + assumption.
    + apply Forall_forall. intros y Hy. apply (proj1 (sort_on_in l y)) in Hy.
      exact (proj1 (Forall_forall _ l) Hl y Hy).
    + now apply IH.
Qed.
End SortFacts.

(** Sorting commutes with a map that preserves the comparisons. *)
Lemma sort_on_map {A B K K' : Type} (le : K -> K -> bool) (key : B -> K)
  (le' : K' -> K' -> bool) (key' : A -> K') (f : A -> B) (l : list A) :
  (forall a b, le (key (f a)) (key (f b)) = le' (key' a) (key' b)) ->
  sort_on le key (map f l) = map f (sort_on le' key' l).
Proof.
  intros H. induction l as [|x l IH]; simpl; [reflexivity|].
  rewrite IH. generalize (sort_on le' key' l). intros s.
  induction s as [|y s IHs]; simpl; [reflexivity|].
  rewrite H. destruct (le' (key' x) (key' y)); simpl; [reflexivity|].
  now rewrite IHs.
Qed.

Lemma filter_map_comm {A B : Type} (p : B -> bool) (f : A -> B) (l : list A) :
  filter p (map f l) = map f (filter (fun x => p (f x)) l).
Proof.
  induction l as [|x l IH]; simpl; [reflexivity|].
  destruct (p (f x)); simpl; now rewrite IH.
Qed.

Lemma filter_all {A : Type} (p : A -> bool) (l : list A) :
  (forall x, In x l -> p x = true) -> filter p l = l.
Proof.
  induction l as [|x l IH]; simpl; intros H; [reflexivity|].
  rewrite (H x) by now left. f_equal. apply IH. intros; apply H; now right.
Qed.

Lemma filter_none {A : Type} (p : A -> bool) (l : list A) :
  (forall x, In x l -> p x = false) -> filter p l = [].
Proof.
  induction l as [|x l IH]; simpl; intros H; [reflexivity|].
  rewrite (H x) by now left. apply IH. intros; apply H; now right.
Qed.

Lemma mapM_ok {A B : Type} (f : A -> result B) (g : A -> B) (l : list A) :
  (forall x, In x l -> f x = Ok (g x)) -> mapM f l = Ok (map g l).
Proof.
  induction l as [|x l IH]; simpl; intros H; [reflexivity|].
  rewrite (H x) by now left. simpl. rewrite IH; [reflexivity|].
  intros; apply H; now right.
Qed.

Lemma value_eqb_eq (a b : value) : value_eqb a b = true <-> a = b.
Proof.
  destruct a, b; simpl; split; intros H; try congruence.
  - apply String.eqb_eq in H. congruence.
  - apply String.eqb_eq. congruence.
  - apply Z.eqb_eq in H. congruence.
  - apply Z.eqb_eq. congruence.
  - apply FloatAxioms.Leibniz.eqb_spec in H. congruence.
  - apply FloatAxioms.Leibniz.eqb_spec. congruence.
Qed.

Lemma key_eqb_eq (a b : list value) : key_eqb a b = true <-> a = b.
Proof.
  revert b. induction a as [|x a IH]; destruct b as [|y b]; simpl;
    split; intros H; try congruence.
  - apply andb_true_iff in H. destruct H as [H1 H2].
    apply value_eqb_eq in H1. apply IH in H2. congruence.
  - inversion H; subst. apply andb_true_iff. split.
    + now apply value_eqb_eq.
    + now apply IH.
Qed.

Lemma dedup_in (l : list (list value)) (k : list value) :
  In k (dedup l) <-> In k l.
Proof.
  induction l as [|x l IH]; simpl; [tauto|].
  rewrite filter_In, IH. split.
  - tauto.
  - intros [H|H]; [now left|].
    destruct (key_eqb x k) eqn:E.
    + apply key_eqb_eq in E. now left.
    + right. split; [assumption | reflexivity].
Qed.

Lemma dedup_nodup (l : list (list value)) : NoDup (dedup l).
Proof.
  induction l as [|x l IH]; simpl; constructor.
  - rewrite filter_In. intros [_ H].
    rewrite (proj2 (key_eqb_eq x x) eq_refl) in H. discriminate.
  - now apply NoDup_filter.
Qed.

Lemma group_keys_in (by_ : list string) (rs : list row) (k : list value) :
  In k (group_keys by_ rs) <->
  In k (map (fun r => map (cell r) by_) rs) /\ existsb isna k = false.
Proof.
  unfold group_keys. rewrite sort_on_in, dedup_in, filter_In.
  rewrite negb_true_iff. tauto.
Qed.

Lemma group_keys_nodup (by_ : list string) (rs : list row) :
  NoDup (group_keys by_ rs).
Proof.
  unfold group_keys.
  eapply Permutation_NoDup; [symmetry; apply sort_on_perm | apply dedup_nodup].
Qed.

(** * Frames whose rows come from typed records *)

Lemma check_columns_one (cs : list string) (rs : list row) (c : string) :
  existsb (String.eqb c) cs = true ->
  check_columns {| columns := cs; rows := rs |} [c] = Ok tt.
Proof.
  intros H. unfold check_columns, has_column. cbn [find columns].
  now rewrite H.
Qed.

Section TypedFrames.
Context {A : Type} (f : A -> row) (cs : list string).

Lemma sort_values_date (dt : A -> Date) (l : list A) :
  existsb (String.eqb "Date") cs = true ->
  (forall a, cell (f a) "Date" = VDate (dt a)) ->
  sort_values {| columns := cs; rows := map f l |} ["Date"] true
  = Ok {| columns := cs; rows := map f (sort_on Z.leb dt l) |}.
Proof.
  intros Hc Hd. unfold sort_values. rewrite check_columns_one by assumption.
  cbn [bind rows columns]. f_equal. f_equal. unfold nargsort.
  rewrite (filter_all (fun r => negb (isna (cell r "Date")))).
  2:{ intros r Hr. apply in_map_iff in Hr. destruct Hr as [a [<- _]].
      now rewrite Hd. }
  rewrite (filter_none (fun r => isna (cell r "Date"))).
  2:{ intros r Hr. apply in_map_iff in Hr. destruct Hr as [a [<- _]].
      now rewrite Hd. }
  rewrite app_nil_r.
  rewrite (sort_on_map value_leb (fun r => cell r "Date") Z.leb dt f).
  - reflexivity.
  - intros a b. now rewrite !Hd.
Qed.

Lemma getitem_num_typed (c : string) (g : A -> float) (l : list A) :
  existsb (String.eqb c) cs = true ->
  (forall a, assoc c (f a) = Some (VNum (g a))) ->
  getitem_num {| columns := cs; rows := map f l |} c = Ok (map g l).
Proof.
  intros Hc Hg. unfold getitem_num, getitem, has_column. cbn [columns rows].
  rewrite Hc.
  rewrite (mapM_ok _ (fun r => VNum (num (cell r c)))).
  2:{ intros r Hr. apply in_map_iff in Hr. destruct Hr as [a [<- _]].
      unfold row_get, cell. now rewrite Hg. }
  cbn [bind]. rewrite (mapM_ok _ num).
  2:{ intros v Hv. apply in_map_iff in Hv. destruct Hv as [r [<- Hr]].
      reflexivity. }
  rewrite !map_map. f_equal. apply map_ext. intros a.
  unfold cell. now rewrite Hg.
Qed.

Lemma iloc_first (a : A) (l : list A) :
  iloc {| columns := cs; rows := map f (a :: l) |} 0 = Ok (f a).
Proof. reflexivity. Qed.

Lemma iloc_last (a d : A) (l : list A) :
  iloc {| columns := cs; rows := map f (a :: l) |} (-1)
  = Ok (f (last (a :: l) d)).
Proof.
  unfold iloc. cbn [rows].
  set (rs := map f (a :: l)).
  assert (Hlen : List.length rs = S (List.length l))
    by (unfold rs; simpl; now rewrite length_map).
  replace (-1 <? 0)%Z with true by reflexivity.
  replace ((0 <=? Z.of_nat (List.length rs) + -1)
           && (Z.of_nat (List.length rs) + -1 <? Z.of_nat (List.length rs)))%Z
    with true by (symmetry; apply andb_true_iff; split;
                  [apply Z.leb_le | apply Z.ltb_lt]; lia).
  replace (Z.to_nat (Z.of_nat (List.length rs) + -1)) with (List.length l)
    by lia.
  unfold rs. rewrite nth_error_map.
  assert (Hn : nth_error (a :: l) (List.length l) = Some (last (a :: l) d)).
  { clear. revert a. induction l as [|b l IH]; intros a; [reflexivity|].
    simpl nth_error. rewrite IH. reflexivity. }
  now rewrite Hn.
Qed.

Lemma groupby_typed (by_ : list string) (l : list A) :
  check_columns {| columns := cs; rows := map f l |} by_ = Ok tt ->
  groupby {| columns := cs; rows := map f l |} by_
  = Ok (map (fun k =>
               (k, {| columns := cs;
                      rows := map f (filter (fun a =>
                                key_eqb (map (cell (f a)) by_) k) l) |}))
            (group_keys by_ (map f l))).
Proof.
  intros Hc. unfold groupby. rewrite Hc. simpl. f_equal.
  apply map_ext. intros k. now rewrite filter_map_comm.
Qed.

(** The keys of the groups, read back as typed keys. *)
Lemma group_keys_typed {K : Type} (by_ : list string) (enc : K -> list value)
  (kf : A -> K) (l : list A) :
  (forall a, map (cell (f a)) by_ = enc (kf a)) ->
  (forall k, existsb isna (enc k) = false) ->
  (forall k k', enc k = enc k' -> k = k') ->
  exists keys,
    group_keys by_ (map f l) = map enc keys /\ NoDup keys /\
    forall k, In k keys <-> In k (map kf l).
Proof.
  intros Hk Hna Hinj.
  assert (Hin : forall x, In x (group_keys by_ (map f l)) <->
                          exists a, In a l /\ x = enc (kf a)).
  { intros x. rewrite group_keys_in, map_map, in_map_iff. split.
    - intros [[a [<- Ha]] _]. exists a. now rewrite Hk.
    - intros [a [Ha ->]]. split; [|apply Hna]. exists a. now rewrite Hk. }
  pose proof (group_keys_nodup by_ (map f l)) as Hnd.
  revert Hin Hnd. generalize (group_keys by_ (map f l)). intros gk Hin Hnd.
  assert (Hex : exists keys, gk = map enc keys).
  { assert (Hall : forall x, In x gk -> exists k, x = enc k).
    { intros x Hx. apply Hin in Hx. destruct Hx as [a [_ ->]]. eauto. }
    clear Hin Hnd. induction gk as [|x gk IH].
    - now exists [].
    - destruct (Hall x (or_introl eq_refl)) as [k ->].
      destruct IH as [keys ->]; [intros; apply Hall; now right|].
      now exists (k :: keys). }
  destruct Hex as [keys ->]. exists keys. split; [reflexivity|]. split.
  - now apply NoDup_map_inv in Hnd.
  - intros k. rewrite in_map_iff. split.
    + intros Hk'. destruct (proj1 (Hin (enc k)) (in_map enc _ _ Hk'))
        as [a [Ha E]]. exists a. split; [symmetry; now apply Hinj | assumption].
    + intros [a [<- Ha]].
      assert (Hx : In (enc (kf a)) (map enc keys)) by (apply Hin; eauto).
      apply in_map_iff in Hx. destruct Hx as [k' [E Hk']].
      apply Hinj in E. now subst.
Qed.
End TypedFrames.

(** * The rankings on a typed table *)

Lemma by_date_nonempty (g : list Observation) :
  g <> [] -> exists a l, by_date g = a :: l.
Proof.
  intros H. destruct (by_date g) as [|a l] eqn:E; [|eauto].
  exfalso. apply H. apply length_zero_iff_nil.
  unfold by_date in E. rewrite <- (sort_on_length Z.leb date g), E.
  reflexivity.
Qed.

Lemma sort_table_by_date (g : list Observation) :
  sort_values (table_of g) ["Date"] true = Ok (table_of (by_date g)).
Proof.
  unfold table_of. now rewrite (sort_values_date row_of table_columns date).
Qed.

Lemma metrics_row_typed (s : string) (g : list Observation) :
  g <> [] ->
  metrics_row (VStr s, table_of g) = Ok (metrics_record s g).
Proof.
  intros Hg. unfold metrics_row, metrics_record.
  rewrite sort_table_by_date. cbn [bind].
  destruct (by_date_nonempty g Hg) as [a [l E]]. rewrite E.
  unfold table_of. rewrite iloc_first. cbn [bind].
  rewrite (iloc_last row_of table_columns a no_observation l).
  cbn [bind row_get row_of assoc String.eqb Ascii.eqb Bool.eqb as_float].
  rewrite (getitem_num_typed row_of table_columns "Close" close)
    by reflexivity.
  rewrite (getitem_num_typed row_of table_columns "Volume" volume)
    by reflexivity.
  reflexivity.
Qed.

Lemma set_cell_get (c : string) (v : value) (r : row) :
  assoc c (set_cell c v r) = Some v.
Proof.
  induction r as [|[k w] r IH]; simpl.
  - now rewrite String.eqb_refl.
  - destruct (String.eqb c k) eqn:E; simpl; rewrite E; [reflexivity | apply IH].
Qed.

Lemma getitem_num_setitem (df : DataFrame) (c : string) (xs : list float) :
  List.length xs = List.length (rows df) ->
  getitem_num (setitem df c (map VNum xs)) c = Ok xs.
Proof.
  intros Hlen. unfold getitem_num, getitem.
  assert (Hc : has_column (setitem df c (map VNum xs)) c = true).
  { unfold setitem, has_column at 1. cbn [columns]. unfold has_column.
    destruct (existsb (String.eqb c) (columns df)) eqn:E; [exact E|].
    rewrite existsb_app. simpl. now rewrite String.eqb_refl, orb_true_r. }
  rewrite Hc. unfold setitem. cbn [rows].
  assert (H : mapM (fun r => row_get r c) (set_cells c (map VNum xs) (rows df))
              = Ok (map VNum xs)).
  { clear Hc. revert xs Hlen.
    induction (rows df) as [|r rs IH]; intros [|x xs] Hlen;
      try discriminate; [reflexivity|].
    simpl. unfold row_get at 1. rewrite set_cell_get. simpl.
    rewrite IH by (simpl in Hlen; lia). reflexivity. }
  rewrite H. cbn [bind]. rewrite (mapM_ok _ num).
  - rewrite map_map. simpl. now rewrite map_id.
  - intros v Hv. apply in_map_iff in Hv. now destruct Hv as [x [<- _]].
Qed.

Lemma map2_length {A B C : Type} (f : A -> B -> C) (l : list A) (l' : list B) :
  List.length l = List.length l' -> List.length (map2 f l l') = List.length l.
Proof.
  revert l'. induction l as [|x l IH]; intros [|y l'] H; simpl in *;
    try discriminate; [reflexivity|]. f_equal. apply IH. lia.
Qed.

Lemma shift_length (xs : list float) : List.length (shift xs) = List.length xs.
Proof.
  destruct xs as [|x xs]; [reflexivity|].
  unfold shift. cbn [List.length]. f_equal.
  rewrite <- (length_map (fun y => y) (removelast (x :: xs))).
  rewrite map_id. clear. revert x.
  induction xs as [|y xs IH]; intros x; [reflexivity|].
  change (removelast (x :: y :: xs)) with (x :: removelast (y :: xs)).
  simpl List.length. f_equal. apply IH.
Qed.

Lemma pct_change_length (xs : list float) :
  List.length (pct_change xs) = List.length xs.
Proof.
  unfold pct_change. apply map2_length. now rewrite shift_length.
Qed.

Lemma volatility_row_typed (s : string) (g : list Observation) :
  volatility_row (VStr s, table_of g) = Ok (volatility_record s g).
Proof.
  unfold volatility_row, volatility_record.
  rewrite sort_table_by_date. cbn [bind].
  unfold table_of at 1.
  rewrite (getitem_num_typed row_of table_columns "Close" close)
    by reflexivity.
  cbn [bind]. rewrite getitem_num_setitem.
  - reflexivity.
  - unfold table_of. cbn [rows]. now rewrite pct_change_length, !length_map.
Qed.

Lemma group_of_nonempty (s : string) (obs : list Observation) :
  In s (map symbol obs) -> group_of s obs <> [].
Proof.
  intros H E. apply in_map_iff in H. destruct H as [o [Hs Ho]].
  assert (Hin : In o (group_of s obs)).
  { apply filter_In. split; [assumption|]. now apply String.eqb_eq. }
  rewrite E in Hin. contradiction.
Qed.

Lemma symbol_groups (obs : list Observation) :
  exists keys,
    NoDup keys /\ (forall s, In s keys <-> In s (map symbol obs)) /\
    groupby1 (table_of obs) "Symbol"
    = Ok (map (fun s => (VStr s, table_of (group_of s obs))) keys).
Proof.
  destruct (group_keys_typed row_of ["Symbol"] (fun s => [VStr s]) symbol obs)
    as [keys [Hk [Hnd Hin]]]; try reflexivity.
  { intros k k' E. congruence. }
  exists keys. split; [assumption|]. split; [assumption|].
  unfold groupby1, table_of.
  rewrite (groupby_typed row_of table_columns) by reflexivity.
  cbn [bind]. rewrite Hk, !map_map. f_equal. apply map_ext. intros s.
  cbn [fst snd hd]. f_equal. f_equal. f_equal. unfold group_of.
  apply filter_ext. intros o. simpl. now rewrite andb_true_r.
Qed.

Section Records.
Context {X : Type} (mk : X -> row) (ks : list string).
Hypothesis first_record : forall x, add_new [] (map fst (mk x)) = ks.
Hypothesis next_record : forall x, add_new ks (map fst (mk x)) = ks.
Hypothesis record_cells :
  forall x, map (fun c => (c, match assoc c (mk x) with
                              | Some v => v
                              | None => VNum nan
                              end)) ks = mk x.

Lemma DataFrame_of_uniform_records (x : X) (xs : list X) :
  DataFrame_of_records (map mk (x :: xs))
  = {| columns := ks; rows := map mk (x :: xs) |}.
Proof.
  unfold DataFrame_of_records.
  assert (Hc : fold_left (fun cs r => add_new cs (map fst r))
                 (map mk (x :: xs)) [] = ks).
  { simpl. rewrite first_record. clear x.
    induction xs as [|y l IH]; simpl; [reflexivity|].
    now rewrite next_record. }
  rewrite Hc. f_equal. rewrite map_map. apply map_ext. intros y.
  apply record_cells.
Qed.
End Records.

(** A ranking: one record per symbol, sorted by a metric, largest first. *)
Section Ranking.
Variable row_fn : value * DataFrame -> result row.
Variable record : string -> list Observation -> row.
Variable cols : list string.
Variable metric : string.

Hypothesis row_fn_typed :
  forall s g, g <> [] -> row_fn (VStr s, table_of g) = Ok (record s g).
Hypothesis first_record : forall s g, add_new [] (map fst (record s g)) = cols.
Hypothesis next_record : forall s g, add_new cols (map fst (record s g)) = cols.
Hypothesis record_cells :
  forall s g, map (fun c => (c, match assoc c (record s g) with
                                | Some v => v
                                | None => VNum nan
                                end)) cols = record s g.
Hypothesis metric_column : existsb (String.eqb metric) cols = true.

Lemma ranking_typed (obs : list Observation) :
  obs <> [] ->
  exists keys,
    NoDup keys /\ (forall s, In s keys <-> In s (map symbol obs)) /\
    ranking row_fn metric (table_of obs)
    = Ok {| columns := cols;
            rows := nargsort false (fun r => cell r metric)
                      (map (fun s => record s (group_of s obs)) keys) |}.
Proof.
  intros Hobs. destruct (symbol_groups obs) as [keys [Hnd [Hin Hg]]].
  exists keys. split; [assumption|]. split; [assumption|].
  unfold ranking. rewrite Hg. cbn [bind].
  rewrite (mapM_ok _ (fun g => match fst g with
                               | VStr s => record s (group_of s obs)
                               | _ => []
                               end)).
  2:{ intros g Hgin. apply in_map_iff in Hgin. destruct Hgin as [s [<- Hs]].
      cbn [fst]. apply row_fn_typed. apply group_of_nonempty. now apply Hin. }
  cbn [bind]. rewrite map_map. cbn [fst].
  destruct keys as [|k keys].
  { exfalso. destruct obs as [|o obs]; [now apply Hobs|].
    apply (proj2 (Hin (symbol o))). now left. }
  rewrite (DataFrame_of_uniform_records
             (fun s => record s (group_of s obs)) cols); auto.
  unfold sort_values. rewrite check_columns_one by assumption.
  reflexivity.
Qed.
End Ranking.

Lemma calculate_metrics_typed (obs : list Observation) :
  obs <> [] ->
  exists keys,
    NoDup keys /\ (forall s, In s keys <-> In s (map symbol obs)) /\
    calculate_metrics (table_of obs)
    = Ok {| columns := metrics_columns;
            rows := nargsort false (fun r => cell r "Return (%)")
                      (map (fun s => metrics_record s (group_of s obs)) keys) |}.
Proof.
  apply (ranking_typed metrics_row metrics_record); try reflexivity.
  apply metrics_row_typed.
Qed.

Lemma calculate_volatility_typed (obs : list Observation) :
  obs <> [] ->
  exists keys,
    NoDup keys /\ (forall s, In s keys <-> In s (map symbol obs)) /\
    calculate_volatility (table_of obs)
    = Ok {| columns := volatility_columns;
            rows := nargsort false (fun r => cell r "Volatility")
                      (map (fun s => volatility_record s (group_of s obs)) keys) |}.
Proof.
  apply (ranking_typed volatility_row volatility_record); try reflexivity.
  intros s g _. apply volatility_row_typed.
Qed.

(** * The order of a ranking *)

Lemma Sorted_snoc {A : Type} (R : A -> A -> Prop) (l : list A) (a : A) :
  Sorted R l ->
  match rev l with [] => True | y :: _ => R y a end ->
  Sorted R (l ++ [a]).
Proof.
  induction l as [|x l IH]; intros Hs Hl.
  - repeat constructor.
  - inversion Hs as [|? ? Hs' Hhd]; subst. simpl. constructor.
    + apply IH; [assumption|]. simpl in Hl.
      destruct (rev l) as [|y t]; [exact I | exact Hl].
    + destruct l as [|z l]; simpl.
      * constructor. exact Hl.
      * constructor. now inversion Hhd.
Qed.

Lemma Sorted_reverse {A : Type} (R : A -> A -> Prop) (l : list A) :
  Sorted R l -> Sorted (fun a b => R b a) (rev l).
Proof.
  induction l as [|x l IH]; intros Hs; [constructor|].
  inversion Hs as [|? ? Hs' Hhd]; subst. simpl.
  apply Sorted_snoc; [now apply IH|].
  rewrite rev_involutive. destruct l as [|y l]; [exact I|].
  now inversion Hhd.
Qed.

Lemma Sorted_map_in {A B : Type} (R : A -> A -> Prop) (R' : B -> B -> Prop)
  (g : A -> B) (l : list A) :
  (forall a b, In a l -> In b l -> R a b -> R' (g a) (g b)) ->
  Sorted R l -> Sorted R' (map g l).
Proof.
  induction l as [|x l IH]; intros H Hs; [constructor|].
  inversion Hs as [|? ? Hs' Hhd]; subst. simpl. constructor.
  - apply IH; [|assumption]. intros a b Ha Hb. apply H; now right.
  - destruct l as [|y l]; constructor.
    apply H; [now left | right; now left | now inversion Hhd].
Qed.

Lemma filter_partition_perm {A : Type} (p : A -> bool) (l : list A) :
  Permutation (filter (fun x => negb (p x)) l ++ filter p l) l.
Proof.
  induction l as [|x l IH]; simpl; [reflexivity|].
  destruct (p x); simpl.
  - rewrite <- Permutation_middle. now constructor.
  - now constructor.
Qed.

Lemma nargsort_perm (ascending : bool) (key : row -> value) (rs : list row) :
  Permutation (nargsort ascending key rs) rs.
Proof.
  unfold nargsort.
  transitivity (filter (fun r => negb (isna (key r))) rs
                ++ filter (fun r => isna (key r)) rs);
    [|apply (filter_partition_perm (fun r => isna (key r)))].
  apply Permutation_app_tail. destruct ascending.
  - apply sort_on_perm.
  - rewrite <- Permutation_rev, sort_on_perm. symmetry. apply Permutation_rev.
Qed.

(** Sorted largest first, the rows whose key is a number come out in
    non-increasing order, and before every row whose key is NaN. *)
Lemma nargsort_descending (key : row -> value) (rs : list row) :
  (forall r, In r rs -> exists x, key r = VNum x) ->
  descending (filter notnan (map (fun r => num (key r)) (nargsort false key rs))).
Proof.
  intros Hnum. unfold nargsort, descending.
  set (N := filter (fun r => negb (isna (key r))) rs).
  set (M := filter (fun r => isna (key r)) rs).
  set (S := sort_on value_leb key (rev N)).
  assert (HN : forall r, In r N -> exists x, key r = VNum x /\ isnan x = false).
  { intros r Hr. apply filter_In in Hr. destruct Hr as [Hr Hna].
    destruct (Hnum r Hr) as [x Hx]. exists x. split; [assumption|].
    rewrite Hx in Hna. simpl in Hna. now apply negb_true_iff in Hna. }
  assert (HS : forall r, In r S -> exists x, key r = VNum x /\ isnan x = false).
  { intros r Hr. apply HN. apply in_rev.
    exact (proj1 (sort_on_in value_leb key (rev N) r) Hr). }
  rewrite map_app, filter_app.
  rewrite (filter_none notnan (map _ M)).
  2:{ intros x Hx. apply in_map_iff in Hx. destruct Hx as [r [<- Hr]].
      apply filter_In in Hr. destruct Hr as [Hr Hna].
      destruct (Hnum r Hr) as [y Hy]. rewrite Hy in *. simpl in *.
      unfold notnan. now rewrite Hna. }
  rewrite app_nil_r, filter_all.
  2:{ intros x Hx. apply in_map_iff in Hx. destruct Hx as [r [<- Hr]].
      apply in_rev in Hr. destruct (HS r Hr) as [y [Hy Hn]].
      rewrite Hy. simpl. unfold notnan. now rewrite Hn. }
  apply (Sorted_map_in (fun a b => value_leb (key b) (key a) = true)).
  - intros a b Ha Hb. apply in_rev in Ha, Hb.
    destruct (HS a Ha) as [x [Hx _]], (HS b Hb) as [y [Hy _]].
    rewrite Hx, Hy. simpl. tauto.
  - apply (Sorted_reverse (fun a b => value_leb (key a) (key b) = true)).
    apply (sort_on_sorted value_leb key
             (fun v => exists x, v = VNum x /\ isnan x = false)).
    + intros a b [x [-> Hx]] [y [-> Hy]]. simpl.
      now apply FloatFacts.leb_total.
    + apply Forall_forall. intros r Hr. apply HN. now apply in_rev.
Qed.

(** * First and last observation of a group *)

Lemma by_date_sorted (g : list Observation) :
  StronglySorted (fun a b => (date a <= date b)%Z) (by_date g).
Proof.
  apply Sorted_StronglySorted.
  - intros a b c. apply Z.le_trans.
  - assert (H : Sorted (fun a b => Z.leb (date a) (date b) = true) (by_date g)).
    { apply (sort_on_sorted Z.leb date (fun _ => True)).
      - intros a b _ _ H. apply Z.leb_le. apply Z.leb_gt in H. lia.
      - apply Forall_forall. intros; exact I. }
    rewrite <- (map_id (by_date g)).
    apply (Sorted_map_in (fun a b => Z.leb (date a) (date b) = true)
             (fun a b => (date a <= date b)%Z) (fun o => o)); [|exact H].
    intros a b _ _. apply Z.leb_le.
Qed.

Lemma by_date_in (g : list Observation) (o : Observation) :
  In o (by_date g) <-> In o g.
Proof. apply sort_on_in. Qed.

Lemma by_date_first (g : list Observation) :
  g <> [] -> earliest (hd no_observation (by_date g)) g.
Proof.
  intros Hg. destruct (by_date_nonempty g Hg) as [a [l E]].
  pose proof (by_date_sorted g) as Hs. rewrite E in Hs. rewrite E. simpl.
  inversion Hs as [|? ? _ Hall]; subst. split.
  - apply by_date_in. rewrite E. now left.
  - intros o Ho. apply by_date_in in Ho. rewrite E in Ho.
    destruct Ho as [<-|Ho]; [lia|].
    exact (proj1 (Forall_forall _ l) Hall o Ho).
Qed.

Lemma last_in {A : Type} (l : list A) (d : A) : l <> [] -> In (last l d) l.
Proof.
  induction l as [|a l IH]; intros H; [congruence|].
  destruct l as [|b l]; [now left|].
  right. apply IH. discriminate.
Qed.

Lemma StronglySorted_last {A : Type} (R : A -> A -> Prop) (l : list A) (d x : A) :
  (forall a, R a a) -> StronglySorted R l -> In x l -> R x (last l d).
Proof.
  intros Hrefl Hs. revert x. induction Hs as [|a l Hs IH Hall]; intros x Hx.
  - contradiction.
  - destruct l as [|b l].
    + destruct Hx as [<-|[]]. apply Hrefl.
    + change (last (a :: b :: l) d) with (last (b :: l) d).
      destruct Hx as [<-|Hx].
      * apply (proj1 (Forall_forall _ _) Hall). apply last_in. discriminate.
      * now apply IH.
Qed.

Lemma by_date_last (g : list Observation) :
  g <> [] -> latest (last (by_date g) no_observation) g.
Proof.
  intros Hg. destruct (by_date_nonempty g Hg) as [a [l E]]. split.
  - apply by_date_in. apply last_in. rewrite E. discriminate.
  - intros o Ho. apply by_date_in in Ho.
    apply (StronglySorted_last (fun a b => (date a <= date b)%Z)).
    + intros; lia.
    + apply by_date_sorted.
    + assumption.
Qed.

Lemma unique_dates_inj (g : list Observation) (a b : Observation) :
  unique_dates g -> In a g -> In b g -> date a = date b -> a = b.
Proof.
  unfold unique_dates. induction g as [|x g IH]; simpl; intros Hnd Ha Hb E.
  - contradiction.
  - inversion Hnd as [|? ? Hx Hnd']; subst.
    destruct Ha as [->|Ha], Hb as [->|Hb]; try reflexivity.
    + exfalso. apply Hx. rewrite E. now apply in_map.
    + exfalso. apply Hx. rewrite <- E. now apply in_map.
    + now apply IH.
Qed.

Lemma earliest_unique (g : list Observation) (a b : Observation) :
  unique_dates g -> earliest a g -> earliest b g -> a = b.
Proof.
  intros Hu [Ha Hamin] [Hb Hbmin]. apply (unique_dates_inj g); auto.
  specialize (Hamin b Hb). specialize (Hbmin a Ha). lia.
Qed.

Lemma latest_unique (g : list Observation) (a b : Observation) :
  unique_dates g -> latest a g -> latest b g -> a = b.
Proof.
  intros Hu [Ha Hamax] [Hb Hbmax]. apply (unique_dates_inj g); auto.
  specialize (Hamax b Hb). specialize (Hbmax a Ha). lia.
Qed.

(** * The row of a symbol in a ranking *)

Lemma find_unique {A : Type} (p : A -> bool) (l : list A) (x : A) :
  In x l -> p x = true -> (forall y, In y l -> p y = true -> y = x) ->
  find p l = Some x.
Proof.
  induction l as [|a l IH]; simpl; intros Hin Hp Hu; [contradiction|].
  destruct (p a) eqn:E.
  - f_equal. apply Hu; [now left | assumption].
  - destruct Hin as [->|Hin]; [congruence|].
    apply IH; auto.
Qed.

Section SymbolRows.
Variable record : string -> list Observation -> row.
Variable metric : string.
Hypothesis record_symbol : forall s g, cell (record s g) "Symbol" = VStr s.

Lemma row_of_symbol_sorted (obs : list Observation) (keys : list string)
  (cols : list string) (s : string) :
  In s keys ->
  row_of_symbol
    {| columns := cols;
       rows := nargsort false (fun r => cell r metric)
                 (map (fun s => record s (group_of s obs)) keys) |} s
  = Some (record s (group_of s obs)).
Proof.
  intros Hs. unfold row_of_symbol. cbn [rows]. apply find_unique.
  - apply (Permutation_in _ (Permutation_sym (nargsort_perm false _ _))).
    apply in_map_iff. now exists s.
  - rewrite record_symbol. simpl. apply String.eqb_refl.
  - intros r Hr Hp.
    apply (Permutation_in _ (nargsort_perm false _ _)) in Hr.
    apply in_map_iff in Hr. destruct Hr as [s' [<- _]].
    rewrite record_symbol in Hp. simpl in Hp. apply String.eqb_eq in Hp.
    now subst.
Qed.
End SymbolRows.

Lemma metrics_of_symbol (obs : list Observation) (s : string) :
  In s (map symbol obs) ->
  exists m, calculate_metrics (table_of obs) = Ok m /\
            row_of_symbol m s = Some (metrics_record s (group_of s obs)).
Proof.
  intros Hs.
  destruct (calculate_metrics_typed obs) as [keys [_ [Hin ->]]].
  { intros ->. contradiction. }
  eexists. split; [reflexivity|].
  apply (row_of_symbol_sorted metrics_record); [reflexivity | now apply Hin].
Qed.

Lemma volatility_of_symbol (obs : list Observation) (s : string) :
  In s (map symbol obs) ->
  exists v, calculate_volatility (table_of obs) = Ok v /\
            row_of_symbol v s = Some (volatility_record s (group_of s obs)).
Proof.
  intros Hs.
  destruct (calculate_volatility_typed obs) as [keys [_ [Hin ->]]].
  { intros ->. contradiction. }
  eexists. split; [reflexivity|].
  apply (row_of_symbol_sorted volatility_record); [reflexivity | now apply Hin].
Qed.

Lemma group_of_in (s : string) (obs : list Observation) (o : Observation) :
  In o (group_of s obs) <-> In o obs /\ symbol o = s.
Proof. unfold group_of. rewrite filter_In, String.eqb_eq. tauto. Qed.

Lemma group_member_symbol (s : string) (obs : list Observation) (o : Observation) :
  In o (group_of s obs) -> In s (map symbol obs).
Proof.
  intros H. apply group_of_in in H. destruct H as [Ho <-]. now apply in_map.
Qed.

Lemma nargsort_nan_last (key : row -> value) (rs : list row) :
  exists defined undefined,
    nargsort false key rs = defined ++ undefined /\
    Forall (fun r => isna (key r) = false) defined /\
    Forall (fun r => isna (key r) = true) undefined.
Proof.
  unfold nargsort. eexists. eexists. split; [reflexivity|]. split.
  - apply Forall_forall. intros r Hr. apply in_rev in Hr.
    apply (proj1 (sort_on_in value_leb key _ r)) in Hr. apply in_rev in Hr.
    apply filter_In in Hr. now apply negb_true_iff.
  - apply Forall_forall. intros r Hr. now apply filter_In in Hr.
Qed.

Lemma metrics_first_last (obs : list Observation) (s : string)
  (o1 o2 : Observation) :
  unique_dates (group_of s obs) ->
  earliest o1 (group_of s obs) ->
  latest o2 (group_of s obs) ->
  exists keys,
    let m := {| columns := metrics_columns;
                rows := nargsort false (fun r => cell r "Return (%)")
                          (map (fun s => metrics_record s (group_of s obs))
                               keys) |} in
    calculate_metrics (table_of obs) = Ok m /\
    row_of_symbol m s = Some (metrics_record s (group_of s obs)) /\
    cell (metrics_record s (group_of s obs)) "Return (%)"
    = VNum (return_pct (close o1) (close o2)).
Proof.
  intros Hu H1 H2.
  assert (Hg : group_of s obs <> []).
  { intros E. destruct H1 as [H1 _]. rewrite E in H1. contradiction. }
  assert (Hs : In s (map symbol obs)).
  { apply (group_member_symbol s obs o1). apply H1. }
  destruct (calculate_metrics_typed obs) as [keys [_ [Hin Hm]]].
  { intros ->. contradiction. }
  exists keys. cbn zeta. split; [exact Hm|]. split.
  - apply (row_of_symbol_sorted metrics_record); [reflexivity | now apply Hin].
  - rewrite (earliest_unique _ _ _ Hu H1 (by_date_first _ Hg)).
    rewrite (latest_unique _ _ _ Hu H2 (by_date_last _ Hg)).
    reflexivity.
Qed.

(** * Monthly performance on a typed table *)

Lemma month_series_typed (obs : list Observation) :
  month_series (table_of obs)
  = Ok (map (fun o => VStr (to_period_M (date o))) obs).
Proof.
  unfold month_series, getitem, table_of, has_column. cbn [columns rows].
  replace (existsb (String.eqb "Date") table_columns) with true
    by reflexivity.
  rewrite (mapM_ok (fun r => row_get r "Date") (fun r => cell r "Date")).
  2:{ intros r Hr. apply in_map_iff in Hr. now destruct Hr as [o [<- _]]. }
  cbn [bind]. rewrite map_map.
  rewrite (mapM_ok _ (fun v => match v with
                               | VDate t => VStr (to_period_M t)
                               | _ => v
                               end)).
  2:{ intros v Hv. apply in_map_iff in Hv. now destruct Hv as [o [<- _]]. }
  now rewrite map_map.
Qed.

Lemma set_cells_map {A : Type} (c : string) (g : A -> value) (f : A -> row)
  (l : list A) :
  set_cells c (map g l) (map f l) = map (fun a => set_cell c (g a) (f a)) l.
Proof. induction l as [|a l IH]; simpl; [reflexivity | now rewrite IH]. Qed.

Lemma setitem_month (obs : list Observation) :
  setitem (table_of obs) "Month"
    (map (fun o => VStr (to_period_M (date o))) obs)
  = {| columns := month_columns; rows := map row_of_month obs |}.
Proof.
  unfold setitem, table_of. cbn [rows]. rewrite set_cells_map. reflexivity.
Qed.

Lemma month_group_of_in (m s : string) (obs : list Observation)
  (o : Observation) :
  In o (month_group_of m s obs) <-> In o obs /\ month_key o = (m, s).
Proof.
  unfold month_group_of, month_key.
  rewrite filter_In, andb_true_iff, !String.eqb_eq. split.
  - intros [H [-> ->]]. tauto.
  - intros [H E]. inversion E. tauto.
Qed.

Lemma monthly_row_typed (m s : string) (g : list Observation) :
  g <> [] ->
  monthly_row ([VStr m; VStr s],
               {| columns := month_columns; rows := map row_of_month g |})
  = Ok (monthly_record m s g).
Proof.
  intros Hg. unfold monthly_row, monthly_record. cbn [fst snd].
  rewrite (sort_values_date row_of_month month_columns date)
    by reflexivity.
  cbn [bind]. fold (by_date g).
  destruct (by_date_nonempty g Hg) as [a [l E]]. rewrite E.
  rewrite (iloc_last row_of_month month_columns a no_observation l).
  cbn [bind]. rewrite iloc_first. reflexivity.
Qed.

Lemma month_groups (obs : list Observation) :
  exists keys,
    NoDup keys /\ (forall k, In k keys <-> In k (map month_key obs)) /\
    groupby {| columns := month_columns; rows := map row_of_month obs |}
      ["Month"; "Symbol"]
    = Ok (map (fun k =>
                 ([VStr (fst k); VStr (snd k)],
                  {| columns := month_columns;
                     rows := map row_of_month
                               (month_group_of (fst k) (snd k) obs) |}))
              keys).
Proof.
  destruct (group_keys_typed row_of_month ["Month"; "Symbol"]
              (fun k => [VStr (fst k); VStr (snd k)]) month_key obs)
    as [keys [Hk [Hnd Hin]]]; try reflexivity.
  { intros [a b] [a' b'] E. simpl in E. congruence. }
  exists keys. split; [assumption|]. split; [assumption|].
  rewrite (groupby_typed row_of_month month_columns) by reflexivity.
  rewrite Hk, map_map. f_equal. apply map_ext. intros [m s].
  cbn [fst snd]. f_equal. f_equal. f_equal. unfold month_group_of.
  apply filter_ext. intros o.
  change (map (cell (row_of_month o)) ["Month"; "Symbol"])
    with [VStr (to_period_M (date o)); VStr (symbol o)].
  cbn [key_eqb value_eqb]. now rewrite andb_true_r.
Qed.

Lemma monthly_performance_typed (obs : list Observation) :
  exists keys,
    NoDup keys /\ (forall k, In k keys <-> In k (map month_key obs)) /\
    exists out,
      fst (calculate_monthly_performance (table_of obs)) = Ok out /\
      rows out = map (fun k => monthly_record (fst k) (snd k)
                                 (month_group_of (fst k) (snd k) obs)) keys.
Proof.
  destruct (month_groups obs) as [keys [Hnd [Hin Hg]]].
  exists keys. split; [assumption|]. split; [assumption|].
  unfold calculate_monthly_performance.
  rewrite month_series_typed, setitem_month. cbn [fst]. rewrite Hg.
  cbn [bind].
  rewrite (mapM_ok _ (fun g => match fst g with
                               | [VStr m; VStr s] =>
                                   monthly_record m s (month_group_of m s obs)
                               | _ => []
                               end)).
  2:{ intros g Hgin. apply in_map_iff in Hgin.
      destruct Hgin as [[m s] [<- Hk]]. cbn [fst snd].
      apply monthly_row_typed. intros E.
      apply Hin in Hk. apply in_map_iff in Hk. destruct Hk as [o [Ho Hoin]].
      assert (Hm : In o (month_group_of m s obs))
        by (apply month_group_of_in; tauto).
      rewrite E in Hm. contradiction. }
  cbn [bind]. rewrite map_map. cbn [fst snd].
  eexists. split; [reflexivity|].
  destruct keys as [|k keys]; [reflexivity|].
  rewrite (DataFrame_of_uniform_records
             (fun k => monthly_record (fst k) (snd k)
                         (month_group_of (fst k) (snd k) obs))
             monthly_columns); auto.
Qed.

Lemma monthly_row_lookup (obs : list Observation) (keys : list (string * string))
  (out : DataFrame) (m s : string) :
  rows out = map (fun k => monthly_record (fst k) (snd k)
                             (month_group_of (fst k) (snd k) obs)) keys ->
  In (m, s) keys ->
  row_of_month_symbol out m s
  = Some (monthly_record m s (month_group_of m s obs)).
Proof.
  intros Hrows Hk. unfold row_of_month_symbol. rewrite Hrows.
  apply find_unique.
  - apply in_map_iff. now exists (m, s).
  - simpl. now rewrite !String.eqb_refl.
  - intros r Hr Hp. apply in_map_iff in Hr. destruct Hr as [[m' s'] [<- _]].
    simpl in Hp. apply andb_true_iff in Hp. destruct Hp as [Hm Hs].
    apply String.eqb_eq in Hm, Hs. now subst.
Qed.

(** * The correlation matrix *)

Lemma list_set_length {A : Type} (l : list A) (i : nat) (v : A) :
  List.length (list_set l i v) = List.length l.
Proof.
  revert i. induction l as [|x l IH]; intros [|i]; simpl; auto.
Qed.

Lemma list_set_overflow {A : Type} (l : list A) (i : nat) (v : A) :
  List.length l <= i -> list_set l i v = l.
Proof.
  revert i. induction l as [|x l IH]; intros [|i] H; simpl in *;
    try reflexivity; try lia.
  f_equal. apply IH. lia.
Qed.

Lemma nth_list_set_same {A : Type} (l : list A) (i : nat) (v d : A) :
  i < List.length l -> nth i (list_set l i v) d = v.
Proof.
  revert i. induction l as [|x l IH]; intros [|i] H; simpl in *; try lia.
  - reflexivity.
  - apply IH. lia.
Qed.

Lemma nth_list_set_other {A : Type} (l : list A) (i k : nat) (v d : A) :
  k <> i -> nth k (list_set l i v) d = nth k l d.
Proof.
  revert i k. induction l as [|x l IH]; intros [|i] [|k] H; simpl; try reflexivity.
  - contradiction.
  - apply IH. lia.
Qed.

(** A square k matrix of side [k]. *)
Lemma np_empty_shape (k : nat) :
  List.length (np_empty k) = k /\
  forall i, i < k -> List.length (nth i (np_empty k) []) = k.
Proof.
  unfold np_empty. split; [apply repeat_length|].
  intros i Hi. rewrite nth_repeat_lt by assumption. apply repeat_length.
Qed.

Lemma np_empty_square (k : nat) : square k (np_empty k).
Proof. apply np_empty_shape. Qed.

Section Writes.
Variable k : nat.

Lemma mat_set_square (m : matrix) (i j : nat) (v : float) :
  square k m -> square k (mat_set m i j v).
Proof.
  intros [Hl Hr]. unfold mat_set. split.
  - now rewrite list_set_length.
  - intros a Ha. destruct (Nat.eq_dec a i) as [->|Hne].
    + rewrite nth_list_set_same by lia. rewrite list_set_length. now apply Hr.
    + rewrite nth_list_set_other by assumption. now apply Hr.
Qed.

Lemma mat_get_set_same (m : matrix) (i j : nat) (v : float) :
  square k m -> i < k -> j < k -> mat_get (mat_set m i j v) i j = v.
Proof.
  intros [Hl Hr] Hi Hj. unfold mat_get, mat_set.
  rewrite nth_list_set_same by lia.
  apply nth_list_set_same. rewrite Hr; assumption.
Qed.

Lemma mat_get_set_other (m : matrix) (i j a b : nat) (v : float) :
  (a, b) <> (i, j) -> mat_get (mat_set m i j v) a b = mat_get m a b.
Proof.
  intros Hne. unfold mat_get, mat_set.
  destruct (Nat.eq_dec a i) as [->|Ha].
  - destruct (Nat.lt_ge_cases i (List.length m)) as [Hi|Hi].
    + rewrite nth_list_set_same by assumption.
      apply nth_list_set_other. congruence.
    + now rewrite list_set_overflow by assumption.
  - now rewrite nth_list_set_other by assumption.
Qed.
End Writes.

Lemma fold_left_flat_map {A B C : Type} (f : A -> C -> A) (g : B -> list C)
  (l : list B) (a : A) :
  fold_left f (flat_map g l) a = fold_left (fun a x => fold_left f (g x) a) l a.
Proof.
  revert a. induction l as [|x l IH]; intros a; simpl; [reflexivity|].
  now rewrite fold_left_app, IH.
Qed.

Lemma fold_left_map {A B C : Type} (f : A -> C -> A) (h : B -> C)
  (l : list B) (a : A) :
  fold_left f (map h l) a = fold_left (fun a y => f a (h y)) l a.
Proof.
  revert a. induction l as [|x l IH]; intros a; simpl; [reflexivity|].
  apply IH.
Qed.

Lemma nancorr_as_fold (cols : list (list float)) (m : matrix) :
  nancorr cols m
  = fold_left (write_pair cols) (index_pairs (List.length cols)) m.
Proof.
  unfold nancorr, index_pairs. rewrite fold_left_flat_map.
  generalize (seq 0 (List.length cols)). intros l. revert m.
  induction l as [|xi l IH]; intros m; simpl; [reflexivity|].
  now rewrite fold_left_map, IH.
Qed.

Lemma index_pairs_in (k x y : nat) :
  In (x, y) (index_pairs k) <-> y <= x /\ x < k.
Proof.
  unfold index_pairs. rewrite in_flat_map. split.
  - intros [xi [Hxi Hp]]. apply in_seq in Hxi. apply in_map_iff in Hp.
    destruct Hp as [yi [E Hyi]]. apply in_seq in Hyi. inversion E; subst. lia.
  - intros [Hy Hx]. exists x. split; [apply in_seq; lia|].
    apply in_map_iff. exists y. split; [reflexivity | apply in_seq; lia].
Qed.

Lemma pair_eq_dec (a b : nat * nat) : {a = b} + {a <> b}.
Proof. decide equality; apply Nat.eq_dec. Qed.

(** Every pair written so far holds the value computed for it, at both of
    its cells. *)
Lemma writes_invariant (cols : list (list float)) (k : nat)
  (ps : list (nat * nat)) (m : matrix) :
  square k m ->
  (forall x y, In (x, y) ps -> y <= x /\ x < k) ->
  let m' := fold_left (write_pair cols) ps m in
  square k m' /\
  forall i j, i < k -> j < k -> In (Nat.max i j, Nat.min i j) ps ->
    mat_get m' i j
    = corr_pair (nth (Nat.max i j) cols []) (nth (Nat.min i j) cols []).
Proof.
  intros Hsq. induction ps as [|[x y] ps IH] using rev_ind; intros Hps.
  - split; [assumption|]. intros i j _ _ [].
  - cbn zeta. rewrite fold_left_app. cbn [fold_left].
    destruct IH as [Hsq' Hcells].
    { intros a b Hab. apply Hps. apply in_or_app. now left. }
    destruct (Hps x y) as [Hyx Hxk]; [apply in_or_app; right; now left|].
    set (m' := fold_left (write_pair cols) ps m) in *.
    unfold write_pair. cbn [fst snd].
    set (val := corr_pair (nth x cols []) (nth y cols [])).
    split; [now repeat apply mat_set_square|].
    intros i j Hi Hj Hin.
    destruct (pair_eq_dec (i, j) (y, x)) as [E|N1].
    { inversion E; subst. rewrite (mat_get_set_same k); try lia.
      - now rewrite Nat.max_r, Nat.min_l by lia.
      - now apply mat_set_square. }
    rewrite mat_get_set_other by assumption.
    destruct (pair_eq_dec (i, j) (x, y)) as [E|N2].
    { inversion E; subst. rewrite (mat_get_set_same k); try lia; auto.
      now rewrite Nat.max_l, Nat.min_r by lia. }
    rewrite mat_get_set_other by assumption.
    apply Hcells; try assumption.
    apply in_app_or in Hin. destruct Hin as [Hin|[Hin|[]]]; [assumption|].
    exfalso. inversion Hin as [[Hmax Hmin]].
    destruct (Nat.le_ge_cases i j).
    + apply N1. f_equal; lia.
    + apply N2. f_equal; lia.
Qed.

(** Each cell of the result is the value computed for its pair of columns,
    whatever the array held before. *)
Lemma nancorr_cell (cols : list (list float)) (m : matrix) (i j : nat) :
  square (List.length cols) m ->
  i < List.length cols -> j < List.length cols ->
  mat_get (nancorr cols m) i j
  = corr_pair (nth (Nat.max i j) cols []) (nth (Nat.min i j) cols []).
Proof.
  intros Hsq Hi Hj. rewrite nancorr_as_fold.
  apply (writes_invariant cols (List.length cols)); try assumption.
  - intros x y. apply index_pairs_in.
  - apply index_pairs_in. lia.
Qed.

Lemma nancorr_square (cols : list (list float)) (m : matrix) :
  square (List.length cols) m -> square (List.length cols) (nancorr cols m).
Proof.
  intros Hsq. rewrite nancorr_as_fold.
  apply (writes_invariant cols (List.length cols)); try assumption.
  intros x y. apply index_pairs_in.
Qed.

Lemma nancorr_symmetric (cols : list (list float)) (m : matrix) (i j : nat) :
  square (List.length cols) m ->
  mat_get (nancorr cols m) i j = mat_get (nancorr cols m) j i.
Proof.
  intros Hsq. set (k := List.length cols).
  destruct (nancorr_square cols m Hsq) as [Hl Hr]. fold k in Hl, Hr.
  assert (Hout : forall a b, k <= a \/ k <= b ->
                             mat_get (nancorr cols m) a b = nan).
  { intros a b Hab. unfold mat_get.
    destruct (Nat.lt_ge_cases a k) as [Ha|Ha].
    - apply nth_overflow. rewrite Hr by assumption. lia.
    - rewrite (nth_overflow (nancorr cols m)) by lia. now destruct b. }
  destruct (Nat.lt_ge_cases i k) as [Hi|Hi];
    [destruct (Nat.lt_ge_cases j k) as [Hj|Hj]|].
  - rewrite !nancorr_cell by assumption.
    now rewrite Nat.max_comm, Nat.min_comm.
  - rewrite !Hout by lia. reflexivity.
  - rewrite !Hout by lia. reflexivity.
Qed.

(** * One row per symbol *)

Section RankedSymbols.
Variable record : string -> list Observation -> row.
Variable metric : string.
Hypothesis record_symbol : forall s g, cell (record s g) "Symbol" = VStr s.

Lemma ranked_symbols_sorted (obs : list Observation) (keys : list string)
  (cols : list string) :
  exists syms,
    ranked_symbols
      {| columns := cols;
         rows := nargsort false (fun r => cell r metric)
                   (map (fun s => record s (group_of s obs)) keys) |}
    = map VStr syms /\ Permutation syms keys.
Proof.
  set (rs := nargsort false (fun r => cell r metric)
               (map (fun s => record s (group_of s obs)) keys)).
  assert (Hp : Permutation rs (map (fun s => record s (group_of s obs)) keys))
    by apply nargsort_perm.
  exists (map (fun r => symbol_name (cell r "Symbol")) rs). split.
  - unfold ranked_symbols. cbn [rows]. fold rs. rewrite map_map.
    apply map_ext_in. intros r Hr.
    apply (Permutation_in _ Hp) in Hr. apply in_map_iff in Hr.
    destruct Hr as [s [<- _]]. now rewrite record_symbol.
  - rewrite (Permutation_map (fun r => symbol_name (cell r "Symbol")) Hp).
    rewrite map_map. erewrite map_ext; [rewrite map_id; reflexivity|].
    intros s. now rewrite record_symbol.
Qed.
End RankedSymbols.

(** * Volatility of short series *)

Lemma std_of_short_series (xs : list float) :
  List.length xs < 3 -> std (pct_change xs) = nan.
Proof.
  destruct xs as [|a [|b [|c xs]]]; simpl; intros H; try lia.
  - reflexivity.
  - unfold pct_change, std, var. simpl.
    rewrite FloatFacts.pct_of_nan. reflexivity.
  - unfold pct_change, std, var. simpl.
    rewrite FloatFacts.pct_of_nan. simpl.
    destruct (notnan (b / a - 1)); reflexivity.
Qed.

(** * The diagonal of the correlation matrix *)

Lemma welford_self (xs : list float) (w : welford) :
  meanx w = meany w -> ssqdmx w = ssqdmy w -> covxy w = ssqdmx w ->
  let w' := fold_left welford_step (combine xs xs) w in
  meanx w' = meany w' /\ ssqdmx w' = ssqdmy w' /\ covxy w' = ssqdmx w'.
Proof.
  revert w. induction xs as [|x xs IH]; intros w Hm Hs Hc; [now simpl|].
  simpl. apply IH; unfold welford_step;
    destruct (isfinite x && isfinite x); cbn [meanx meany ssqdmx ssqdmy covxy];
    congruence.
Qed.

Lemma corr_pair_self (xs : list float) : corr_pair xs xs = self_corr xs.
Proof.
  unfold corr_pair, self_corr, sum_sq_dev, finite_count, clip.
  destruct (welford_self xs welford0 eq_refl eq_refl eq_refl) as [_ [Hs Hc]].
  cbn zeta in Hs, Hc. rewrite Hc, <- Hs.
  destruct (nobs _ <? 1)%nat; [reflexivity|].
  destruct (PrimFloat.eqb _ 0); reflexivity.
Qed.

Lemma self_corr_no_variance (xs : list float) :
  PrimFloat.eqb (sum_sq_dev xs) 0 = true -> self_corr xs = nan.
Proof.
  intros H. unfold self_corr. destruct (finite_count xs <? 1)%nat; [reflexivity|].
  now rewrite FloatFacts.sqrt_sq_zero.
Qed.

Lemma mapM_length {A B : Type} (f : A -> result B) (l : list A) (l' : list B) :
  mapM f l = Ok l' -> List.length l' = List.length l.
Proof.
  revert l'. induction l as [|x l IH]; simpl; intros l' H.
  - inversion H. reflexivity.
  - destruct (f x) as [y|e]; simpl in H; [|discriminate].
    destruct (mapM f l) as [ys|e]; simpl in H; [|discriminate].
    inversion H; subst. simpl. f_equal. now apply IH.
Qed.

Lemma corr_as_nancorr (df : DataFrame) (m : matrix) :
  corr df = Ok m ->
  exists cols,
    mapM (getitem_num df) (columns df) = Ok cols /\
    List.length cols = List.length (columns df) /\
    m = nancorr cols (np_empty (List.length cols)).
Proof.
  unfold corr. destruct (mapM (getitem_num df) (columns df)) as [cols|e] eqn:E;
    simpl; intros H; [|discriminate].
  inversion H; subst. exists cols. split; [reflexivity|]. split; [|reflexivity].
  now apply mapM_length in E.
Qed.

Lemma select_columns (df sel : DataFrame) (labels : list value) :
  select df labels = Ok sel ->
  List.length (columns sel) = List.length labels.
Proof.
  unfold select.
  destruct (mapM _ labels) as [names|e] eqn:E; simpl; intros H; [|discriminate].
  inversion H; subst. cbn [columns]. now apply mapM_length in E.
Qed.

(** * The caller's table after the monthly performance *)

Lemma month_series_month_frame (obs : list Observation) :
  month_series {| columns := month_columns; rows := map row_of_month obs |}
  = Ok (map (fun o => VStr (to_period_M (date o))) obs).
Proof.
  unfold month_series, getitem, has_column. cbn [columns rows].
  replace (existsb (String.eqb "Date") month_columns) with true
    by reflexivity.
  rewrite (mapM_ok (fun r => row_get r "Date") (fun r => cell r "Date")).
  2:{ intros r Hr. apply in_map_iff in Hr. now destruct Hr as [o [<- _]]. }
  cbn [bind]. rewrite map_map.
  rewrite (mapM_ok _ (fun v => match v with
                               | VDate t => VStr (to_period_M t)
                               | _ => v
                               end)).
  2:{ intros v Hv. apply in_map_iff in Hv. now destruct Hv as [o [<- _]]. }
  now rewrite map_map.
Qed.

Lemma setitem_month_again (obs : list Observation) :
  setitem {| columns := month_columns; rows := map row_of_month obs |} "Month"
    (map (fun o => VStr (to_period_M (date o))) obs)
  = {| columns := month_columns; rows := map row_of_month obs |}.
Proof.
  unfold setitem. cbn [rows columns]. rewrite set_cells_map. reflexivity.
Qed.

Lemma monthly_performance_unfold (obs : list Observation) :
  calculate_monthly_performance (table_of obs)
  = (groups <- groupby {| columns := month_columns;
                          rows := map row_of_month obs |}
                 ["Month"; "Symbol"] ;;
     monthly_data <- mapM monthly_row groups ;;
     Ok (DataFrame_of_records monthly_data),
     {| columns := month_columns; rows := map row_of_month obs |}).
Proof.
  unfold calculate_monthly_performance.
  now rewrite month_series_typed, setitem_month.
Qed.

(** * Head and tail of a ranking *)

Lemma head_all (n : nat) (df : DataFrame) :
  List.length (rows df) <= n -> head n df = df.
Proof.
  intros H. destruct df as [cs rs]. unfold head. cbn [columns rows] in *.
  now rewrite firstn_all2.
Qed.

Lemma tail_all (n : nat) (df : DataFrame) :
  List.length (rows df) <= n -> tail n df = df.
Proof.
  intros H. destruct df as [cs rs]. unfold tail. cbn [columns rows] in *.
  now replace (List.length rs - n) with 0 by lia.
Qed.

Lemma distinct_count (keys : list string) (l : list string) :
  NoDup keys -> (forall s, In s keys <-> In s l) ->
  List.length keys = List.length (nodup string_dec l).
Proof.
  intros Hnd Hin. apply Permutation_length. apply NoDup_Permutation.
  - assumption.
  - apply NoDup_nodup.
  - intros s. rewrite nodup_In. apply Hin.
Qed.

(** * The market overview *)

Lemma getitem_cells (df : DataFrame) (c : string) :
  has_column df c = true ->
  (forall r, In r (rows df) -> assoc c r <> None) ->
  getitem df c = Ok (map (fun r => cell r c) (rows df)).
Proof.
  intros Hc Hr. unfold getitem. rewrite Hc. apply mapM_ok.
  intros r Hin. unfold row_get, cell. specialize (Hr r Hin).
  now destruct (assoc c r).
Qed.

Lemma getitem_num_cells (df : DataFrame) (c : string) :
  has_column df c = true ->
  (forall r, In r (rows df) -> exists x, assoc c r = Some (VNum x)) ->
  getitem_num df c = Ok (column_nums df c).
Proof.
  intros Hc Hr. unfold getitem_num. rewrite getitem_cells; [|assumption|].
  - cbn [bind]. unfold column_nums. rewrite <- map_map. apply mapM_ok.
    intros v Hv. apply in_map_iff in Hv. destruct Hv as [r [<- Hin]].
    destruct (Hr r Hin) as [x Hx]. unfold cell. now rewrite Hx.
  - intros r Hin. destruct (Hr r Hin) as [x Hx]. now rewrite Hx.
Qed.

Lemma dedup_of_nodup (l : list (list value)) : NoDup l -> dedup l = l.
Proof.
  induction l as [|k l IH]; intros H; [reflexivity|].
  inversion H as [|? ? Hk Hl]; subst. simpl. rewrite IH by assumption.
  f_equal. apply filter_all. intros k' Hk'. apply negb_true_iff.
  destruct (key_eqb k k') eqn:E; [|reflexivity].
  apply key_eqb_eq in E. now subst.
Qed.

Lemma nunique_symbols (syms : list string) :
  NoDup syms -> nunique (map VStr syms) = List.length syms.
Proof.
  intros H. unfold nunique.
  rewrite filter_all by (intros v Hv; apply in_map_iff in Hv;
                         now destruct Hv as [s [<- _]]).
  rewrite dedup_of_nodup.
  - now rewrite !length_map.
  - rewrite map_map. apply Finite.Injective_map_NoDup; [|assumption].
    intros a b E. congruence.
Qed.

(** * Pivoting *)

Lemma has_dup_head (k : list value) (l : list (list value)) :
  In k l -> has_dup (k :: l) = true.
Proof.
  intros H. simpl. apply orb_true_iff. left. apply existsb_exists.
  exists k. split; [assumption | now apply key_eqb_eq].
Qed.

Lemma has_dup_app (l1 l2 : list (list value)) :
  has_dup l2 = true -> has_dup (l1 ++ l2) = true.
Proof.
  intros H. induction l1 as [|x l1 IH]; [assumption|].
  simpl. rewrite IH. apply orb_true_r.
Qed.

Lemma pivot_duplicate (obs l1 l2 l3 : list Observation) (o o' : Observation) :
  obs = l1 ++ o :: l2 ++ o' :: l3 ->
  date o = date o' -> symbol o = symbol o' ->
  pivot (table_of obs) "Date" "Symbol" "Close" = Raise ValueError.
Proof.
  intros -> Hd Hs. unfold pivot.
  replace (check_columns (table_of (l1 ++ o :: l2 ++ o' :: l3))
             ["Date"; "Symbol"; "Close"]) with (Ok tt) by reflexivity.
  cbn [bind]. unfold table_of. cbn [rows].
  rewrite map_map, map_app. cbn [map]. rewrite map_app. cbn [map].
  rewrite has_dup_app; [reflexivity|].
  apply has_dup_head. apply in_or_app. right. left.
  change (cell (row_of o') "Date") with (VDate (date o')).
  change (cell (row_of o') "Symbol") with (VStr (symbol o')).
  change (cell (row_of o) "Date") with (VDate (date o)).
  change (cell (row_of o) "Symbol") with (VStr (symbol o)).
  now rewrite Hd, Hs.
Qed.

(** * Volatility as a sample standard deviation *)

Lemma map2_map_r {A B C : Type} (f : A -> B -> C) (g : A -> B) (l : list A) :
  map2 f l (map g l) = map (fun x => f x (g x)) l.
Proof. induction l as [|x l IH]; simpl; [reflexivity|]. now rewrite IH. Qed.

Lemma std_is_sample_std (xs : list float) : std xs = sample_std xs.
Proof.
  unfold std, var, sample_std.
  destruct (List.length (filter notnan xs)) as [|[|n]] eqn:E;
    try reflexivity.
  cbn [Nat.leb Nat.ltb]. f_equal.
  change (float_of_nat 1) with 1%float. f_equal. f_equal.
  unfold zero_fill. rewrite map2_map_r. apply map_ext. intros x.
  destruct (isnan x); [reflexivity|]. apply FloatFacts.sq_sub_swap.
Qed.

Lemma map2_removelast {A B C : Type} (f : A -> B -> C) (l : list A)
  (a : B) (l' : list B) :
  List.length l = List.length l' ->
  map2 f l (removelast (a :: l')) = map2 f l (a :: l').
Proof.
  revert a l'. induction l as [|x l IH]; intros a l' H.
  - destruct l'; [reflexivity | discriminate].
  - destruct l' as [|b l']; [discriminate|].
    change (removelast (a :: b :: l')) with (a :: removelast (b :: l')).
    simpl. f_equal. apply IH. simpl in H. lia.
Qed.

Lemma pct_change_cons (c : float) (cs : list float) :
  pct_change (c :: cs) = nan :: daily_returns (c :: cs).
Proof.
  unfold pct_change, daily_returns, shift. cbn [map2 List.tl].
  rewrite FloatFacts.pct_of_nan. f_equal. now apply map2_removelast.
Qed.

Lemma std_pct_change (c : float) (cs : list float) :
  std (pct_change (c :: cs)) = sample_std (nan :: daily_returns (c :: cs)).
Proof. now rewrite std_is_sample_std, pct_change_cons. Qed.

(** Two lists of the same observations in date order are the same list. *)
Lemma date_order_unique (l1 l2 : list Observation) :
  StronglySorted (fun a b => (date a <= date b)%Z) l1 ->
  StronglySorted (fun a b => (date a <= date b)%Z) l2 ->
  Permutation l1 l2 -> unique_dates l1 -> l1 = l2.
Proof.
  revert l2. induction l1 as [|a t1 IH]; intros l2 H1 H2 Hp Hu.
  - apply Permutation_nil in Hp. now subst.
  - destruct l2 as [|b t2].
    { symmetry in Hp. apply Permutation_nil in Hp. discriminate. }
    inversion H1 as [|? ? Hs1 Ha]; subst.
    inversion H2 as [|? ? Hs2 Hb]; subst.
    assert (Hab : a = b).
    { apply (unique_dates_inj (a :: t1)); try assumption.
      - now left.
      - apply (Permutation_in _ (Permutation_sym Hp)). now left.
      - assert (Hle1 : (date a <= date b)%Z).
        { assert (Hin : In b (a :: t1))
            by (apply (Permutation_in _ (Permutation_sym Hp)); now left).
          destruct Hin as [->|Hin]; [lia|].
          exact (proj1 (Forall_forall _ _) Ha b Hin). }
        assert (Hle2 : (date b <= date a)%Z).
        { assert (Hin : In a (b :: t2))
            by (apply (Permutation_in _ Hp); now left).
          destruct Hin as [->|Hin]; [lia|].
          exact (proj1 (Forall_forall _ _) Hb a Hin). }
        lia. }
    subst b. f_equal. apply IH; try assumption.
    + now apply Permutation_cons_inv in Hp.
    + unfold unique_dates in *. simpl in Hu. now inversion Hu.
Qed.

Lemma in_date_order_by_date (d g : list Observation) :
  in_date_order d g -> by_date g = d.
Proof.
  intros [Hp Hs]. symmetry. apply date_order_unique.
  - clear Hp. induction Hs as [|a l Hs IH Ha]; constructor; [assumption|].
    apply Forall_forall. intros x Hx.
    pose proof (proj1 (Forall_forall _ _) Ha x Hx) as Hlt. simpl in Hlt. lia.
  - apply by_date_sorted.
  - rewrite Hp. symmetry. apply sort_on_perm.
  - unfold unique_dates. clear Hp.
    induction Hs as [|a l Hs IH Ha]; simpl; constructor; [|assumption].
    intros Hin. apply in_map_iff in Hin. destruct Hin as [x [E Hx]].
    pose proof (proj1 (Forall_forall _ _) Ha x Hx) as Hlt. simpl in Hlt. lia.
Qed.

Lemma value_eq_dec (a b : value) : {a = b} + {a <> b}.
Proof.
  destruct (value_eqb a b) eqn:E.
  - left. now apply value_eqb_eq.
  - right. intros H. apply value_eqb_eq in H. congruence.
Qed.

(** * Group-wise series: scattering and gathering *)

Lemma key_eqb_refl (k : list value) : key_eqb k k = true.
Proof. now apply key_eqb_eq. Qed.

Lemma key_eqb_sym (a b : list value) : key_eqb a b = key_eqb b a.
Proof.
  destruct (key_eqb a b) eqn:E, (key_eqb b a) eqn:E'; try reflexivity.
  - apply key_eqb_eq in E. subst. now rewrite key_eqb_refl in E'.
  - apply key_eqb_eq in E'. subst. now rewrite key_eqb_refl in E.
Qed.

Lemma take_next_other (k k' : list value) (res : list (list value * list float)) :
  key_eqb k k' = false ->
  lookup k' (snd (take_next k res)) = lookup k' res.
Proof.
  intros Hne. induction res as [|[k0 vs] res IH]; [reflexivity|].
  simpl. destruct (key_eqb k k0) eqn:E.
  - destruct vs as [|v vs]; [reflexivity|]. simpl.
    apply key_eqb_eq in E. subst k0. rewrite (key_eqb_sym k' k), Hne.
    reflexivity.
  - destruct (take_next k res) as [v res'] eqn:Et. simpl in *.
    now rewrite IH.
Qed.

Lemma take_next_same (k : list value) (res : list (list value * list float))
  (v : float) (vs : list float) :
  lookup k res = Some (v :: vs) ->
  fst (take_next k res) = v /\ lookup k (snd (take_next k res)) = Some vs.
Proof.
  induction res as [|[k0 ws] res IH]; [discriminate|].
  simpl. destruct (key_eqb k k0) eqn:E.
  - intros H. inversion H; subst. simpl. now rewrite E.
  - intros H. destruct (take_next k res) as [v' res'] eqn:Et. simpl in *.
    rewrite E. now apply IH.
Qed.

(** What is scattered to the rows of a group is the group's series, in
    order, when the series has one value per row of the group. *)
Lemma gather_scatter (k : list value) (keys : list (list value))
  (res : list (list value * list float)) (vs : list float) :
  lookup k res = Some vs ->
  List.length vs = count_occ (list_eq_dec value_eq_dec) keys k ->
  gather k keys (scatter keys res) = vs.
Proof.
  revert res vs. induction keys as [|k0 keys IH]; intros res vs Hl Hn.
  - destruct vs; [reflexivity | discriminate].
  - cbn [scatter]. destruct (take_next k0 res) as [v res'] eqn:Et.
    cbn [gather]. simpl in Hn.
    destruct (list_eq_dec value_eq_dec k0 k) as [->|Hne].
    + rewrite key_eqb_refl. destruct vs as [|v0 vs]; [discriminate|].
      destruct (take_next_same k res v0 vs Hl) as [Hv Hl'].
      rewrite Et in Hv, Hl'. simpl in Hv, Hl'. subst v0. f_equal.
      apply IH; [assumption | now inversion Hn].
    + assert (E : key_eqb k0 k = false).
      { destruct (key_eqb k0 k) eqn:E; [|reflexivity].
        apply key_eqb_eq in E. contradiction. }
      rewrite E. apply IH; [|assumption].
      pose proof (take_next_other k0 k res E) as H. rewrite Et in H.
      simpl in H. now rewrite H.
Qed.

Lemma scatter_length (keys : list (list value))
  (res : list (list value * list float)) :
  List.length (scatter keys res) = List.length keys.
Proof.
  revert res. induction keys as [|k keys IH]; intros res; [reflexivity|].
  cbn [scatter]. destruct (take_next k res) as [v res']. simpl. now rewrite IH.
Qed.

Lemma lookup_map (h : list value -> list float) (ks : list (list value))
  (k : list value) :
  In k ks -> lookup k (map (fun k => (k, h k)) ks) = Some (h k).
Proof.
  induction ks as [|k0 ks IH]; [contradiction|].
  simpl. destruct (key_eqb k k0) eqn:E.
  - apply key_eqb_eq in E. now subst.
  - intros [->|H]; [now rewrite key_eqb_refl in E | now apply IH].
Qed.

Lemma filter_key_length (keyf : row -> list value) (rs : list row)
  (k : list value) :
  List.length (filter (fun r => key_eqb (keyf r) k) rs)
  = count_occ (list_eq_dec value_eq_dec) (map keyf rs) k.
Proof.
  induction rs as [|r rs IH]; [reflexivity|].
  cbn [map filter count_occ].
  destruct (key_eqb (keyf r) k) eqn:Ek;
    destruct (list_eq_dec value_eq_dec (keyf r) k) as [E|N].
  - simpl. now rewrite IH.
  - apply key_eqb_eq in Ek. contradiction.
  - rewrite E, key_eqb_refl in Ek. discriminate.
  - exact IH.
Qed.

(** [groupby(by)[c].transform(f)]: the rows of a group receive the series
    [f] makes of the group's column, in row order. *)
Lemma groupby_transform_gather (df : DataFrame) (by_ : list string)
  (c : string) (f : list float -> list float) :
  check_columns df by_ = Ok tt ->
  has_column df c = true ->
  (forall r, In r (rows df) -> exists x, assoc c r = Some (VNum x)) ->
  (forall xs, List.length (f xs) = List.length xs) ->
  exists out,
    groupby_transform df by_ c f = Ok out /\
    List.length out = List.length (rows df) /\
    forall k, In k (group_keys by_ (rows df)) ->
      gather k (map (fun r => map (cell r) by_) (rows df)) out
      = f (map (fun r => num (cell r c))
               (filter (fun r => key_eqb (map (cell r) by_) k) (rows df))).
Proof.
  intros Hc Hcol Hnum Hlen.
  set (keyf := fun r : row => map (cell r) by_).
  set (vals := fun k => map (fun r => num (cell r c))
                            (filter (fun r => key_eqb (keyf r) k) (rows df))).
  unfold groupby_transform, groupby. rewrite Hc. cbn [bind].
  rewrite (mapM_ok _ (fun g => (fst g, f (vals (fst g))))).
  2:{ intros g Hg. apply in_map_iff in Hg. destruct Hg as [k [<- Hk]].
      cbn [fst snd]. rewrite getitem_num_cells.
      - reflexivity.
      - exact Hcol.
      - intros r Hr. cbn [rows] in Hr. apply filter_In in Hr.
        apply Hnum. apply Hr. }
  cbn [bind]. rewrite map_map. cbn [fst].
  eexists. split; [reflexivity|]. split; [now rewrite scatter_length, length_map|].
  intros k Hk. apply gather_scatter.
  - now rewrite (lookup_map (fun k => f (vals k))).
  - unfold vals. rewrite Hlen, length_map. apply filter_key_length.
Qed.

(** * The order of strings *)

Lemma ascii_compare_lt_trans (a b c : ascii) :
  Ascii.compare a b = Lt -> Ascii.compare b c = Lt -> Ascii.compare a c = Lt.
Proof.
  unfold Ascii.compare. rewrite !N.compare_lt_iff. apply N.lt_trans.
Qed.

Lemma ascii_compare_refl (x : ascii) : Ascii.compare x x = Eq.
Proof. unfold Ascii.compare. apply N.compare_refl. Qed.

Lemma string_compare_refl (s : string) : String.compare s s = Eq.
Proof.
  induction s as [|x s IH]; simpl; [reflexivity|].
  now rewrite ascii_compare_refl.
Qed.

Lemma string_compare_lt_trans (a b c : string) :
  String.compare a b = Lt -> String.compare b c = Lt ->
  String.compare a c = Lt.
Proof.
  revert b c. induction a as [|x a IH]; intros [|y b] [|z c]; simpl;
    try congruence.
  destruct (Ascii.compare x y) eqn:Exy; try discriminate;
    destruct (Ascii.compare y z) eqn:Eyz; try discriminate.
  - apply Ascii.compare_eq_iff in Exy. apply Ascii.compare_eq_iff in Eyz.
    rewrite Exy, Eyz, ascii_compare_refl. apply IH.
  - apply Ascii.compare_eq_iff in Exy. rewrite Exy, Eyz. reflexivity.
  - apply Ascii.compare_eq_iff in Eyz. rewrite <- Eyz, Exy. reflexivity.
  - rewrite (ascii_compare_lt_trans x y z Exy Eyz). reflexivity.
Qed.

Lemma string_leb_trans (a b c : string) :
  String.leb a b = true -> String.leb b c = true -> String.leb a c = true.
Proof.
  unfold String.leb.
  destruct (String.compare a b) eqn:Eab; try discriminate;
    destruct (String.compare b c) eqn:Ebc; try discriminate; intros _ _.
  - apply String.compare_eq_iff in Eab. apply String.compare_eq_iff in Ebc.
    rewrite Eab, Ebc, string_compare_refl. reflexivity.
  - apply String.compare_eq_iff in Eab. rewrite Eab, Ebc. reflexivity.
  - apply String.compare_eq_iff in Ebc. rewrite <- Ebc, Eab. reflexivity.
  - rewrite (string_compare_lt_trans a b c Eab Ebc). reflexivity.
Qed.

Lemma string_leb_antisym (a b : string) :
  String.leb a b = true -> String.leb b a = true -> a = b.
Proof.
  unfold String.leb. rewrite (String.compare_antisym a b).
  destruct (String.compare b a) eqn:E; simpl; try discriminate.
  intros _ _. symmetry. now apply String.compare_eq_iff.
Qed.

(** * The selection of the cumulative returns *)

Lemma symbol_date_leb (a b : Observation) :
  key_leb (symbol_date_key a) (symbol_date_key b) = true <->
  (symbol a <> symbol b /\ String.leb (symbol a) (symbol b) = true) \/
  (symbol a = symbol b /\ (date a <= date b)%Z).
Proof.
  unfold symbol_date_key. cbn [key_leb value_eqb value_leb].
  destruct (String.eqb_spec (symbol a) (symbol b)) as [E|N].
  - destruct (Z.eqb_spec (date a) (date b)) as [Ed|Nd].
    + split; [intros _; right; split; [assumption | lia] | reflexivity].
    + rewrite Z.leb_le. split; [tauto|]. intros [[H _]|[_ H]]; [contradiction | assumption].
  - split; [tauto|]. intros [[_ H]|[H _]]; [assumption | contradiction].
Qed.

Lemma symbol_date_total (a b : Observation) :
  key_leb (symbol_date_key a) (symbol_date_key b) = false ->
  key_leb (symbol_date_key b) (symbol_date_key a) = true.
Proof.
  intros H. apply symbol_date_leb.
  destruct (String.eqb_spec (symbol b) (symbol a)) as [E|N].
  - right. split; [assumption|].
    destruct (Z.le_gt_cases (date b) (date a)) as [Hle|Hgt]; [assumption|].
    exfalso. rewrite (proj2 (symbol_date_leb a b)) in H; [discriminate|].
    right. split; [congruence | lia].
  - left. split; [assumption|].
    destruct (String.leb_total (symbol a) (symbol b)) as [Hab|Hba];
      [|assumption].
    exfalso. rewrite (proj2 (symbol_date_leb a b)) in H; [discriminate|].
    left. split; [congruence | assumption].
Qed.

Lemma symbol_date_trans (a b c : Observation) :
  key_leb (symbol_date_key a) (symbol_date_key b) = true ->
  key_leb (symbol_date_key b) (symbol_date_key c) = true ->
  key_leb (symbol_date_key a) (symbol_date_key c) = true.
Proof.
  rewrite !symbol_date_leb.
  intros [[Nab Lab]|[Eab Dab]] [[Nbc Lbc]|[Ebc Dbc]].
  - left. split; [|now apply (string_leb_trans _ (symbol b))].
    intros E. apply Nab. apply string_leb_antisym; [assumption|].
    now rewrite E.
  - left. rewrite <- Ebc. tauto.
  - left. rewrite Eab. tauto.
  - right. split; [congruence | lia].
Qed.

Lemma selection_sorted (top : list value) (obs : list Observation) :
  StronglySorted
    (fun a b => key_leb (symbol_date_key a) (symbol_date_key b) = true)
    (selection top obs).
Proof.
  apply Sorted_StronglySorted.
  - intros a b c. apply symbol_date_trans.
  - unfold selection.
    apply (sort_on_sorted key_leb symbol_date_key
             (fun k => exists o, k = symbol_date_key o)).
    + intros ka kb [a ->] [b ->]. apply symbol_date_total.
    + apply Forall_forall. intros o _. now exists o.
Qed.

Lemma StronglySorted_filter {A : Type} (R : A -> A -> Prop) (p : A -> bool)
  (l : list A) :
  StronglySorted R l -> StronglySorted R (filter p l).
Proof.
  induction 1 as [|a l Hs IH Ha]; simpl; [constructor|].
  destruct (p a); [|assumption]. constructor; [assumption|].
  apply Forall_forall. intros x Hx. apply filter_In in Hx.
  exact (proj1 (Forall_forall _ _) Ha x (proj1 Hx)).
Qed.

Lemma StronglySorted_weaken {A : Type} (R R' : A -> A -> Prop) (l : list A) :
  (forall a b, In a l -> In b l -> R a b -> R' a b) ->
  StronglySorted R l -> StronglySorted R' l.
Proof.
  intros H Hs. induction Hs as [|a l Hs IH Ha]; constructor.
  - apply IH. intros x y Hx Hy. apply H; now right.
  - apply Forall_forall. intros x Hx. apply H; [now left | now right|].
    exact (proj1 (Forall_forall _ _) Ha x Hx).
Qed.

Lemma filter_perm {A : Type} (p : A -> bool) (l l' : list A) :
  Permutation l l' -> Permutation (filter p l) (filter p l').
Proof.
  induction 1 as [|x l l' H IH|x y l|l l' l'' H1 IH1 H2 IH2]; simpl.
  - constructor.
  - destruct (p x); [now constructor | assumption].
  - destruct (p x), (p y); try reflexivity. apply perm_swap.
  - now transitivity (filter p l').
Qed.

Lemma filter_implied {A : Type} (p q : A -> bool) (l : list A) :
  (forall x, p x = true -> q x = true) -> filter p (filter q l) = filter p l.
Proof.
  intros H. induction l as [|x l IH]; [reflexivity|].
  simpl. destruct (q x) eqn:Eq; simpl.
  - destruct (p x); now rewrite IH.
  - destruct (p x) eqn:Ep; [|assumption].
    rewrite (H x Ep) in Eq. discriminate.
Qed.

Lemma in_date_order_unique (d g x : list Observation) :
  in_date_order d g ->
  StronglySorted (fun a b => (date a <= date b)%Z) x ->
  Permutation x g -> x = d.
Proof.
  intros [Hp Hs] Hx Hpx. symmetry. apply date_order_unique.
  - clear Hp. induction Hs as [|a l Hs IH Ha]; constructor; [assumption|].
    apply Forall_forall. intros y Hy.
    pose proof (proj1 (Forall_forall _ _) Ha y Hy) as Hlt. simpl in Hlt. lia.
  - assumption.
  - now rewrite Hp, Hpx.
  - unfold unique_dates. clear Hp.
    induction Hs as [|a l Hs IH Ha]; simpl; constructor; [|assumption].
    intros Hin. apply in_map_iff in Hin. destruct Hin as [y [E Hy]].
    pose proof (proj1 (Forall_forall _ _) Ha y Hy) as Hlt. simpl in Hlt. lia.
Qed.

(** The rows of a selected symbol come out in the order of their dates. *)
Lemma selection_group (top : list value) (obs d : list Observation)
  (s : string) :
  In (VStr s) top ->
  in_date_order d (group_of s obs) ->
  group_of s (selection top obs) = d.
Proof.
  intros Hs Hd. apply (in_date_order_unique d (group_of s obs)).
  - assumption.
  - apply (StronglySorted_weaken
             (fun a b => key_leb (symbol_date_key a) (symbol_date_key b) = true)).
    + intros a b Ha Hb Hab. apply group_of_in in Ha, Hb.
      apply symbol_date_leb in Hab.
      destruct Hab as [[N _]|[_ H]]; [|assumption].
      exfalso. apply N. destruct Ha as [_ ->], Hb as [_ ->]. reflexivity.
    + apply StronglySorted_filter, selection_sorted.
  - unfold selection, group_of.
    rewrite (filter_perm _ _ _ (sort_on_perm key_leb symbol_date_key _)).
    rewrite filter_implied; [reflexivity|].
    intros o Ho. apply String.eqb_eq in Ho. apply existsb_exists.
    exists (VStr s). split; [assumption|]. rewrite Ho.
    now apply value_eqb_eq.
Qed.

(** * Assigned columns *)

Lemma cell_set_cell_same (c : string) (v : value) (r : row) :
  cell (set_cell c v r) c = v.
Proof. unfold cell. now rewrite set_cell_get. Qed.

Lemma cell_set_cell_other (c c' : string) (v : value) (r : row) :
  String.eqb c' c = false -> cell (set_cell c v r) c' = cell r c'.
Proof.
  intros H. unfold cell. induction r as [|[k w] r IH]; simpl.
  - now rewrite H.
  - destruct (String.eqb c k) eqn:E; simpl.
    + apply String.eqb_eq in E. subst k. now rewrite H.
    + destruct (String.eqb c' k); [reflexivity | apply IH].
Qed.

Section SetCells.
Variable c : string.
Variable by_ : list string.
Hypothesis by_other : forall b, In b by_ -> String.eqb b c = false.

Lemma key_set_cell (v : value) (r : row) :
  map (cell (set_cell c v r)) by_ = map (cell r) by_.
Proof.
  apply map_ext_in. intros b Hb. apply cell_set_cell_other. now apply by_other.
Qed.

Lemma keys_set_cells (xs : list float) (rs : list row) :
  map (fun r => map (cell r) by_) (set_cells c (map VNum xs) rs)
  = map (fun r => map (cell r) by_) rs.
Proof.
  revert xs. induction rs as [|r rs IH]; intros [|x xs]; try reflexivity.
  simpl. now rewrite key_set_cell, IH.
Qed.

Lemma gather_set_cells (k : list value) (xs : list float) (rs : list row) :
  List.length xs = List.length rs ->
  map (fun r => num (cell r c))
      (filter (fun r => key_eqb (map (cell r) by_) k)
              (set_cells c (map VNum xs) rs))
  = gather k (map (fun r => map (cell r) by_) rs) xs.
Proof.
  revert xs. induction rs as [|r rs IH]; intros [|x xs] H;
    try discriminate; [reflexivity|].
  cbn [map set_cells filter gather]. rewrite key_set_cell.
  destruct (key_eqb (map (cell r) by_) k).
  - cbn [map]. rewrite cell_set_cell_same. cbn [num]. f_equal.
    apply IH. simpl in H. lia.
  - apply IH. simpl in H. lia.
Qed.

Lemma other_column_set_cells (c' : string) (k : list value) (xs : list float)
  (rs : list row) :
  String.eqb c' c = false ->
  map (fun r => cell r c')
      (filter (fun r => key_eqb (map (cell r) by_) k)
              (set_cells c (map VNum xs) rs))
  = map (fun r => cell r c')
        (filter (fun r => key_eqb (map (cell r) by_) k) rs).
Proof.
  intros Hc. revert xs. induction rs as [|r rs IH]; intros [|x xs];
    try reflexivity.
  cbn [map set_cells filter]. rewrite key_set_cell.
  destruct (key_eqb (map (cell r) by_) k).
  - cbn [map]. rewrite cell_set_cell_other by assumption. f_equal. apply IH.
  - apply IH.
Qed.

Lemma numeric_set_cells (xs : list float) (rs : list row) (r : row) :
  List.length xs = List.length rs ->
  In r (set_cells c (map VNum xs) rs) ->
  exists x, assoc c r = Some (VNum x).
Proof.
  revert xs. induction rs as [|r0 rs IH]; intros [|x xs] H Hin;
    try discriminate; [contradiction|].
  cbn [map set_cells] in Hin. destruct Hin as [<-|Hin].
  - exists x. apply set_cell_get.
  - apply (IH xs); [simpl in H; lia | assumption].
Qed.

Lemma set_cells_length (vs : list value) (rs : list row) :
  List.length (set_cells c vs rs) = List.length rs.
Proof.
  revert vs. induction rs as [|r rs IH]; intros [|v vs]; try reflexivity.
  simpl. now rewrite IH.
Qed.
End SetCells.

Lemma accumulate_length (f : float -> float -> float) (acc : float)
  (l : list float) :
  List.length (accumulate f acc l) = List.length l.
Proof.
  revert acc. induction l as [|x l IH]; intros acc; [reflexivity|].
  simpl. now rewrite IH.
Qed.

Lemma cumprod_length (xs : list float) :
  List.length (cumprod xs) = List.length xs.
Proof.
  unfold cumprod. rewrite map2_length; [reflexivity|].
  destruct xs as [|x xs]; [reflexivity|].
  simpl. now rewrite accumulate_length, length_map.
Qed.

Lemma isin_copy_typed (obs : list Observation) (top : list value) :
  isin_copy (table_of obs) "Symbol" top
  = Ok (table_of (filter (fun o => existsb (value_eqb (VStr (symbol o))) top)
                         obs)).
Proof.
  unfold isin_copy. rewrite getitem_cells.
  - cbn [bind]. unfold table_of. cbn [rows columns].
    now rewrite filter_map_comm.
  - reflexivity.
  - intros r Hr. apply in_map_iff in Hr. now destruct Hr as [o [<- _]].
Qed.

Lemma sort_symbol_date (l : list Observation) :
  sort_values (table_of l) ["Symbol"; "Date"] true
  = Ok (table_of (sort_on key_leb symbol_date_key l)).
Proof.
  unfold sort_values.
  replace (check_columns (table_of l) ["Symbol"; "Date"]) with (Ok tt)
    by reflexivity.
  cbn [bind]. unfold table_of. cbn [rows columns]. f_equal. f_equal.
  apply (sort_on_map key_leb (fun r => map (cell r) ["Symbol"; "Date"])
           key_leb symbol_date_key row_of).
  reflexivity.
Qed.

(** * Cumulative returns on a typed table *)

Lemma growth_length (xs : list float) :
  List.length (growth xs) = List.length xs.
Proof. unfold growth. now rewrite cumprod_length, length_map. Qed.

Lemma cumulative_returns_typed (obs : list Observation) (top : list value) :
  let l := selection top obs in
  let keys := map (fun r => map (cell r) ["Symbol"]) (map row_of l) in
  exists daily cum,
    calculate_cumulative_returns (table_of obs) top
    = Ok (setitem (setitem (table_of l) "Daily Return" (map VNum daily))
                  "Cumulative Return" (map VNum cum)) /\
    List.length daily = List.length l /\
    List.length cum = List.length l /\
    forall k, In k (group_keys ["Symbol"] (map row_of l)) ->
      gather k keys daily
      = pct_change (map (fun r => num (cell r "Close"))
                        (filter (fun r => key_eqb (map (cell r) ["Symbol"]) k)
                                (map row_of l))) /\
      gather k keys cum = growth (gather k keys daily).
Proof.
  intros l keys.
  destruct (groupby_transform_gather (table_of l) ["Symbol"] "Close" pct_change)
    as [daily [Hd [Hdl Hdg]]]; try reflexivity.
  { intros r Hr. apply in_map_iff in Hr. destruct Hr as [o [<- _]].
    eexists. reflexivity. }
  { apply pct_change_length. }
  cbn [rows table_of] in Hdl, Hdg. rewrite length_map in Hdl.
  set (sub1 := setitem (table_of l) "Daily Return" (map VNum daily)).
  assert (Hk1 : map (fun r => map (cell r) ["Symbol"]) (rows sub1) = keys).
  { unfold sub1, setitem. cbn [rows table_of].
    apply (keys_set_cells "Daily Return" ["Symbol"]).
    intros b [<-|[]]. reflexivity. }
  destruct (groupby_transform_gather sub1 ["Symbol"] "Daily Return" growth)
    as [cum [Hc [Hcl Hcg]]]; try reflexivity.
  { intros r Hr. apply (numeric_set_cells "Daily Return" daily (map row_of l)).
    - now rewrite length_map.
    - exact Hr. }
  { apply growth_length. }
  assert (Hrows1 : List.length (rows sub1) = List.length l).
  { unfold sub1, setitem. cbn [rows table_of].
    now rewrite set_cells_length, length_map. }
  exists daily, cum. split; [|split; [assumption|split; [lia|]]].
  - unfold calculate_cumulative_returns.
    rewrite isin_copy_typed. cbn [bind].
    rewrite sort_symbol_date. cbn [bind]. fold (selection top obs). fold l.
    rewrite Hd. cbn [bind]. fold sub1. unfold growth in Hc. rewrite Hc.
    reflexivity.
  - intros k Hk. split; [now apply Hdg|].
    rewrite Hk1 in Hcg.
    assert (Hgk : group_keys ["Symbol"] (rows sub1)
                  = group_keys ["Symbol"] (map row_of l)).
    { unfold group_keys. now rewrite Hk1. }
    rewrite (Hcg k) by (now rewrite Hgk). f_equal.
    unfold sub1, setitem. cbn [rows table_of].
    apply (gather_set_cells "Daily Return" ["Symbol"]).
    + intros b [<-|[]]. reflexivity.
    + now rewrite length_map.
Qed.

Lemma symbol_rows_typed (l : list Observation) (s : string) :
  filter (fun r => key_eqb (map (cell r) ["Symbol"]) [VStr s]) (map row_of l)
  = map row_of (group_of s l).
Proof.
  rewrite filter_map_comm. f_equal. apply filter_ext. intros o.
  cbn [map key_eqb]. change (cell (row_of o) "Symbol") with (VStr (symbol o)).
  cbn [value_eqb]. apply andb_true_r.
Qed.

Lemma growth_starts_nan (c : float) (cs : list float) :
  hd_error (growth (pct_change (c :: cs))) = Some nan.
Proof. rewrite pct_change_cons. reflexivity. Qed.

Lemma cumulative_rows_of_symbol (obs : list Observation) (top : list value)
  (s : string) :
  In s (map symbol (selection top obs)) ->
  exists out,
    calculate_cumulative_returns (table_of obs) top = Ok out /\
    columns out = table_columns ++ ["Daily Return"; "Cumulative Return"] /\
    map (fun r => cell r "Date") (rows_of_symbol out s)
    = map (fun o => VDate (date o)) (group_of s (selection top obs)) /\
    map (fun r => cell r "Close") (rows_of_symbol out s)
    = map (fun o => VNum (close o)) (group_of s (selection top obs)) /\
    map (fun r => num (cell r "Daily Return")) (rows_of_symbol out s)
    = pct_change (map close (group_of s (selection top obs))) /\
    map (fun r => num (cell r "Cumulative Return")) (rows_of_symbol out s)
    = growth (pct_change (map close (group_of s (selection top obs)))).
Proof.
  intros Hs.
  destruct (cumulative_returns_typed obs top) as [daily [cum [Ho [Hdl [Hcl Hg]]]]].
  set (l := selection top obs) in *.
  set (k := [VStr s]).
  set (rows0 := map row_of l) in *.
  set (rows1 := set_cells "Daily Return" (map VNum daily) rows0).
  assert (Hother : forall c b, c = "Daily Return" \/ c = "Cumulative Return" ->
                               In b ["Symbol"] -> String.eqb b c = false).
  { intros c b [->| ->] [<-|[]]; reflexivity. }
  assert (Hk : In k (group_keys ["Symbol"] rows0)).
  { apply group_keys_in. split; [|reflexivity].
    apply in_map_iff in Hs. destruct Hs as [o [Hos Ho']].
    apply in_map_iff. exists (row_of o). split.
    - unfold k. now rewrite <- Hos.
    - now apply in_map. }
  destruct (Hg k Hk) as [Hgd0 Hgc].
  assert (Hgd : gather k (map (fun r => map (cell r) ["Symbol"]) rows0) daily
                = pct_change (map close (group_of s l))).
  { rewrite Hgd0. unfold k, rows0. rewrite (symbol_rows_typed l s).
    now rewrite map_map. }
  eexists. split; [exact Ho|]. split; [reflexivity|].
  unfold rows_of_symbol, setitem. cbn [rows table_of]. fold rows0. fold rows1.
  assert (Hf : forall rs,
             filter (fun r => value_eqb (cell r "Symbol") (VStr s)) rs
             = filter (fun r => key_eqb (map (cell r) ["Symbol"]) k) rs).
  { intros rs. apply filter_ext. intros r. unfold k. cbn [map key_eqb].
    now rewrite andb_true_r. }
  rewrite Hf.
  assert (Hlen1 : List.length cum = List.length rows1).
  { unfold rows1. rewrite set_cells_length. unfold rows0.
    now rewrite length_map. }
  assert (Hlen0 : List.length daily = List.length rows0).
  { unfold rows0. now rewrite length_map. }
  assert (Hkeys1 : map (fun r => map (cell r) ["Symbol"]) rows1
                   = map (fun r => map (cell r) ["Symbol"]) rows0).
  { apply (keys_set_cells "Daily Return" ["Symbol"]).
    intros b Hb. apply (Hother "Daily Return"); auto. }
  split; [|split; [|split]].
  - rewrite (other_column_set_cells "Cumulative Return" ["Symbol"])
      by (try reflexivity; intros b Hb; apply (Hother "Cumulative Return"); auto).
    unfold rows1.
    rewrite (other_column_set_cells "Daily Return" ["Symbol"])
      by (try reflexivity; intros b Hb; apply (Hother "Daily Return"); auto).
    unfold rows0, k. rewrite (symbol_rows_typed l s), map_map. reflexivity.
  - rewrite (other_column_set_cells "Cumulative Return" ["Symbol"])
      by (try reflexivity; intros b Hb; apply (Hother "Cumulative Return"); auto).
    unfold rows1.
    rewrite (other_column_set_cells "Daily Return" ["Symbol"])
      by (try reflexivity; intros b Hb; apply (Hother "Daily Return"); auto).
    unfold rows0, k. rewrite (symbol_rows_typed l s), map_map. reflexivity.
  - rewrite <- (map_map (fun r => cell r "Daily Return") num).
    rewrite (other_column_set_cells "Cumulative Return" ["Symbol"])
      by (try reflexivity; intros b Hb; apply (Hother "Cumulative Return"); auto).
    rewrite map_map. unfold rows1.
    rewrite (gather_set_cells "Daily Return" ["Symbol"])
      by (try assumption; intros b Hb; apply (Hother "Daily Return"); auto).
    exact Hgd.
  - rewrite (gather_set_cells "Cumulative Return" ["Symbol"])
      by (try assumption; intros b Hb; apply (Hother "Cumulative Return"); auto).
    rewrite Hkeys1. rewrite Hgc. now rewrite Hgd.
Qed.

(** The two new columns leave the symbols of the selection as they are. *)
Lemma cumulative_returns_symbols (obs : list Observation) (top : list value) :
  exists out,
    calculate_cumulative_returns (table_of obs) top = Ok out /\
    map (fun r => cell r "Symbol") (rows out)
    = map (fun o => VStr (symbol o)) (selection top obs).
Proof.
  destruct (cumulative_returns_typed obs top) as [daily [cum [Ho _]]].
  eexists. split; [exact Ho|].
  unfold setitem. cbn [rows table_of].
  set (rs := set_cells "Cumulative Return" _ _).
  transitivity (map (hd (VStr "")) (map (fun r => map (cell r) ["Symbol"]) rs)).
  { rewrite map_map. reflexivity. }
  unfold rs.
  rewrite (keys_set_cells "Cumulative Return" ["Symbol"])
    by (intros b [<-|[]]; reflexivity).
  rewrite (keys_set_cells "Daily Return" ["Symbol"])
    by (intros b [<-|[]]; reflexivity).
  rewrite !map_map. reflexivity.
Qed.

Lemma filter_length_map {A B C : Type} (p : C -> bool) (f : A -> C)
  (g : B -> C) (xs : list A) (ys : list B) :
  map f xs = map g ys ->
  List.length (filter (fun x => p (f x)) xs)
  = List.length (filter (fun y => p (g y)) ys).
Proof.
  revert ys. induction xs as [|x xs IH]; intros [|y ys] H; try discriminate.
  - reflexivity.
  - cbn [map] in H. injection H as Hxy Hrest. cbn [filter]. rewrite Hxy.
    destruct (p (g y)); cbn [List.length]; now rewrite (IH ys Hrest).
Qed.

Lemma selection_in (top : list value) (obs : list Observation)
  (o : Observation) :
  In o (selection top obs) <-> In o obs /\ In (VStr (symbol o)) top.
Proof.
  unfold selection. rewrite sort_on_in, filter_In, existsb_exists.
  split; intros [Ho H]; (split; [assumption|]).
  - destruct H as [v [Hv E]]. apply value_eqb_eq in E. now rewrite E.
  - exists (VStr (symbol o)). split; [assumption|]. now apply value_eqb_eq.
Qed.

Lemma selection_group_perm (top : list value) (obs : list Observation)
  (s : string) :
  In (VStr s) top ->
  Permutation (group_of s (selection top obs)) (group_of s obs).
Proof.
  intros Hs. unfold selection, group_of.
  rewrite (filter_perm _ _ _ (sort_on_perm key_leb symbol_date_key _)).
  rewrite filter_implied; [reflexivity|].
  intros o Ho. apply String.eqb_eq in Ho. apply existsb_exists.
  exists (VStr s). split; [assumption|]. apply value_eqb_eq. now rewrite Ho.
Qed.

(** * Loading *)

Lemma substring_app_suffix (a t : string) :
  substring (String.length a) (String.length t) (a ++ t)%string = t.
Proof.
  induction a as [|c a IH]; cbn [String.length String.append substring].
  - induction t as [|c t IH]; cbn [String.length substring]; [reflexivity|].
    now rewrite IH.
  - exact IH.
Qed.

Lemma string_length_app (a t : string) :
  String.length (a ++ t)%string = (String.length a + String.length t)%nat.
Proof. induction a as [|c a IH]; simpl; [reflexivity|]. now rewrite IH. Qed.

(** A name made by appending a suffix ends with it. *)
Lemma endswith_app (a t : string) : endswith (a ++ t)%string t = true.
Proof.
  unfold endswith. rewrite string_length_app.
  replace (String.length a + String.length t - String.length t)%nat
    with (String.length a) by lia.
  rewrite substring_app_suffix, String.eqb_refl, andb_true_r.
  apply Nat.leb_le. lia.
Qed.

(** Text without a dot holds no ".csv" and passes through unchanged. *)
Lemma replace_from_no_dot (a t : string) :
  no_dot a = true ->
  replace_from ".csv" "" 0 (a ++ t)%string
  = (a ++ replace_from ".csv" "" 0 t)%string.
Proof.
  induction a as [|c a IH]; intros H; [reflexivity|].
  cbn [no_dot] in H. apply andb_true_iff in H. destruct H as [Hc Ha].
  apply negb_true_iff in Hc.
  cbn [String.append replace_from prefix].
  destruct (ascii_dec "." c) as [E|_].
  - subst c. discriminate.
  - cbn [String.append]. now rewrite IH.
Qed.

Lemma replace_from_csv (t : string) :
  replace_from ".csv" "" 0 (".csv" ++ t)%string = replace_from ".csv" "" 0 t.
Proof.
  assert (H : prefix ".csv" (".csv" ++ t) = true) by (destruct t; reflexivity).
  cbn [String.append replace_from] in *. now rewrite H.
Qed.

Lemma string_app_assoc (a b c : string) :
  ((a ++ b) ++ c = a ++ (b ++ c))%string.
Proof. induction a as [|x a IH]; simpl; [reflexivity|]. now rewrite IH. Qed.

Lemma string_app_nil (a : string) : (a ++ "")%string = a.
Proof. induction a as [|x a IH]; simpl; [reflexivity|]. now rewrite IH. Qed.

Lemma replace_stem (a : string) :
  no_dot a = true -> replace (a ++ ".csv") ".csv" "" = a.
Proof.
  intros H. unfold replace. rewrite (replace_from_no_dot a ".csv" H).
  change (replace_from ".csv" "" 0 ".csv") with "". apply string_app_nil.
Qed.

Lemma replace_two_stems (a b : string) :
  no_dot a = true -> no_dot b = true ->
  replace (a ++ ".csv" ++ b ++ ".csv") ".csv" "" = (a ++ b)%string.
Proof.
  intros Ha Hb. unfold replace.
  rewrite (replace_from_no_dot a _ Ha), replace_from_csv.
  rewrite (replace_from_no_dot b _ Hb).
  change (replace_from ".csv" "" 0 ".csv") with "".
  now rewrite string_app_nil.
Qed.

Lemma add_new_in (cs ks : list string) (c : string) :
  In c (add_new cs ks) <-> In c cs \/ In c ks.
Proof.
  revert cs. induction ks as [|k ks IH]; intros cs; cbn [add_new].
  - simpl. tauto.
  - rewrite IH. destruct (existsb (String.eqb k) cs) eqn:E.
    + apply existsb_exists in E. destruct E as [x [Hx E]].
      apply String.eqb_eq in E. subst x. simpl. intuition (subst; auto).
    + rewrite in_app_iff. simpl. tauto.
Qed.

Lemma fold_add_new_in (dfs : list DataFrame) (cs : list string) (c : string) :
  In c (fold_left (fun cs df => add_new cs (columns df)) dfs cs)
  <-> In c cs \/ exists df, In df dfs /\ In c (columns df).
Proof.
  revert cs. induction dfs as [|df dfs IH]; intros cs; cbn [fold_left].
  - split; [tauto|]. intros [H|[df [[] _]]]. exact H.
  - rewrite IH, add_new_in. split.
    + intros [[H|H]|[df' [H1 H2]]]; [now left| |].
      * right. exists df. split; [now left|assumption].
      * right. exists df'. split; [now right|assumption].
    + intros [H|[df' [[->|H1] H2]]].
      * left. now left.
      * left. now right.
      * right. now exists df'.
Qed.

Lemma assoc_normalise (r : row) (cols : list string) (c : string) :
  In c cols ->
  assoc c (map (fun c => (c, cell r c)) cols) = Some (cell r c).
Proof.
  induction cols as [|k cols IH]; intros H; [destruct H|].
  cbn [map assoc]. destruct (String.eqb c k) eqn:E.
  - apply String.eqb_eq in E. now subst k.
  - destruct H as [->|H]; [|now apply IH].
    now rewrite String.eqb_refl in E.
Qed.

Lemma concat_spec (dfs : list DataFrame) (out : DataFrame) :
  concat dfs = Ok out ->
  (forall df c, In df dfs -> In c (columns df) -> In c (columns out)) /\
  rows out = map (fun r => map (fun c => (c, cell r c)) (columns out))
                 (flat_map rows dfs).
Proof.
  unfold concat. destruct dfs as [|df0 dfs]; [discriminate|].
  intros H. injection H as <-. cbn [columns rows]. split; [|reflexivity].
  intros df c Hdf Hc. apply (fold_add_new_in (df0 :: dfs) [] c).
  right. now exists df.
Qed.

Lemma has_column_in (df : DataFrame) (c : string) :
  has_column df c = true <-> In c (columns df).
Proof.
  unfold has_column. rewrite existsb_exists. split.
  - intros [x [Hx E]]. apply String.eqb_eq in E. now subst x.
  - intros H. exists c. split; [assumption|apply String.eqb_refl].
Qed.

Lemma has_column_setitem (df : DataFrame) (c : string) (vs : list value) :
  has_column (setitem df c vs) c = true.
Proof.
  apply has_column_in. unfold setitem. cbn [columns].
  destruct (has_column df c) eqn:E.
  - now apply has_column_in.
  - apply in_app_iff. right. now left.
Qed.

(** A scalar assigned to a column reaches every row. *)
Lemma set_cells_scalar (c : string) (v : value) (rs : list row) (r : row) :
  In r (set_cells c (map (fun _ => v) rs) rs) -> cell r c = v.
Proof.
  induction rs as [|r0 rs IH]; cbn [map set_cells]; intros H; [destruct H|].
  destruct H as [<-|H]; [apply cell_set_cell_same | now apply IH].
Qed.

Lemma mapM_inv {A B : Type} (f : A -> result B) (l : list A) (ys : list B) :
  mapM f l = Ok ys -> Forall2 (fun x y => f x = Ok y) l ys.
Proof.
  revert ys. induction l as [|x l IH]; cbn [mapM]; intros ys H.
  - injection H as <-. constructor.
  - destruct (f x) as [y|e] eqn:E; cbn [bind] in H; [|discriminate].
    destruct (mapM f l) as [ys'|e]; cbn [bind] in H; [|discriminate].
    injection H as <-. constructor; [assumption|now apply IH].
Qed.

Lemma mapM_raise {A B : Type} (f : A -> result B) (l : list A) (x : A)
  (e : exn) :
  In x l -> f x = Raise e -> exists e', mapM f l = Raise e'.
Proof.
  induction l as [|y l IH]; intros Hx He; [destruct Hx|].
  cbn [mapM]. destruct (f y) as [z|e0] eqn:E; cbn [bind].
  - destruct Hx as [->|Hx]; [congruence|].
    destruct (IH Hx He) as [e' ->]. now exists e'.
  - now exists e0.
Qed.

Section LoaderFacts.
Variable path_exists : string -> bool.
Variable listdir : string -> result (list string).
Variable path_join : string -> string -> string.
Variable read_csv : string -> result DataFrame.
Variable to_datetime : list value -> result (list value).

Lemma load_file_spec (csv_dir file : string) (df : DataFrame) :
  load_file path_join read_csv to_datetime csv_dir file = Ok df ->
  exists raw,
    read_csv (path_join csv_dir file) = Ok raw /\
    List.length (rows df) = List.length (rows raw) /\
    has_column df "Symbol" = true /\
    forall r, In r (rows df) -> cell r "Symbol" = VStr (replace file ".csv" "").
Proof.
  unfold load_file.
  destruct (read_csv (path_join csv_dir file)) as [raw|e]; cbn [bind];
    [|discriminate].
  destruct (getitem raw "Date") as [dates|e]; cbn [bind]; [|discriminate].
  destruct (to_datetime dates) as [dates'|e]; cbn [bind]; [|discriminate].
  intros H. injection H as <-. exists raw. split; [reflexivity|].
  split; [|split].
  - unfold setitem. cbn [rows]. now rewrite !set_cells_length.
  - apply has_column_setitem.
  - intros r Hr. unfold setitem in Hr. cbn [rows] in Hr.
    now apply set_cells_scalar in Hr.
Qed.

Lemma load_files_spec (csv_dir : string) (names : list string)
  (dfs : list DataFrame) :
  mapM (load_file path_join read_csv to_datetime csv_dir) names = Ok dfs ->
  exists raws,
    mapM read_csv (map (path_join csv_dir) names) = Ok raws /\
    List.length (flat_map rows dfs) = List.length (flat_map rows raws) /\
    (forall df, In df dfs -> has_column df "Symbol" = true) /\
    forall r, In r (flat_map rows dfs) ->
      exists file, In file names /\
                   cell r "Symbol" = VStr (replace file ".csv" "").
Proof.
  revert dfs. induction names as [|f names IH]; cbn [mapM map]; intros dfs H.
  - injection H as <-. exists []. repeat split; try reflexivity.
    + intros df [].
    + intros r [].
  - destruct (load_file path_join read_csv to_datetime csv_dir f)
      as [df|e] eqn:E; cbn [bind] in H; [|discriminate].
    destruct (mapM (load_file path_join read_csv to_datetime csv_dir) names)
      as [dfs'|e]; cbn [bind] in H; [|discriminate].
    injection H as <-.
    destruct (load_file_spec csv_dir f df E) as [raw [Hraw [Hlen [Hcol Hsym]]]].
    destruct (IH dfs' eq_refl) as [raws [Hraws [Hlens [Hcols Hsyms]]]].
    exists (raw :: raws). rewrite Hraw, Hraws. cbn [bind flat_map].
    split; [reflexivity|]. split; [|split].
    + rewrite !length_app. now rewrite Hlen, Hlens.
    + intros df' [<-|H]; [assumption|now apply Hcols].
    + intros r Hr. apply in_app_iff in Hr. destruct Hr as [Hr|Hr].
      * exists f. split; [now left|now apply Hsym].
      * destruct (Hsyms r Hr) as [file [Hf Hc]]. exists file.
        split; [now right|assumption].
Qed.

Lemma load_stock_data_spec (csv_dir : string) (files : list string)
  (ld : Loaded) :
  path_exists csv_dir = true ->
  listdir csv_dir = Ok files ->
  load_stock_data path_exists listdir path_join read_csv to_datetime csv_dir
  = Ok ld ->
  error_shown ld = None /\
  (exists raws,
      mapM read_csv (map (path_join csv_dir) (csv_files files)) = Ok raws /\
      List.length (rows (table ld)) = List.length (flat_map rows raws)) /\
  forall r, In r (rows (table ld)) ->
    exists file, In file files /\ endswith file ".csv" = true /\
                 cell r "Symbol" = VStr (replace file ".csv" "").
Proof.
  intros He Hl. unfold load_stock_data. rewrite He, Hl. cbn [negb bind].
  fold (csv_files files).
  destruct (mapM (load_file path_join read_csv to_datetime csv_dir)
              (csv_files files)) as [dfs|e] eqn:E; cbn [bind]; [|discriminate].
  destruct (load_files_spec csv_dir (csv_files files) dfs E)
    as [raws [Hraws [Hlen [Hcols Hsyms]]]].
  destruct dfs as [|df0 dfs].
  - intros H. injection H as <-. cbn [table error_shown]. split; [reflexivity|].
    split.
    + exists raws. split; [assumption|]. now rewrite <- Hlen.
    + intros r [].
  - destruct (concat (df0 :: dfs)) as [out|e] eqn:Ec; cbn [bind];
      [|discriminate].
    intros H. injection H as <-. cbn [table error_shown].
    destruct (concat_spec _ _ Ec) as [Hc Hr].
    split; [reflexivity|]. split.
    + exists raws. split; [assumption|]. now rewrite Hr, length_map, Hlen.
    + intros r Hin. rewrite Hr in Hin. apply in_map_iff in Hin.
      destruct Hin as [r0 [<- Hr0]].
      destruct (Hsyms r0 Hr0) as [file [Hf Hs]].
      apply filter_In in Hf. destruct Hf as [Hf Hcsv].
      exists file. split; [assumption|]. split; [assumption|].
      rewrite <- Hs. unfold cell at 1. rewrite assoc_normalise; [reflexivity|].
      apply in_flat_map in Hr0. destruct Hr0 as [df [Hdf _]].
      apply (Hc df); [assumption|]. apply has_column_in. now apply Hcols.
Qed.

Lemma load_stock_data_raises (csv_dir file : string) (files : list string)
  (e : exn) :
  path_exists csv_dir = true ->
  listdir csv_dir = Ok files ->
  In file files -> endswith file ".csv" = true ->
  load_file path_join read_csv to_datetime csv_dir file = Raise e ->
  exists e',
    load_stock_data path_exists listdir path_join read_csv to_datetime csv_dir
    = Raise e'.
Proof.
  intros He Hl Hin Hcsv Hf. unfold load_stock_data.
  rewrite He, Hl. cbn [negb bind].
  destruct (mapM_raise (load_file path_join read_csv to_datetime csv_dir)
              (filter (fun f => endswith f ".csv") files) file e) as [e' ->].
  - apply filter_In. now split.
  - assumption.
  - now exists e'.
Qed.

End LoaderFacts.

Lemma no_dot_app (a b : string) :
  no_dot a = true -> no_dot b = true -> no_dot (a ++ b) = true.
Proof.
  intros Ha Hb. induction a as [|c a IH]; [exact Hb|].
  cbn [no_dot String.append] in *. apply andb_true_iff in Ha.
  destruct Ha as [Hc Ha]. now rewrite Hc, IH.
Qed.

Lemma load_file_undated (path_join : string -> string -> string)
  (read_csv : string -> result DataFrame)
  (to_datetime : list value -> result (list value))
  (csv_dir file : string) (raw : DataFrame) :
  read_csv (path_join csv_dir file) = Ok raw ->
  has_column raw "Date" = false ->
  load_file path_join read_csv to_datetime csv_dir file
  = Raise (KeyError "Date").
Proof.
  intros Hr Hc. unfold load_file. rewrite Hr. cbn [bind].
  unfold getitem. now rewrite Hc.
Qed.

(** * The monthly tables *)

Lemma monthly_performance_frame (obs : list Observation) :
  obs <> [] ->
  exists keys,
    NoDup keys /\ (forall k, In k keys <-> In k (map month_key obs)) /\
    fst (calculate_monthly_performance (table_of obs))
    = Ok {| columns := monthly_columns;
            rows := map (fun k => monthly_record (fst k) (snd k)
                                    (month_group_of (fst k) (snd k) obs))
                        keys |}.
Proof.
  intros Hobs.
  destruct (month_groups obs) as [keys [Hnd [Hin Hg]]].
  exists keys. split; [assumption|]. split; [assumption|].
  unfold calculate_monthly_performance.
  rewrite month_series_typed, setitem_month. cbn [fst]. rewrite Hg.
  cbn [bind].
  rewrite (mapM_ok _ (fun g => match fst g with
                               | [VStr m; VStr s] =>
                                   monthly_record m s (month_group_of m s obs)
                               | _ => []
                               end)).
  2:{ intros g Hgin. apply in_map_iff in Hgin.
      destruct Hgin as [[m s] [<- Hk]]. cbn [fst snd].
      apply monthly_row_typed. intros E.
      apply Hin in Hk. apply in_map_iff in Hk. destruct Hk as [o [Ho Hoin]].
      assert (Hm : In o (month_group_of m s obs))
        by (apply month_group_of_in; tauto).
      rewrite E in Hm. contradiction. }
  cbn [bind]. rewrite map_map. cbn [fst snd]. f_equal.
  destruct keys as [|k keys].
  - destruct obs as [|o obs]; [congruence|].
    exfalso. apply (proj2 (Hin (month_key o))). now left.
  - rewrite (DataFrame_of_uniform_records
               (fun k => monthly_record (fst k) (snd k)
                           (month_group_of (fst k) (snd k) obs))
               monthly_columns); auto.
Qed.

Lemma filter_combine_map {A B : Type} (f : A -> B) (q : B -> bool)
  (l : list A) :
  map snd (filter (fun p => q (fst p)) (combine (map f l) l))
  = filter (fun x => q (f x)) l.
Proof.
  induction l as [|x l IH]; [reflexivity|].
  cbn [map combine filter fst]. destruct (q (f x)); cbn [map snd];
    now rewrite IH.
Qed.

Lemma cell_eq_eq (a b : value) : cell_eq a b = true -> a = b.
Proof.
  unfold cell_eq. intros H. apply andb_true_iff in H.
  now apply value_eqb_eq.
Qed.

(** The rows of a frame of monthly records that [month_data] keeps. *)
Lemma month_data_typed (rs : list row) (v : value) :
  (forall r, In r rs -> assoc "Month" r <> None) ->
  month_data {| columns := monthly_columns; rows := rs |} v
  = Ok {| columns := monthly_columns;
          rows := filter (fun r => cell_eq (cell r "Month") v) rs |}.
Proof.
  intros H. unfold month_data.
  rewrite (getitem_cells {| columns := monthly_columns; rows := rs |} "Month")
    by (try reflexivity; exact H).
  cbn [bind columns rows]. f_equal. f_equal.
  apply (filter_combine_map (fun r => cell r "Month")
           (fun a => cell_eq a v) rs).
Qed.

Lemma sort_by_return (rs : list row) (asc : bool) :
  sort_values {| columns := monthly_columns; rows := rs |} ["Return"] asc
  = Ok {| columns := monthly_columns;
          rows := nargsort asc (fun r => cell r "Return") rs |}.
Proof. reflexivity. Qed.

Lemma Sorted_app_l {A : Type} (R : A -> A -> Prop) (l1 l2 : list A) :
  Sorted R (l1 ++ l2) -> Sorted R l1.
Proof.
  induction l1 as [|x l1 IH]; intros H; [constructor|].
  cbn [app] in H. inversion H as [|? ? Hs Hhd]; subst. constructor.
  - now apply IH.
  - destruct l1 as [|y l1]; constructor. now inversion Hhd.
Qed.

(** The values of a prefix that pass a test are a prefix of the values of
    the whole list that pass it. *)
Lemma Sorted_filter_map_firstn {A B : Type} (R : B -> B -> Prop)
  (p : B -> bool) (f : A -> B) (n : nat) (l : list A) :
  Sorted R (filter p (map f l)) -> Sorted R (filter p (map f (firstn n l))).
Proof.
  intros H. rewrite <- (firstn_skipn n l) in H.
  rewrite map_app, filter_app in H. now apply Sorted_app_l in H.
Qed.

Lemma nargsort_ascending (key : row -> value) (rs : list row) :
  (forall r, In r rs -> exists x, key r = VNum x) ->
  ascending (filter notnan (map (fun r => num (key r)) (nargsort true key rs))).
Proof.
  intros Hnum. unfold nargsort, ascending.
  set (N := filter (fun r => negb (isna (key r))) rs).
  set (M := filter (fun r => isna (key r)) rs).
  set (S := sort_on value_leb key N).
  assert (HN : forall r, In r N -> exists x, key r = VNum x /\ isnan x = false).
  { intros r Hr. apply filter_In in Hr. destruct Hr as [Hr Hna].
    destruct (Hnum r Hr) as [x Hx]. exists x. split; [assumption|].
    rewrite Hx in Hna. simpl in Hna. now apply negb_true_iff in Hna. }
  assert (HS : forall r, In r S -> exists x, key r = VNum x /\ isnan x = false).
  { intros r Hr. apply HN.
    exact (proj1 (sort_on_in value_leb key N r) Hr). }
  rewrite map_app, filter_app.
  rewrite (filter_none notnan (map _ M)).
  2:{ intros x Hx. apply in_map_iff in Hx. destruct Hx as [r [<- Hr]].
      apply filter_In in Hr. destruct Hr as [Hr Hna].
      destruct (Hnum r Hr) as [y Hy]. rewrite Hy in *. simpl in *.
      unfold notnan. now rewrite Hna. }
  rewrite app_nil_r, filter_all.
  2:{ intros x Hx. apply in_map_iff in Hx. destruct Hx as [r [<- Hr]].
      destruct (HS r Hr) as [y [Hy Hn]].
      rewrite Hy. simpl. unfold notnan. now rewrite Hn. }
  apply (Sorted_map_in (fun a b => value_leb (key a) (key b) = true)).
  - intros a b Ha Hb.
    destruct (HS a Ha) as [x [Hx _]], (HS b Hb) as [y [Hy _]].
    rewrite Hx, Hy. simpl. tauto.
  - apply (sort_on_sorted value_leb key
             (fun v => exists x, v = VNum x /\ isnan x = false)).
    + intros a b [x [-> Hx]] [y [-> Hy]]. simpl.
      now apply FloatFacts.leb_total.
    + apply Forall_forall. intros r Hr. now apply HN.
Qed.

(** In either order the rows without a number come after all others. *)
Lemma nargsort_nan_after (asc : bool) (key : row -> value) (rs : list row) :
  exists defined undefined,
    nargsort asc key rs = defined ++ undefined /\
    Forall (fun r => isna (key r) = false) defined /\
    Forall (fun r => isna (key r) = true) undefined.
Proof.
  unfold nargsort. eexists. eexists. split; [reflexivity|]. split.
  - apply Forall_forall. intros r Hr.
    assert (H : In r (filter (fun r => negb (isna (key r))) rs)).
    { destruct asc.
      - exact (proj1 (sort_on_in value_leb key _ r) Hr).
      - apply in_rev in Hr.
        apply (proj1 (sort_on_in value_leb key _ r)) in Hr.
        now apply in_rev in Hr. }
    apply filter_In in H. now apply negb_true_iff.
  - apply Forall_forall. intros r Hr. now apply filter_In in Hr.
Qed.

Lemma unique_in (vs : list value) (v : value) : In v (unique vs) <-> In v vs.
Proof.
  induction vs as [|w vs IH]; cbn [unique]; [tauto|].
  cbn [In]. rewrite filter_In, IH. split.
  - intros [H|[H _]]; auto.
  - intros [H|H]; [now left|].
    destruct (value_eqb w v) eqn:E.
    + left. now apply value_eqb_eq.
    + right. split; [assumption|]. cbv beta. now rewrite ?E.
Qed.

Lemma unique_nodup (vs : list value) : NoDup (unique vs).
Proof.
  induction vs as [|w vs IH]; cbn [unique]; constructor.
  - rewrite filter_In. intros [_ H]. cbv beta in H.
    rewrite (proj2 (value_eqb_eq w w) eq_refl) in H. discriminate.
  - now apply NoDup_filter.
Qed.

Lemma string_leb_total (a b : string) :
  String.leb a b = false -> String.leb b a = true.
Proof.
  unfold String.leb. rewrite (String.compare_antisym a b).
  destruct (String.compare b a); simpl; congruence.
Qed.

Lemma sorted_reverse_perm (vs : list value) : Permutation (sorted_reverse vs) vs.
Proof.
  unfold sorted_reverse.
  rewrite <- Permutation_rev, sort_on_perm. symmetry. apply Permutation_rev.
Qed.

(** Strings come out of [sorted_reverse] largest first. *)
Lemma sorted_reverse_sorted (vs : list value) :
  (forall v, In v vs -> exists s, v = VStr s) ->
  Sorted (fun a b => value_leb b a = true) (sorted_reverse vs).
Proof.
  intros H. unfold sorted_reverse.
  apply (Sorted_reverse (fun a b => value_leb a b = true)).
  apply (sort_on_sorted value_leb (fun v => v) (fun v => exists s, v = VStr s)).
  - intros a b [s ->] [t ->]. cbn [value_leb]. apply string_leb_total.
  - apply Forall_forall. intros v Hv. apply H. now apply in_rev.
Qed.

Lemma in_firstn {A : Type} (n : nat) (l : list A) (x : A) :
  In x (firstn n l) -> In x l.
Proof.
  intros H. rewrite <- (firstn_skipn n l). apply in_app_iff. now left.
Qed.

(** * The page on a clean table *)

Lemma mapM_exists {A B : Type} (f : A -> result B) (l : list A) :
  (forall x, In x l -> exists y, f x = Ok y) -> exists ys, mapM f l = Ok ys.
Proof.
  induction l as [|x l IH]; intros H; [now exists []|].
  destruct (H x (or_introl eq_refl)) as [y Hy].
  destruct IH as [ys Hys]; [intros z Hz; apply H; now right|].
  exists (y :: ys). cbn [mapM]. now rewrite Hy, Hys.
Qed.

Lemma has_dup_nodup (l : list (list value)) : NoDup l -> has_dup l = false.
Proof.
  induction 1 as [|k l Hk Hl IH]; [reflexivity|].
  cbn [has_dup]. rewrite IH, orb_false_r.
  destruct (existsb (key_eqb k) l) eqn:E; [|reflexivity].
  apply existsb_exists in E. destruct E as [k' [Hin E]].
  apply key_eqb_eq in E. subst k'. contradiction.
Qed.

Lemma assoc_cells (names : list string) (g : string -> value) (s : string) :
  assoc s (map (fun c => (c, g c)) names)
  = if existsb (String.eqb s) names then Some (g s) else None.
Proof.
  induction names as [|k names IH]; [reflexivity|].
  cbn [map assoc existsb]. destruct (String.eqb s k) eqn:E.
  - apply String.eqb_eq in E. now subst k.
  - exact IH.
Qed.

(** The closes pivoted by date and symbol: one column per symbol, numbers
    in every cell. *)
Lemma pivot_typed (obs : list Observation) :
  NoDup (map (fun o => (date o, symbol o)) obs) ->
  exists keys pv,
    (forall s, In s keys <-> In s (map symbol obs)) /\
    pivot (table_of obs) "Date" "Symbol" "Close" = Ok pv /\
    columns pv = keys /\
    forall r s, In r (rows pv) -> exists x, cell r s = VNum x.
Proof.
  intros Hnd.
  destruct (group_keys_typed row_of ["Symbol"] (fun s => [VStr s]) symbol obs)
    as [keys [Hk [_ Hin]]]; try reflexivity.
  { intros k k' E. congruence. }
  exists keys. eexists. split; [exact Hin|].
  unfold pivot.
  replace (check_columns (table_of obs) ["Date"; "Symbol"; "Close"])
    with (Ok tt) by reflexivity.
  cbn [bind]. unfold table_of. cbn [rows].
  rewrite has_dup_nodup.
  2:{ rewrite map_map.
      change (fun o => [cell (row_of o) "Date"; cell (row_of o) "Symbol"])
        with (fun o => [VDate (date o); VStr (symbol o)]).
      rewrite <- (map_map (fun o => (date o, symbol o))
                    (fun p => [VDate (fst p); VStr (snd p)])).
      apply Finite.Injective_map_NoDup; [|assumption].
      intros [d s] [d' s'] E. cbn [fst snd] in E. congruence. }
  rewrite Hk.
  rewrite (mapM_ok _ (fun k => match k with [VStr s] => s | _ => "" end)).
  2:{ intros k Hkin. apply in_map_iff in Hkin. now destruct Hkin as [s [<- _]]. }
  cbn [bind]. rewrite map_map. cbn [map]. rewrite map_id.
  split; [reflexivity|]. split; [reflexivity|].
  cbn [rows]. intros r s Hr. apply in_map_iff in Hr. destruct Hr as [ik [<- _]].
  unfold cell. rewrite assoc_cells. destruct (existsb (String.eqb s) keys).
  - destruct (find _ (map row_of obs)) as [r0|] eqn:E; [|now eexists].
    apply find_some in E. destruct E as [E _]. apply in_map_iff in E.
    destruct E as [o [<- _]]. now eexists.
  - now eexists.
Qed.

Lemma correlation_typed (obs : list Observation) (top : list value) :
  NoDup (map (fun o => (date o, symbol o)) obs) ->
  (forall v, In v top -> exists s, v = VStr s /\ In s (map symbol obs)) ->
  exists m, correlation (table_of obs) top = Ok m /\
            List.length m = List.length top.
Proof.
  intros Hnd Htop.
  destruct (pivot_typed obs Hnd) as [keys [pv [Hin [Hpv [Hcols Hnum]]]]].
  unfold correlation. rewrite Hpv. cbn [bind]. unfold select.
  destruct (mapM_exists
              (fun l => match l with
                        | VStr s => if has_column pv s then Ok s
                                    else Raise (KeyError s)
                        | _ => Raise TypeError
                        end) top) as [names Hnames].
  { intros v Hv. destruct (Htop v Hv) as [s [-> Hs]]. exists s.
    rewrite (proj2 (has_column_in pv s)); [reflexivity|].
    rewrite Hcols. now apply Hin. }
  rewrite Hnames. cbn [bind]. unfold corr. cbn [columns].
  destruct (mapM_exists
              (getitem_num
                 {| columns := names;
                    rows := map (fun r => map (fun s => (s, cell r s)) names)
                                (rows pv) |}) names) as [cols Hc].
  { intros s Hs. eexists. apply getitem_num_cells.
    - apply has_column_in. exact Hs.
    - cbn [rows]. intros r Hr. apply in_map_iff in Hr.
      destruct Hr as [r0 [<- Hr0]]. destruct (Hnum r0 s Hr0) as [x Hx].
      exists x. rewrite assoc_cells.
      rewrite (proj2 (existsb_exists _ _)); [now rewrite Hx|].
      exists s. split; [assumption|apply String.eqb_refl]. }
  rewrite Hc. cbn [bind]. eexists. split; [reflexivity|].
  destruct (nancorr_square cols (np_empty (List.length cols))
              (np_empty_square (List.length cols))) as [Hlen _].
  rewrite Hlen. rewrite (mapM_length _ _ _ Hc).
  now rewrite (mapM_length _ _ _ Hnames).
Qed.

(** The symbols at the head of the metrics ranking are symbols of the
    table. *)
Lemma head_symbols (obs : list Observation) (keys : list string) (n : nat) :
  (forall s, In s keys <-> In s (map symbol obs)) ->
  let metrics :=
    {| columns := metrics_columns;
       rows := nargsort false (fun r => cell r "Return (%)")
                 (map (fun s => metrics_record s (group_of s obs)) keys) |} in
  getitem (head n metrics) "Symbol"
  = Ok (map (fun r => cell r "Symbol") (rows (head n metrics))) /\
  forall v, In v (map (fun r => cell r "Symbol") (rows (head n metrics))) ->
    exists s, v = VStr s /\ In s (map symbol obs).
Proof.
  intros Hin metrics.
  assert (Hrec : forall r, In r (rows (head n metrics)) ->
                   exists s, In s keys /\ r = metrics_record s (group_of s obs)).
  { intros r Hr. unfold head, metrics in Hr. cbn [rows] in Hr.
    apply in_firstn in Hr.
    apply (Permutation_in _ (nargsort_perm false _ _)) in Hr.
    apply in_map_iff in Hr. destruct Hr as [s [<- Hs]]. now exists s. }
  split.
  - apply getitem_cells; [reflexivity|].
    intros r Hr. destruct (Hrec r Hr) as [s [_ ->]]. discriminate.
  - intros v Hv. apply in_map_iff in Hv. destruct Hv as [r [<- Hr]].
    destruct (Hrec r Hr) as [s [Hs ->]]. exists s.
    split; [reflexivity|]. now apply Hin.
Qed.

(** * The range of a correlation *)

Lemma not_ltb_leb (a b : float) :
  isnan a = false -> isnan b = false ->
  PrimFloat.ltb a b = false -> PrimFloat.leb b a = true.
Proof.
  intros Ha Hb. apply FloatFacts.isnan_false in Ha, Hb.
  rewrite ltb_spec, leb_spec. unfold SFltb, SFleb.
  rewrite (FloatFacts.SFcompare_antisym (Prim2SF a) (Prim2SF b)).
  destruct (SFcompare (Prim2SF a) (Prim2SF b)) as [[]|] eqn:E; simpl;
    try congruence.
  destruct (Prim2SF a), (Prim2SF b); simpl in E; congruence.
Qed.

(** A correlation is NaN or lies between -1 and 1. *)
Lemma corr_pair_range (xs ys : list float) :
  isnan (corr_pair xs ys) = true \/
  (PrimFloat.leb (-1) (corr_pair xs ys) = true /\
   PrimFloat.leb (corr_pair xs ys) 1 = true).
Proof.
  unfold corr_pair.
  set (w := fold_left welford_step (combine xs ys) welford0).
  destruct (nobs w <? 1)%nat; [now left|].
  destruct (negb (PrimFloat.eqb (PrimFloat.sqrt (ssqdmx w * ssqdmy w)) 0));
    [|now left].
  set (val := (covxy w / PrimFloat.sqrt (ssqdmx w * ssqdmy w))%float).
  destruct (PrimFloat.ltb 1 val) eqn:E1; [right; split; reflexivity|].
  destruct (PrimFloat.ltb val (-1)) eqn:E2; [right; split; reflexivity|].
  destruct (isnan val) eqn:En; [now left|]. right. split.
  - now apply not_ltb_leb.
  - now apply not_ltb_leb.
Qed.

Lemma mat_get_outside (k : nat) (m : matrix) (i j : nat) :
  square k m -> k <= i \/ k <= j -> mat_get m i j = nan.
Proof.
  intros [Hl Hr] Hij. unfold mat_get.
  destruct (Nat.lt_ge_cases i k) as [Hi|Hi].
  - apply nth_overflow. rewrite Hr by assumption. lia.
  - rewrite (nth_overflow m) by lia. now destruct j.
Qed.

Lemma nancorr_range (cols : list (list float)) (i j : nat) :
  let v := mat_get (nancorr cols (np_empty (List.length cols))) i j in
  isnan v = true \/
  (PrimFloat.leb (-1) v = true /\ PrimFloat.leb v 1 = true).
Proof.
  cbv zeta.
  pose proof (np_empty_square (List.length cols)) as Hsq.
  destruct (Nat.lt_ge_cases i (List.length cols)) as [Hi|Hi];
    [destruct (Nat.lt_ge_cases j (List.length cols)) as [Hj|Hj]|].
  - rewrite nancorr_cell by assumption. apply corr_pair_range.
  - left. rewrite (mat_get_outside (List.length cols)); auto.
    now apply nancorr_square.
  - left. rewrite (mat_get_outside (List.length cols)); auto.
    now apply nancorr_square.
Qed.

(** * The summation is independent of its fuel *)

Lemma pairwise_sum_fuel (fuel : nat) :
  forall (fuel' : nat) (a : list float),
    List.length a <= fuel -> List.length a <= fuel' ->
    pairwise_sum fuel a = pairwise_sum fuel' a.
Proof.
  induction fuel as [|fuel IH]; intros fuel' a H H'.
  - destruct a as [|x a]; [|simpl in H; lia]. now destruct fuel'.
  - destruct fuel' as [|fuel'].
    + destruct a as [|x a]; [reflexivity | simpl in H'; lia].
    + cbn [pairwise_sum].
      destruct (List.length a <? 8)%nat eqn:E8; [reflexivity|].
      destruct (List.length a <=? PW_BLOCKSIZE)%nat eqn:E; [reflexivity|].
      apply Nat.ltb_ge in E8. apply Nat.leb_gt in E.
      unfold PW_BLOCKSIZE in E.
      set (n := List.length a) in *.
      pose proof (Nat.div_mod_eq n 2) as Hd.
      pose proof (Nat.mod_upper_bound n 2 ltac:(lia)) as Hm.
      pose proof (Nat.mod_upper_bound (n / 2) 8 ltac:(lia)) as Hm8.
      pose proof (Nat.Div0.mod_le (n / 2) 8) as Hle.
      f_equal; apply IH; rewrite ?length_firstn, ?length_skipn; fold n; lia.
Qed.

(** * Infinite returns in a ranking *)

Lemma leb_infinity_l (x : float) :
  PrimFloat.leb infinity x = true -> x = infinity.
Proof.
  rewrite leb_spec. intros H. apply Prim2SF_inj.
  change (Prim2SF infinity) with (S754_infinity false) in *.
  destruct (Prim2SF x) as [s|s| |s m e]; try destruct s; try discriminate.
  reflexivity.
Qed.

Lemma leb_neg_infinity_r (x : float) :
  PrimFloat.leb x neg_infinity = true -> x = neg_infinity.
Proof.
  rewrite leb_spec. intros H. apply Prim2SF_inj.
  change (Prim2SF neg_infinity) with (S754_infinity true) in *.
  destruct (Prim2SF x) as [s|s| |s m e]; try destruct s; try discriminate.
  reflexivity.
Qed.

Section RankPositions.
Variable key : row -> value.

Lemma Sorted_app_r (l1 l2 : list row) :
  Sorted (fun a b => value_leb (key b) (key a) = true) (l1 ++ l2) ->
  Sorted (fun a b => value_leb (key b) (key a) = true) l2.
Proof.
  induction l1 as [|x l1 IH]; intros H; [exact H|].
  cbn [app] in H. inversion H; subst. now apply IH.
Qed.

(** In a list sorted largest first, only [+infinity] comes before
    [+infinity]. *)
Lemma before_infinity (pre post : list row) (r : row) :
  Sorted (fun a b => value_leb (key b) (key a) = true) (pre ++ r :: post) ->
  (forall r', In r' pre -> exists x, key r' = VNum x) ->
  key r = VNum infinity ->
  Forall (fun r' => key r' = VNum infinity) pre.
Proof.
  induction pre as [|a pre IH]; intros Hs Hnum Hr; [constructor|].
  cbn [app] in Hs. inversion Hs as [|? ? Hs' Hhd]; subst.
  assert (Hpre : Forall (fun r' => key r' = VNum infinity) pre).
  { apply IH; [assumption| |assumption]. intros r' Hr'. apply Hnum. now right. }
  constructor; [|assumption].
  destruct (Hnum a (or_introl eq_refl)) as [x Hx].
  assert (Hnext : value_leb (VNum infinity) (key a) = true).
  { destruct pre as [|b pre].
    - cbn [app] in Hhd. inversion Hhd; subst. cbv beta in *.
      now rewrite <- Hr.
    - cbn [app] in Hhd. inversion Hhd; subst. cbv beta in *.
      inversion Hpre as [|? ? Hb _]; subst. now rewrite <- Hb. }
  rewrite Hx in *. cbn [value_leb] in Hnext.
  now rewrite (leb_infinity_l x Hnext).
Qed.

(** And only [-infinity] comes after [-infinity]. *)
Lemma after_neg_infinity (post : list row) :
  forall r : row,
    Sorted (fun a b => value_leb (key b) (key a) = true) (r :: post) ->
    (forall r', In r' post -> exists x, key r' = VNum x) ->
    key r = VNum neg_infinity ->
    Forall (fun r' => key r' = VNum neg_infinity) post.
Proof.
  induction post as [|a post IH]; intros r Hs Hnum Hr; [constructor|].
  inversion Hs as [|? ? Hs' Hhd]; subst. inversion Hhd; subst.
  cbv beta in *.
  destruct (Hnum a (or_introl eq_refl)) as [x Hx].
  assert (Ha : key a = VNum neg_infinity).
  { rewrite Hx, Hr in *. cbn [value_leb] in *.
    match goal with H : PrimFloat.leb x neg_infinity = true |- _ =>
      now rewrite (leb_neg_infinity_r x H) end. }
  constructor; [assumption|].
  apply (IH a); [assumption| |assumption].
  intros r' Hr'. apply Hnum. now right.
Qed.

(** The ranking as two blocks: the rows with a number, largest first, then
    the rows with NaN. *)
Lemma nargsort_blocks (rs : list row) :
  (forall r, In r rs -> exists x, key r = VNum x) ->
  exists defined undefined,
    nargsort false key rs = defined ++ undefined /\
    Forall (fun r => isna (key r) = false) defined /\
    Forall (fun r => isna (key r) = true) undefined /\
    Sorted (fun a b => value_leb (key b) (key a) = true) defined /\
    (forall r, In r defined -> exists x, key r = VNum x).
Proof.
  intros Hnum. unfold nargsort.
  set (N := filter (fun r => negb (isna (key r))) rs).
  set (M := filter (fun r => isna (key r)) rs).
  assert (HN : forall r, In r N -> exists x, key r = VNum x /\ isnan x = false).
  { intros r Hr. apply filter_In in Hr. destruct Hr as [Hr Hna].
    destruct (Hnum r Hr) as [x Hx]. exists x. split; [assumption|].
    rewrite Hx in Hna. simpl in Hna. now apply negb_true_iff in Hna. }
  assert (HS : forall r, In r (rev (sort_on value_leb key (rev N))) ->
                         exists x, key r = VNum x /\ isnan x = false).
  { intros r Hr. apply HN. apply in_rev. apply in_rev in Hr.
    exact (proj1 (sort_on_in value_leb key (rev N) r) Hr). }
  exists (rev (sort_on value_leb key (rev N))), M.
  split; [reflexivity|]. split; [|split; [|split]].
  - apply Forall_forall. intros r Hr. destruct (HS r Hr) as [x [Hx Hn]].
    rewrite Hx. exact Hn.
  - apply Forall_forall. intros r Hr. now apply filter_In in Hr.
  - apply (Sorted_reverse (fun a b => value_leb (key a) (key b) = true)).
    apply (sort_on_sorted value_leb key
             (fun v => exists x, v = VNum x /\ isnan x = false)).
    + intros a b [x [-> Hx]] [y [-> Hy]]. simpl.
      now apply FloatFacts.leb_total.
    + apply Forall_forall. intros r Hr. apply HN. now apply in_rev.
  - intros r Hr. destruct (HS r Hr) as [x [Hx _]]. now exists x.
Qed.

(** Where a row stands in the ranking, by its key. *)
Lemma nargsort_position (rs : list row) (r : row) (x : float) :
  (forall r, In r rs -> exists x, key r = VNum x) ->
  In r (nargsort false key rs) ->
  key r = VNum x ->
  exists pre post,
    nargsort false key rs = pre ++ r :: post /\
    (x = nan -> Forall (fun r' => isna (key r') = true) post) /\
    (x = infinity -> Forall (fun r' => key r' = VNum infinity) pre) /\
    (x = neg_infinity ->
     Forall (fun r' => isna (key r') = false) pre /\
     Forall (fun r' => key r' = VNum neg_infinity \/ isna (key r') = true)
            post).
Proof.
  intros Hnum Hin Hkey.
  destruct (nargsort_blocks rs Hnum)
    as [defined [undefined [E [Hd [Hu [Hs Hdn]]]]]].
  rewrite E in *. apply in_app_iff in Hin.
  destruct (isnan x) eqn:En.
  - assert (Hr : In r undefined).
    { destruct Hin as [Hin|Hin]; [|assumption].
      pose proof (proj1 (Forall_forall _ _) Hd r Hin) as H.
      cbv beta in H. rewrite Hkey in H. cbn [isna] in H. congruence. }
    destruct (in_split r undefined Hr) as [u1 [u2 ->]].
    exists (defined ++ u1), u2. split; [now rewrite <- app_assoc|].
    split; [|split].
    + intros _. apply Forall_app in Hu. destruct Hu as [_ Hu].
      now inversion Hu.
    + intros ->. discriminate.
    + intros ->. discriminate.
  - assert (Hr : In r defined).
    { destruct Hin as [Hin|Hin]; [assumption|].
      pose proof (proj1 (Forall_forall _ _) Hu r Hin) as H.
      cbv beta in H. rewrite Hkey in H. cbn [isna] in H. congruence. }
    destruct (in_split r defined Hr) as [d1 [d2 ->]].
    exists d1, (d2 ++ undefined). split; [now rewrite <- app_assoc|].
    split; [|split].
    + intros ->. discriminate.
    + intros ->. apply (before_infinity d1 d2 r); try assumption.
      intros r' Hr'. apply Hdn. apply in_app_iff. now left.
    + intros ->. split.
      * apply Forall_app in Hd. now destruct Hd.
      * apply Forall_app. split.
        -- apply Sorted_app_r in Hs.
           assert (H2 : Forall (fun r' => key r' = VNum neg_infinity) d2).
           { apply (after_neg_infinity d2 r); try assumption.
             intros r' Hr'. apply Hdn. apply in_app_iff. right. now right. }
           apply Forall_forall. intros r' Hr'. left.
           exact (proj1 (Forall_forall _ _) H2 r' Hr').
        -- apply Forall_forall. intros r' Hr'. right.
           exact (proj1 (Forall_forall _ _) Hu r' Hr').
Qed.
End RankPositions.

(** * The rows of a symbol in the loaded table *)

Lemma list_sum_cons (a : nat) (l : list nat) :
  list_sum (a :: l) = a + list_sum l.
Proof. reflexivity. Qed.

Lemma filter_flat_map_length {A B : Type} (p : B -> bool) (f : A -> list B)
  (l : list A) :
  List.length (filter p (flat_map f l))
  = list_sum (map (fun x => List.length (filter p (f x))) l).
Proof.
  induction l as [|x l IH]; [reflexivity|].
  cbn [flat_map map]. now rewrite list_sum_cons, filter_app, length_app, IH.
Qed.

Lemma list_sum_in (g : string -> nat) (l : list string) (f : string) :
  In f l -> g f <= list_sum (map g l).
Proof.
  induction l as [|x l IH]; intros H; [destruct H|].
  cbn [map]. rewrite list_sum_cons.
  destruct H as [->|H]; [lia|]. specialize (IH H). lia.
Qed.

Lemma list_sum_in2 (g : string -> nat) (l : list string) (f1 f2 : string) :
  f1 <> f2 -> In f1 l -> In f2 l -> g f1 + g f2 <= list_sum (map g l).
Proof.
  intros Hne H1 H2. destruct (in_split f1 l H1) as [l1 [l2 ->]].
  assert (H : In f2 (l1 ++ l2)).
  { apply in_app_iff in H2. apply in_app_iff.
    destruct H2 as [H2|[H2|H2]]; [now left|congruence|now right]. }
  rewrite map_app, list_sum_app. cbn [map]. rewrite list_sum_cons.
  pose proof (list_sum_in g (l1 ++ l2) f2 H) as Hb.
  rewrite map_app, list_sum_app in Hb. lia.
Qed.

Section LoadedRows.
Variable path_exists : string -> bool.
Variable listdir : string -> result (list string).
Variable path_join : string -> string -> string.
Variable read_csv : string -> result DataFrame.
Variable to_datetime : list value -> result (list value).

Lemma load_file_symbol_rows (csv_dir file : string) (df : DataFrame)
  (s : string) :
  load_file path_join read_csv to_datetime csv_dir file = Ok df ->
  List.length (filter (fun r => value_eqb (cell r "Symbol") (VStr s)) (rows df))
  = if String.eqb (replace file ".csv" "") s
    then rows_in_file read_csv (path_join csv_dir file) else 0.
Proof.
  intros H.
  destruct (load_file_spec path_join read_csv to_datetime csv_dir file df H)
    as [raw [Hraw [Hlen [_ Hsym]]]].
  unfold rows_in_file. rewrite Hraw, <- Hlen.
  destruct (String.eqb (replace file ".csv" "") s) eqn:E.
  - rewrite filter_all; [reflexivity|]. intros r Hr. rewrite (Hsym r Hr).
    exact E.
  - rewrite filter_none; [reflexivity|]. intros r Hr. rewrite (Hsym r Hr).
    exact E.
Qed.

Lemma load_files_symbol_rows (csv_dir : string) (names : list string)
  (dfs : list DataFrame) (s : string) :
  mapM (load_file path_join read_csv to_datetime csv_dir) names = Ok dfs ->
  List.length (filter (fun r => value_eqb (cell r "Symbol") (VStr s))
                      (flat_map rows dfs))
  = list_sum
      (map (fun file =>
              if String.eqb (replace file ".csv" "") s
              then rows_in_file read_csv (path_join csv_dir file) else 0)
           names).
Proof.
  intros H. apply mapM_inv in H. rewrite filter_flat_map_length.
  induction H as [|f df names dfs Hf _ IH]; [reflexivity|].
  cbn [map]. rewrite !list_sum_cons, IH. f_equal.
  now apply load_file_symbol_rows.
Qed.

(** The rows of a symbol in the loaded table are the rows of the files
    that go by that symbol. *)
Lemma loaded_symbol_rows (csv_dir : string) (files : list string)
  (ld : Loaded) (s : string) :
  path_exists csv_dir = true ->
  listdir csv_dir = Ok files ->
  load_stock_data path_exists listdir path_join read_csv to_datetime csv_dir
  = Ok ld ->
  List.length (rows_of_symbol (table ld) s)
  = rows_for_symbol path_join read_csv csv_dir files s.
Proof.
  intros He Hl. unfold load_stock_data. rewrite He, Hl. cbn [negb bind].
  fold (csv_files files). unfold rows_for_symbol, rows_of_symbol.
  destruct (mapM (load_file path_join read_csv to_datetime csv_dir)
              (csv_files files)) as [dfs|e] eqn:E; cbn [bind]; [|discriminate].
  pose proof (load_files_symbol_rows csv_dir (csv_files files) dfs s E) as Hsum.
  destruct (load_files_spec path_join read_csv to_datetime csv_dir
              (csv_files files) dfs E) as [_ [_ [_ [Hcols _]]]].
  destruct dfs as [|df0 dfs].
  - intros H. injection H as <-. cbn [table rows DataFrame_empty filter].
    now rewrite <- Hsum.
  - destruct (concat (df0 :: dfs)) as [out|e] eqn:Ec; cbn [bind];
      [|discriminate].
    intros H. injection H as <-. cbn [table].
    destruct (concat_spec _ _ Ec) as [Hc Hr].
    rewrite <- Hsum, Hr.
    apply (filter_length_map (fun v => value_eqb v (VStr s))
             (fun r => cell r "Symbol") (fun r => cell r "Symbol")).
    rewrite map_map. apply map_ext_in. intros r Hin.
    unfold cell at 1. rewrite assoc_normalise; [reflexivity|].
    apply in_flat_map in Hin. destruct Hin as [df [Hdf _]].
    apply (Hc df); [assumption|]. apply has_column_in. now apply Hcols.
Qed.
End LoadedRows.

Lemma twin_names_differ (a b : string) :
  (a ++ ".csv" ++ b ++ ".csv")%string <> ((a ++ b) ++ ".csv")%string.
Proof.
  intros E. apply (f_equal String.length) in E.
  rewrite !string_length_app in E. cbn [String.length] in E. lia.
Qed.

(** * The overview *)

Lemma py_int_finite (x : float) :
  isfinite x = true -> exists z, py_int x = Ok z.
Proof.
  rewrite FloatFacts.isfinite_spec. unfold py_int.
  destruct (Prim2SF x) as [s|s| |s m e]; try discriminate; intros _;
    eexists; reflexivity.
Qed.

Lemma py_int_undefined (x : float) :
  isfinite x = false ->
  py_int x = Raise (if isnan x then ValueError else OverflowError).
Proof.
  rewrite FloatFacts.isfinite_spec, FloatFacts.isnan_spec. unfold py_int.
  destruct (Prim2SF x) as [s|s| |s m e]; try discriminate; reflexivity.
Qed.

Lemma mean_of_nans (xs : list float) :
  (forall x, In x xs -> x = nan) -> mean xs = nan.
Proof.
  intros H. unfold mean. rewrite (filter_none notnan xs); [reflexivity|].
  intros x Hx. now rewrite (H x Hx).
Qed.

Lemma market_summary_typed (obs : list Observation) (keys : list string) :
  exists counts,
    market_summary
      {| columns := metrics_columns;
         rows := nargsort false (fun r => cell r "Return (%)")
                   (map (fun s => metrics_record s (group_of s obs)) keys) |}
    = Ok counts.
Proof.
  set (m := {| columns := metrics_columns; rows := _ |}).
  assert (Hrec : forall r, In r (rows m) ->
                 exists s, r = metrics_record s (group_of s obs)).
  { intros r Hr. apply (Permutation_in _ (nargsort_perm false _ _)) in Hr.
    apply in_map_iff in Hr. destruct Hr as [s [<- _]]. now exists s. }
  unfold market_summary. rewrite (getitem_cells m "Symbol").
  - cbn [bind]. rewrite (getitem_num_cells m "Return (%)").
    + cbn [bind]. eexists. reflexivity.
    + reflexivity.
    + intros r Hr. destruct (Hrec r Hr) as [s ->]. eexists. reflexivity.
  - reflexivity.
  - intros r Hr. destruct (Hrec r Hr) as [s ->]. discriminate.
Qed.

(** The page up to the overview: the mean volume decides. *)
Lemma overview_typed (obs : list Observation) :
  obs <> [] ->
  exists keys counts,
    (forall s, In s keys <-> In s (map symbol obs)) /\
    let metrics :=
      {| columns := metrics_columns;
         rows := nargsort false (fun r => cell r "Return (%)")
                   (map (fun s => metrics_record s (group_of s obs)) keys) |} in
    calculate_metrics (table_of obs) = Ok metrics /\
    market_summary metrics = Ok counts /\
    getitem_num (table_of obs) "Close" = Ok (map close obs) /\
    getitem_num (table_of obs) "Volume" = Ok (map volume obs).
Proof.
  intros Hobs.
  destruct (calculate_metrics_typed obs Hobs) as [keys [_ [Hin Hm]]].
  destruct (market_summary_typed obs keys) as [counts Hc].
  exists keys, counts. split; [assumption|]. cbv zeta.
  split; [assumption|]. split; [assumption|].
  split; apply (getitem_num_typed row_of table_columns); reflexivity.
Qed.

(** * The properties of the specification *)

(** C3: for every symbol, the return of its metrics row is
    [(lastClose - firstClose) / firstClose * 100], first and last being the
    closes of its earliest and of its latest observation (one observation
    per date).  Neither two observations nor a nonzero first close are
    needed for the equation. *)
Theorem metrics_return_first_last (obs : list Observation) (s : string)
  (o1 o2 : Observation) :
  unique_dates (group_of s obs) ->
  earliest o1 (group_of s obs) ->
  latest o2 (group_of s obs) ->
  exists m r,
    calculate_metrics (table_of obs) = Ok m /\
    row_of_symbol m s = Some r /\
    cell r "Return (%)" = VNum (return_pct (close o1) (close o2)).
Proof.
  intros Hu H1 H2.
  destruct (metrics_first_last obs s o1 o2 Hu H1 H2) as [keys [Hm [Hr Hc]]].
  eexists. eexists. split; [exact Hm|]. split; [exact Hr | exact Hc].
Qed.

Lemma metrics_return_first_last_witness :
  exists m r,
    calculate_metrics (table_of table_AB) = Ok m /\
    row_of_symbol m "A" = Some r /\
    cell r "Return (%)" = VNum (return_pct 100 99).
Proof.
  apply (metrics_return_first_last table_AB "A"
           (example_observation "A" 2024 1 1 100)
           (example_observation "A" 2024 1 3 99)).
  - vm_compute. repeat constructor; simpl; intuition discriminate.
  - split; [vm_compute; tauto|].
    intros o' Ho'. vm_compute in Ho'.
    repeat (destruct Ho' as [<-|Ho']; [vm_compute; discriminate|]).
    contradiction.
  - split; [vm_compute; tauto|].
    intros o' Ho'. vm_compute in Ho'.
    repeat (destruct Ho' as [<-|Ho']; [vm_compute; discriminate|]).
    contradiction.
Defined.

(** C9: for every table, the rows of the metrics ranking whose return is a
    number are in non-increasing order of return, and so are the rows of the
    volatility ranking by volatility; either ranking is produced unless the
    table has no row. *)
Theorem rankings_descending (obs : list Observation) :
  match calculate_metrics (table_of obs) with
  | Ok m => descending (defined_values m "Return (%)")
  | Raise _ => obs = []
  end /\
  match calculate_volatility (table_of obs) with
  | Ok v => descending (defined_values v "Volatility")
  | Raise _ => obs = []
  end.
Proof.
  destruct obs as [|o obs]; [split; reflexivity|]. split.
  - destruct (calculate_metrics_typed (o :: obs)) as [keys [_ [_ ->]]];
      [discriminate|].
    unfold defined_values, column_nums. cbn [rows].
    apply nargsort_descending. intros r Hr.
    apply in_map_iff in Hr. destruct Hr as [s [<- _]]. eexists. reflexivity.
  - destruct (calculate_volatility_typed (o :: obs)) as [keys [_ [_ ->]]];
      [discriminate|].
    unfold defined_values, column_nums. cbn [rows].
    apply nargsort_descending. intros r Hr.
    apply in_map_iff in Hr. destruct Hr as [s [<- _]]. eexists. reflexivity.
Qed.

(** C4, as the code has it: a symbol whose first close is 0 does not make
    the metrics calculator fail.  Its return is NaN only when its last
    close is 0 or NaN as well; otherwise it is an infinity, [+infinity]
    for a positive last close and [-infinity] for a negative one when the
    first close is [0.0].  The row is in the ranking, and its place is
    that of its value: after a NaN return come only NaN returns; before a
    [+infinity] return come only [+infinity] returns; a [-infinity]
    return comes after numbers only and before nothing but [-infinity]
    and NaN returns.  The rows with a NaN return come after all others. *)
Theorem zero_first_close_return (obs : list Observation) (s : string)
  (o1 o2 : Observation) :
  unique_dates (group_of s obs) ->
  earliest o1 (group_of s obs) ->
  latest o2 (group_of s obs) ->
  PrimFloat.eqb (close o1) 0 = true ->
  exists m r x pre post,
    calculate_metrics (table_of obs) = Ok m /\
    row_of_symbol m s = Some r /\
    cell r "Return (%)" = VNum x /\
    (if isnan (close o2) || PrimFloat.eqb (close o2) 0
     then x = nan else PrimFloat.abs x = infinity) /\
    (close o1 = 0%float ->
     (isnan (close o2) || PrimFloat.eqb (close o2) 0) = false ->
     x = if PrimFloat.ltb (close o2) 0 then neg_infinity else infinity) /\
    rows m = pre ++ r :: post /\
    (x = nan ->
     Forall (fun r' => isna (cell r' "Return (%)") = true) post) /\
    (x = infinity ->
     Forall (fun r' => cell r' "Return (%)" = VNum infinity) pre) /\
    (x = neg_infinity ->
     Forall (fun r' => isna (cell r' "Return (%)") = false) pre /\
     Forall (fun r' => cell r' "Return (%)" = VNum neg_infinity \/
                       isna (cell r' "Return (%)") = true) post) /\
    exists defined undefined,
      rows m = defined ++ undefined /\
      Forall (fun r => isna (cell r "Return (%)") = false) defined /\
      Forall (fun r => isna (cell r "Return (%)") = true) undefined.
Proof.
  intros Hu H1 H2 Hz.
  destruct (metrics_first_last obs s o1 o2 Hu H1 H2) as [keys [Hm [Hr Hc]]].
  set (rs := map (fun s => metrics_record s (group_of s obs)) keys) in *.
  set (r := metrics_record s (group_of s obs)) in *.
  assert (Hin : In r (nargsort false (fun r => cell r "Return (%)") rs)).
  { unfold row_of_symbol in Hr. cbn [rows] in Hr.
    now apply find_some in Hr. }
  destruct (nargsort_position (fun r => cell r "Return (%)") rs r
              (return_pct (close o1) (close o2)))
    as [pre [post [Hsplit [Hnan [Htop Hbot]]]]]; try assumption.
  { intros r' Hr'. apply in_map_iff in Hr'. destruct Hr' as [k [<- _]].
    eexists. reflexivity. }
  eexists. exists r, (return_pct (close o1) (close o2)), pre, post.
  split; [exact Hm|]. split; [exact Hr|]. split; [exact Hc|].
  split; [apply FloatFacts.return_from_any_zero; exact Hz|].
  split.
  { intros E0 Hl. unfold return_pct. rewrite E0, FloatFacts.return_from_zero.
    now rewrite Hl. }
  cbn [rows]. split; [exact Hsplit|]. split; [exact Hnan|].
  split; [exact Htop|]. split; [exact Hbot|].
  apply nargsort_nan_last.
Qed.

Lemma zero_first_close_return_witness :
  exists m r x pre post,
    calculate_metrics (table_of table_zero_start) = Ok m /\
    row_of_symbol m "A" = Some r /\
    cell r "Return (%)" = VNum x /\
    (if isnan (close (example_observation "A" 2024 1 2 5))
        || PrimFloat.eqb (close (example_observation "A" 2024 1 2 5)) 0
     then x = nan else PrimFloat.abs x = infinity) /\
    (close (example_observation "A" 2024 1 1 0) = 0%float ->
     (isnan (close (example_observation "A" 2024 1 2 5))
      || PrimFloat.eqb (close (example_observation "A" 2024 1 2 5)) 0)
     = false ->
     x = if PrimFloat.ltb (close (example_observation "A" 2024 1 2 5)) 0
         then neg_infinity else infinity) /\
    rows m = pre ++ r :: post /\
    (x = nan ->
     Forall (fun r' => isna (cell r' "Return (%)") = true) post) /\
    (x = infinity ->
     Forall (fun r' => cell r' "Return (%)" = VNum infinity) pre) /\
    (x = neg_infinity ->
     Forall (fun r' => isna (cell r' "Return (%)") = false) pre /\
     Forall (fun r' => cell r' "Return (%)" = VNum neg_infinity \/
                       isna (cell r' "Return (%)") = true) post) /\
    exists defined undefined,
      rows m = defined ++ undefined /\
      Forall (fun r => isna (cell r "Return (%)") = false) defined /\
      Forall (fun r => isna (cell r "Return (%)") = true) undefined.
Proof.
  apply (zero_first_close_return table_zero_start "A"
           (example_observation "A" 2024 1 1 0)
           (example_observation "A" 2024 1 2 5)).
  - vm_compute. repeat constructor; simpl; intuition discriminate.
  - split; [vm_compute; tauto|].
    intros o' Ho'. vm_compute in Ho'.
    repeat (destruct Ho' as [<-|Ho']; [vm_compute; discriminate|]).
    contradiction.
  - split; [vm_compute; tauto|].
    intros o' Ho'. vm_compute in Ho'.
    repeat (destruct Ho' as [<-|Ho']; [vm_compute; discriminate|]).
    contradiction.
  - reflexivity.
Defined.

(** C4 fails as stated: symbol A goes from 0 to 5, its return is
    [+infinity], not NaN, and its row is the first of the ranking. *)
Lemma zero_first_close_counterexample :
  match calculate_metrics (table_of table_zero_start) with
  | Ok m =>
      map (fun r => (cell r "Symbol", cell r "Return (%)")) (rows m)
      = [(VStr "A", VNum infinity); (VStr "B", VNum 10)]
  | Raise _ => False
  end /\ isnan infinity = false.
Proof. vm_compute. split; reflexivity. Qed.

(** Example: symbol A goes from 0 to -5; its return is [-infinity] and its
    row is the last of the ranking, below the return of 10 of symbol B. *)
Lemma zero_first_close_fall_example :
  exists m,
    calculate_metrics (table_of table_zero_fall) = Ok m /\
    map (fun r => (cell r "Symbol", cell r "Return (%)")) (rows m)
    = [(VStr "B", VNum 10); (VStr "A", VNum neg_infinity)].
Proof. eexists. split; vm_compute; reflexivity. Qed.

(** * Further properties of the code *)

(** X1: the page calls no calculator on an empty table and shows a
    warning.  Called on a table with the expected columns and
    no row, the cumulative returns, the monthly performance and the
    correlation are empty, while the two rankings raise [KeyError]: the
    frame of their records has no column to sort by. *)
Theorem empty_table_behaviour :
  (forall df, empty df = true -> main df = (Ok (Warning no_data), df)) /\
  (forall top, exists out,
      calculate_cumulative_returns (table_of []) top = Ok out /\
      rows out = []) /\
  (exists out,
      fst (calculate_monthly_performance (table_of [])) = Ok out /\
      rows out = []) /\
  (forall top, top = [] -> correlation (table_of []) top = Ok []) /\
  calculate_metrics (table_of []) = Raise (KeyError "Return (%)") /\
  calculate_volatility (table_of []) = Raise (KeyError "Volatility").
Proof.
  split; [|split; [|split; [|split; [|split]]]].
  - intros df H. unfold main. now rewrite H.
  - intros top. eexists. split; reflexivity.
  - eexists. split; reflexivity.
  - intros top ->. reflexivity.
  - reflexivity.
  - reflexivity.
Qed.

Lemma empty_table_behaviour_witness :
  main (table_of []) = (Ok (Warning no_data), table_of []).
Proof. apply (proj1 empty_table_behaviour). reflexivity. Defined.

(** Example: on the table with no row both rankings raise. *)
Lemma empty_table_counterexample :
  calculate_metrics (table_of []) = Raise (KeyError "Return (%)") /\
  calculate_volatility (table_of []) = Raise (KeyError "Volatility").
Proof. split; reflexivity. Qed.

(** After [calculate_monthly_performance] the caller's table has a [Month]
    column it did not have before. *)
Lemma monthly_performance_adds_column (obs : list Observation) :
  columns (snd (calculate_monthly_performance (table_of obs)))
  = ["Date"; "Close"; "Volume"; "Symbol"; "Month"] /\
  columns (table_of obs) = ["Date"; "Close"; "Volume"; "Symbol"].
Proof.
  split; [|reflexivity].
  unfold calculate_monthly_performance.
  rewrite month_series_typed. reflexivity.
Qed.

(** Example: symbol A closes at 100, 110, 99; the first cumulative return
    is NaN, the later ones are the running product. *)
Lemma cumulative_return_example :
  exists out,
    calculate_cumulative_returns (table_of table_AB) [VStr "A"] = Ok out /\
    map (fun r => (cell r "Close", cell r "Cumulative Return")) (rows out)
    = [(VNum 100, VNum nan);
       (VNum 110, VNum 1.1000000000000001);
       (VNum 99, VNum 0.9900000000000001)].
Proof. eexists. split; vm_compute; reflexivity. Qed.

(** X2: the monthly table has exactly one row per
    (month, symbol) pair that occurs in the data; the return of a row is
    [(last - first) / first * 100] over the closes of the earliest and of
    the latest observation of its group; a group with a single observation
    has return 0 when its close is a finite number other than 0, and NaN
    otherwise.  Closes of 100, 120 in January and 120, 90 in February give
    20.0 and -25.0. *)
Theorem monthly_performance_rows :
  (forall (obs : list Observation) (m s : string) (o1 o2 : Observation),
      unique_dates (month_group_of m s obs) ->
      earliest o1 (month_group_of m s obs) ->
      latest o2 (month_group_of m s obs) ->
      exists keys out r,
        fst (calculate_monthly_performance (table_of obs)) = Ok out /\
        NoDup keys /\
        (forall k, In k keys <-> In k (map month_key obs)) /\
        map (fun r => (cell r "Month", cell r "Symbol")) (rows out)
        = map (fun k => (VStr (fst k), VStr (snd k))) keys /\
        row_of_month_symbol out m s = Some r /\
        cell r "Return" = VNum (return_pct (close o1) (close o2)) /\
        (List.length (month_group_of m s obs) = 1%nat ->
         if isfinite (close o1) && negb (PrimFloat.eqb (close o1) 0)
         then PrimFloat.eqb (return_pct (close o1) (close o2)) 0 = true
         else return_pct (close o1) (close o2) = nan)) /\
  (exists out,
      fst (calculate_monthly_performance (table_of table_months)) = Ok out /\
      map (fun r => (cell r "Month", cell r "Symbol", cell r "Return"))
          (rows out)
      = [(VStr "2024-01", VStr "A", VNum 20);
         (VStr "2024-02", VStr "A", VNum (-25))]).
Proof.
  split; [|eexists; split; vm_compute; reflexivity].
  intros obs m s o1 o2 Hu H1 H2.
  set (g := month_group_of m s obs) in *.
  assert (Hg : g <> []).
  { intros E. destruct H1 as [H1 _]. rewrite E in H1. contradiction. }
  destruct (monthly_performance_typed obs) as [keys [Hnd [Hin [out [Ho Hr]]]]].
  assert (Hk : In (m, s) keys).
  { apply Hin. destruct H1 as [H1 _]. apply month_group_of_in in H1.
    destruct H1 as [H1 <-]. now apply in_map. }
  exists keys, out, (monthly_record m s g).
  split; [assumption|]. split; [assumption|]. split; [assumption|].
  split; [rewrite Hr, !map_map; apply map_ext; now intros [a b]|].
  split; [now apply (monthly_row_lookup obs keys)|].
  assert (Hc : cell (monthly_record m s g) "Return"
               = VNum (return_pct (close o1) (close o2))).
  { rewrite (earliest_unique _ _ _ Hu H1 (by_date_first _ Hg)).
    rewrite (latest_unique _ _ _ Hu H2 (by_date_last _ Hg)).
    reflexivity. }
  split; [exact Hc|].
  intros Hlen. destruct g as [|o [|o' g']] eqn:E; try discriminate.
  destruct H1 as [[<-|[]] _], H2 as [[<-|[]] _].
  unfold return_pct. rewrite FloatFacts.return_of_single.
  destruct (isfinite (close o) && negb (PrimFloat.eqb (close o) 0));
    [|reflexivity].
  destruct (PrimFloat.ltb (close o) 0); reflexivity.
Qed.

Lemma monthly_performance_rows_witness :
  exists keys out r,
    fst (calculate_monthly_performance (table_of table_months)) = Ok out /\
    NoDup keys /\
    (forall k, In k keys <-> In k (map month_key table_months)) /\
    map (fun r => (cell r "Month", cell r "Symbol")) (rows out)
    = map (fun k => (VStr (fst k), VStr (snd k))) keys /\
    row_of_month_symbol out "2024-01" "A" = Some r /\
    cell r "Return"
    = VNum (return_pct (close (example_observation "A" 2024 1 1 100))
                       (close (example_observation "A" 2024 1 31 120))) /\
    (List.length (month_group_of "2024-01" "A" table_months) = 1%nat ->
     if isfinite (close (example_observation "A" 2024 1 1 100))
        && negb (PrimFloat.eqb (close (example_observation "A" 2024 1 1 100)) 0)
     then PrimFloat.eqb
            (return_pct (close (example_observation "A" 2024 1 1 100))
                        (close (example_observation "A" 2024 1 31 120))) 0
          = true
     else return_pct (close (example_observation "A" 2024 1 1 100))
                     (close (example_observation "A" 2024 1 31 120)) = nan).
Proof.
  refine (proj1 monthly_performance_rows table_months "2024-01" "A"
           (example_observation "A" 2024 1 1 100)
           (example_observation "A" 2024 1 31 120) _ _ _).
  - vm_compute. repeat constructor; simpl; intuition discriminate.
  - split; [vm_compute; tauto|].
    intros o' Ho'. vm_compute in Ho'.
    repeat (destruct Ho' as [<-|Ho']; [vm_compute; discriminate|]).
    contradiction.
  - split; [vm_compute; tauto|].
    intros o' Ho'. vm_compute in Ho'.
    repeat (destruct Ho' as [<-|Ho']; [vm_compute; discriminate|]).
    contradiction.
Defined.

(** Example: a group with a single observation whose close is 0 has a NaN
    return. *)
Lemma monthly_single_observation_counterexample :
  match fst (calculate_monthly_performance (table_of table_single_zero)) with
  | Ok out =>
      map (fun r => (cell r "Month", cell r "Return")) (rows out)
      = [(VStr "2024-01", VNum nan)]
  | Raise _ => False
  end /\ PrimFloat.eqb nan 0 = false.
Proof. vm_compute. split; reflexivity. Qed.

(** X3: on a table with at least one row both rankings succeed and have
    exactly one row per symbol of the table: their Symbol columns list the
    symbols of the table, each once. *)
Theorem rankings_one_row_per_symbol (obs : list Observation) :
  obs <> [] ->
  exists m v syms_m syms_v,
    calculate_metrics (table_of obs) = Ok m /\
    calculate_volatility (table_of obs) = Ok v /\
    columns m = ["Symbol"; "Return (%)"; "Avg Price"; "Avg Volume"] /\
    columns v = ["Symbol"; "Volatility"] /\
    ranked_symbols m = map VStr syms_m /\
    ranked_symbols v = map VStr syms_v /\
    NoDup syms_m /\ NoDup syms_v /\
    forall s, (In s syms_m <-> In s (map symbol obs)) /\
              (In s syms_v <-> In s (map symbol obs)).
Proof.
  intros Hobs.
  destruct (calculate_metrics_typed obs Hobs) as [km [Hndm [Hinm Hm]]].
  destruct (calculate_volatility_typed obs Hobs) as [kv [Hndv [Hinv Hv]]].
  destruct (ranked_symbols_sorted metrics_record "Return (%)"
              (fun _ _ => eq_refl) obs km metrics_columns) as [sm [Hsm Hpm]].
  destruct (ranked_symbols_sorted volatility_record "Volatility"
              (fun _ _ => eq_refl) obs kv volatility_columns) as [sv [Hsv Hpv]].
  eexists. eexists. exists sm, sv.
  split; [exact Hm|]. split; [exact Hv|].
  split; [reflexivity|]. split; [reflexivity|].
  split; [exact Hsm|]. split; [exact Hsv|].
  split; [exact (Permutation_NoDup (Permutation_sym Hpm) Hndm)|].
  split; [exact (Permutation_NoDup (Permutation_sym Hpv) Hndv)|].
  intros s. split.
  - rewrite <- Hinm. split; apply Permutation_in;
      [assumption | now apply Permutation_sym].
  - rewrite <- Hinv. split; apply Permutation_in;
      [assumption | now apply Permutation_sym].
Qed.

Lemma rankings_one_row_per_symbol_witness :
  exists m v syms_m syms_v,
    calculate_metrics (table_of table_AB) = Ok m /\
    calculate_volatility (table_of table_AB) = Ok v /\
    columns m = ["Symbol"; "Return (%)"; "Avg Price"; "Avg Volume"] /\
    columns v = ["Symbol"; "Volatility"] /\
    ranked_symbols m = map VStr syms_m /\
    ranked_symbols v = map VStr syms_v /\
    NoDup syms_m /\ NoDup syms_v /\
    forall s, (In s syms_m <-> In s (map symbol table_AB)) /\
              (In s syms_v <-> In s (map symbol table_AB)).
Proof. apply (rankings_one_row_per_symbol table_AB). discriminate. Defined.

(** X4: a symbol with fewer than three observations has a NaN volatility:
    its one or two closes give at most one daily return, and the sample
    deviation of fewer than two values is NaN.  The calculator does not
    fail. *)
Theorem volatility_of_short_series (obs : list Observation) (s : string) :
  In s (map symbol obs) ->
  List.length (group_of s obs) < 3 ->
  exists v r,
    calculate_volatility (table_of obs) = Ok v /\
    row_of_symbol v s = Some r /\
    cell r "Volatility" = VNum nan.
Proof.
  intros Hs Hlen.
  destruct (volatility_of_symbol obs s Hs) as [v [Hv Hr]].
  exists v, (volatility_record s (group_of s obs)).
  split; [assumption|]. split; [assumption|].
  unfold volatility_record. cbn [cell assoc String.eqb Ascii.eqb Bool.eqb].
  rewrite std_of_short_series; [reflexivity|].
  unfold by_date. now rewrite length_map, sort_on_length.
Qed.

Lemma volatility_of_short_series_witness :
  exists v r,
    calculate_volatility (table_of table_AB) = Ok v /\
    row_of_symbol v "B" = Some r /\
    cell r "Volatility" = VNum nan.
Proof.
  apply (volatility_of_short_series table_AB "B").
  - vm_compute. tauto.
  - vm_compute. lia.
Defined.

(** X5: whenever the correlation of a selection is computed, the matrix is
    square, one row and one column per selected label, and symmetric: the
    cells (i, j) and (j, i) hold the same value, NaN included.  A diagonal
    cell is the pairwise formula applied to a column and itself; it is NaN
    for a column whose sum of squared deviations is 0, as for a constant
    close. *)
Theorem correlation_symmetric (df : DataFrame) (top : list value) (m : matrix) :
  correlation df top = Ok m ->
  exists pv sel cols,
    pivot df "Date" "Symbol" "Close" = Ok pv /\
    select pv top = Ok sel /\
    mapM (getitem_num sel) (columns sel) = Ok cols /\
    square (List.length top) m /\
    (forall i j, mat_get m i j = mat_get m j i) /\
    (forall i, i < List.length top ->
               mat_get m i i = self_corr (nth i cols [])) /\
    (forall i, i < List.length top ->
               PrimFloat.eqb (sum_sq_dev (nth i cols [])) 0 = true ->
               mat_get m i i = nan).
Proof.
  unfold correlation. intros H.
  destruct (pivot df "Date" "Symbol" "Close") as [pv|e]; [|discriminate].
  cbn [bind] in H.
  destruct (select pv top) as [sel|e] eqn:Es; [|discriminate].
  cbn [bind] in H.
  destruct (corr_as_nancorr sel m H) as [cols [Hc [Hl ->]]].
  apply select_columns in Es as Hn. rewrite Hn in Hl.
  exists pv, sel, cols.
  split; [reflexivity|]. split; [exact Es|]. split; [assumption|].
  pose proof (np_empty_square (List.length cols)) as Hsq.
  assert (Hd : forall i, i < List.length top ->
               mat_get (nancorr cols (np_empty (List.length cols))) i i
               = self_corr (nth i cols [])).
  { intros i Hi. rewrite nancorr_cell by (try assumption; lia).
    rewrite Nat.max_id, Nat.min_id. apply corr_pair_self. }
  split; [rewrite <- Hl; now apply nancorr_square|].
  split; [intros i j; now apply nancorr_symmetric|].
  split; [exact Hd|].
  intros i Hi Hz. rewrite Hd by assumption. now apply self_corr_no_variance.
Qed.

Lemma correlation_symmetric_witness :
  exists pv sel cols,
    pivot (table_of table_constant) "Date" "Symbol" "Close" = Ok pv /\
    select pv [VStr "A"; VStr "C"] = Ok sel /\
    mapM (getitem_num sel) (columns sel) = Ok cols /\
    square (List.length [VStr "A"; VStr "C"]) [[1; nan]; [nan; nan]]%float /\
    (forall i j, mat_get [[1; nan]; [nan; nan]]%float i j
                 = mat_get [[1; nan]; [nan; nan]]%float j i) /\
    (forall i, i < List.length [VStr "A"; VStr "C"] ->
               mat_get [[1; nan]; [nan; nan]]%float i i
               = self_corr (nth i cols [])) /\
    (forall i, i < List.length [VStr "A"; VStr "C"] ->
               PrimFloat.eqb (sum_sq_dev (nth i cols [])) 0 = true ->
               mat_get [[1; nan]; [nan; nan]]%float i i = nan).
Proof.
  apply (correlation_symmetric (table_of table_constant)
           [VStr "A"; VStr "C"] [[1; nan]; [nan; nan]]%float).
  vm_compute. reflexivity.
Defined.

(** X6: [calculate_monthly_performance] changes the table it is given: the
    caller's table comes back with a [Month] column appended, every row
    extended by the month of its date.  A second call on that table
    returns the same result and leaves the table as the first call left
    it. *)
Theorem monthly_performance_changes_table (obs : list Observation) :
  snd (calculate_monthly_performance (table_of obs))
  = {| columns := ["Date"; "Close"; "Volume"; "Symbol"; "Month"];
       rows := map (fun o => row_of o
                             ++ [("Month", VStr (to_period_M (date o)))])
                   obs |} /\
  calculate_monthly_performance
    (snd (calculate_monthly_performance (table_of obs)))
  = calculate_monthly_performance (table_of obs).
Proof.
  rewrite monthly_performance_unfold. cbn [snd]. split; [reflexivity|].
  unfold calculate_monthly_performance at 1.
  now rewrite month_series_month_frame, setitem_month_again.
Qed.

(** X7: with at most ten symbols in the table the two tables under the
    market overview are one and the same: [head(10)] and [tail(10)] of the
    metrics ranking both are the whole ranking, in the same order. *)
Theorem gainers_and_losers_coincide (obs : list Observation) :
  obs <> [] ->
  List.length (nodup string_dec (map symbol obs)) <= 10 ->
  exists m,
    calculate_metrics (table_of obs) = Ok m /\
    top_gainers m = m /\ top_losers m = m.
Proof.
  intros Hobs Hn.
  destruct (calculate_metrics_typed obs Hobs) as [keys [Hnd [Hin Hm]]].
  eexists. split; [exact Hm|].
  assert (Hlen : List.length
                   (nargsort false (fun r => cell r "Return (%)")
                      (map (fun s => metrics_record s (group_of s obs)) keys))
                 <= 10).
  { rewrite (Permutation_length (nargsort_perm false _ _)), length_map.
    now rewrite (distinct_count keys (map symbol obs) Hnd Hin). }
  split; [apply head_all | apply tail_all]; exact Hlen.
Qed.

Lemma gainers_and_losers_coincide_witness :
  exists m,
    calculate_metrics (table_of table_AB) = Ok m /\
    top_gainers m = m /\ top_losers m = m.
Proof.
  apply (gainers_and_losers_coincide table_AB).
  - discriminate.
  - vm_compute. lia.
Defined.

(** X8: the two counts of the market overview add up to the number of
    symbols of the table.  Green counts the symbols whose return is above
    0; red counts all the others: a return of 0, a negative return and a
    NaN return alike. *)
Theorem market_summary_counts (obs : list Observation) :
  obs <> [] ->
  exists m green red,
    calculate_metrics (table_of obs) = Ok m /\
    market_summary m = Ok (green, red) /\
    (green + red)%Z
    = Z.of_nat (List.length (nodup string_dec (map symbol obs))) /\
    green = Z.of_nat (List.length
                        (filter (fun x => PrimFloat.ltb 0 x)
                                (column_nums m "Return (%)"))) /\
    red = Z.of_nat (List.length
                      (filter (fun x => negb (PrimFloat.ltb 0 x))
                              (column_nums m "Return (%)"))).
Proof.
  intros Hobs.
  destruct (calculate_metrics_typed obs Hobs) as [keys [Hnd [Hin Hm]]].
  destruct (ranked_symbols_sorted metrics_record "Return (%)"
              (fun _ _ => eq_refl) obs keys metrics_columns) as [syms [Hs Hp]].
  set (m := {| columns := metrics_columns;
               rows := nargsort false (fun r => cell r "Return (%)")
                         (map (fun s => metrics_record s (group_of s obs))
                              keys) |}) in *.
  assert (Hrec : forall r, In r (rows m) ->
                 exists s, r = metrics_record s (group_of s obs)).
  { intros r Hr. apply (Permutation_in _ (nargsort_perm false _ _)) in Hr.
    apply in_map_iff in Hr. destruct Hr as [s [<- _]]. now exists s. }
  assert (Hsym : getitem m "Symbol" = Ok (map VStr syms)).
  { rewrite getitem_cells; [now rewrite <- Hs|reflexivity|].
    intros r Hr. destruct (Hrec r Hr) as [s ->]. discriminate. }
  assert (Hret : getitem_num m "Return (%)" = Ok (column_nums m "Return (%)")).
  { apply getitem_num_cells; [reflexivity|].
    intros r Hr. destruct (Hrec r Hr) as [s ->]. eexists. reflexivity. }
  assert (Hlen : List.length (column_nums m "Return (%)") = List.length syms).
  { unfold column_nums. rewrite length_map.
    change (rows m) with (nargsort false (fun r => cell r "Return (%)")
                            (map (fun s => metrics_record s (group_of s obs))
                                 keys)).
    rewrite (Permutation_length (nargsort_perm false _ _)), length_map.
    symmetry. now apply Permutation_length. }
  assert (Hsyms : NoDup syms)
    by exact (Permutation_NoDup (Permutation_sym Hp) Hnd).
  exists m. eexists. eexists. split; [exact Hm|].
  unfold market_summary. rewrite Hsym. cbn [bind]. rewrite Hret. cbn [bind].
  split; [reflexivity|].
  rewrite nunique_symbols by assumption.
  pose proof (filter_length (fun x => PrimFloat.ltb 0 x)
                (column_nums m "Return (%)")) as Hf.
  rewrite <- (distinct_count keys (map symbol obs) Hnd Hin).
  rewrite <- (Permutation_length Hp).
  split; [lia|]. split; [reflexivity|]. lia.
Qed.

Lemma market_summary_counts_witness :
  exists m green red,
    calculate_metrics (table_of table_zero_start) = Ok m /\
    market_summary m = Ok (green, red) /\
    (green + red)%Z
    = Z.of_nat (List.length (nodup string_dec (map symbol table_zero_start))) /\
    green = Z.of_nat (List.length
                        (filter (fun x => PrimFloat.ltb 0 x)
                                (column_nums m "Return (%)"))) /\
    red = Z.of_nat (List.length
                      (filter (fun x => negb (PrimFloat.ltb 0 x))
                              (column_nums m "Return (%)"))).
Proof. apply (market_summary_counts table_zero_start). discriminate. Defined.

(** X9: a table that holds two rows for the same date and symbol cannot be
    pivoted: the correlation raises [ValueError], whatever the selection,
    although both rankings of the same table succeed. *)
Theorem correlation_rejects_duplicates (obs l1 l2 l3 : list Observation)
  (o o' : Observation) (top : list value) :
  obs = l1 ++ o :: l2 ++ o' :: l3 ->
  date o = date o' -> symbol o = symbol o' ->
  correlation (table_of obs) top = Raise ValueError /\
  exists m v,
    calculate_metrics (table_of obs) = Ok m /\
    calculate_volatility (table_of obs) = Ok v.
Proof.
  intros Hobs Hd Hs. split.
  - unfold correlation. now rewrite (pivot_duplicate obs l1 l2 l3 o o').
  - assert (Hne : obs <> []) by (subst; now destruct l1).
    destruct (calculate_metrics_typed obs Hne) as [km [_ [_ Hm]]].
    destruct (calculate_volatility_typed obs Hne) as [kv [_ [_ Hv]]].
    eexists. eexists. split; [exact Hm | exact Hv].
Qed.

Lemma correlation_rejects_duplicates_witness :
  correlation (table_of table_duplicate) [VStr "A"; VStr "B"]
  = Raise ValueError /\
  exists m v,
    calculate_metrics (table_of table_duplicate) = Ok m /\
    calculate_volatility (table_of table_duplicate) = Ok v.
Proof.
  apply (correlation_rejects_duplicates table_duplicate
           [] [example_observation "B" 2024 1 1 50] []
           (example_observation "A" 2024 1 1 100)
           (example_observation "A" 2024 1 1 101)); reflexivity.
Defined.

(** X10: the volatility of a symbol is the sample standard deviation, with
    [n - 1] in the denominator, of its daily returns
    [close_t / close_(t-1) - 1] taken in the order of its dates.  The
    first day has no return; a return that is NaN is not counted and
    enters the sums as 0, and the sums are added the way numpy adds them.
    The closes 6, 2, 5, 6, 1, 7, 2, 3, 4 give 2.2459140274271645. *)
Theorem volatility_is_sample_std :
  (forall (obs d : list Observation) (s : string),
      d <> [] ->
      in_date_order d (group_of s obs) ->
      exists v r,
        calculate_volatility (table_of obs) = Ok v /\
        row_of_symbol v s = Some r /\
        cell r "Volatility"
        = VNum (sample_std (nan :: daily_returns (map close d)))) /\
  (exists v r,
      calculate_volatility (table_of table_nine) = Ok v /\
      row_of_symbol v "N" = Some r /\
      cell r "Volatility" = VNum 2.2459140274271645).
Proof.
  split.
  - intros obs d s Hd Ho.
    assert (Hs : In s (map symbol obs)).
    { destruct d as [|o d]; [congruence|].
      apply (group_member_symbol s obs o).
      apply (Permutation_in _ (proj1 Ho)). now left. }
    destruct (volatility_of_symbol obs s Hs) as [v [Hv Hr]].
    exists v, (volatility_record s (group_of s obs)).
    split; [assumption|]. split; [assumption|].
    unfold volatility_record. cbn [cell assoc String.eqb Ascii.eqb Bool.eqb].
    rewrite (in_date_order_by_date d _ Ho).
    destruct d as [|o d]; [congruence|]. cbn [map].
    now rewrite std_pct_change.
  - eexists. eexists. split; [vm_compute; reflexivity|].
    split; vm_compute; reflexivity.
Qed.

Lemma volatility_is_sample_std_witness :
  exists v r,
    calculate_volatility (table_of table_AB) = Ok v /\
    row_of_symbol v "A" = Some r /\
    cell r "Volatility"
    = VNum (sample_std
              (nan :: daily_returns
                        (map close [example_observation "A" 2024 1 1 100;
                                    example_observation "A" 2024 1 2 110;
                                    example_observation "A" 2024 1 3 99]))).
Proof.
  refine (proj1 volatility_is_sample_std table_AB
            [example_observation "A" 2024 1 1 100;
             example_observation "A" 2024 1 2 110;
             example_observation "A" 2024 1 3 99] "A" _ _).
  - discriminate.
  - split.
    + change (group_of "A" table_AB)
        with [example_observation "A" 2024 1 3 99;
              example_observation "A" 2024 1 1 100;
              example_observation "A" 2024 1 2 110].
      apply Permutation_sym, (Permutation_cons_app [_; _] []). reflexivity.
    + repeat constructor; vm_compute; reflexivity.
Defined.

(** X11: for a selected symbol whose dates are all different,
    [calculate_cumulative_returns] lists the symbol's rows in the order of
    their dates; "Daily Return" is NaN on the first row and
    [close_t / close_(t-1) - 1] on the later ones, and "Cumulative Return"
    is the running product of [1 + Daily Return], which is NaN on the
    symbol's first row. *)
Theorem cumulative_returns_of_symbol (obs d : list Observation)
  (top : list value) (s : string) :
  In (VStr s) top ->
  d <> [] ->
  in_date_order d (group_of s obs) ->
  exists out,
    calculate_cumulative_returns (table_of obs) top = Ok out /\
    map (fun r => cell r "Date") (rows_of_symbol out s)
    = map (fun o => VDate (date o)) d /\
    map (fun r => num (cell r "Daily Return")) (rows_of_symbol out s)
    = nan :: daily_returns (map close d) /\
    map (fun r => num (cell r "Cumulative Return")) (rows_of_symbol out s)
    = growth (nan :: daily_returns (map close d)) /\
    hd_error (map (fun r => num (cell r "Cumulative Return"))
                  (rows_of_symbol out s))
    = Some nan.
Proof.
  intros Hs Hd Ho.
  pose proof (selection_group top obs d s Hs Ho) as Hg.
  destruct d as [|o d]; [congruence|].
  assert (Hin : In s (map symbol (selection top obs))).
  { apply (group_member_symbol s (selection top obs) o).
    rewrite Hg. now left. }
  destruct (cumulative_rows_of_symbol obs top s Hin)
    as [out [Hout [_ [Hdate [_ [Hdaily Hcum]]]]]].
  rewrite Hg in Hdate, Hdaily, Hcum.
  cbn [map] in Hdaily, Hcum. rewrite pct_change_cons in Hdaily, Hcum.
  exists out. split; [assumption|]. split; [assumption|].
  split; [assumption|]. split; [assumption|].
  rewrite Hcum. reflexivity.
Qed.

Lemma cumulative_returns_of_symbol_witness :
  exists out,
    calculate_cumulative_returns (table_of table_AB) [VStr "A"] = Ok out /\
    map (fun r => cell r "Date") (rows_of_symbol out "A")
    = map (fun o => VDate (date o))
          [example_observation "A" 2024 1 1 100;
           example_observation "A" 2024 1 2 110;
           example_observation "A" 2024 1 3 99] /\
    map (fun r => num (cell r "Daily Return")) (rows_of_symbol out "A")
    = nan :: daily_returns
               (map close [example_observation "A" 2024 1 1 100;
                           example_observation "A" 2024 1 2 110;
                           example_observation "A" 2024 1 3 99]) /\
    map (fun r => num (cell r "Cumulative Return")) (rows_of_symbol out "A")
    = growth (nan :: daily_returns
                       (map close [example_observation "A" 2024 1 1 100;
                                   example_observation "A" 2024 1 2 110;
                                   example_observation "A" 2024 1 3 99])) /\
    hd_error (map (fun r => num (cell r "Cumulative Return"))
                  (rows_of_symbol out "A"))
    = Some nan.
Proof.
  apply (cumulative_returns_of_symbol table_AB
           [example_observation "A" 2024 1 1 100;
            example_observation "A" 2024 1 2 110;
            example_observation "A" 2024 1 3 99] [VStr "A"] "A").
  - now left.
  - discriminate.
  - split.
    + change (group_of "A" table_AB)
        with [example_observation "A" 2024 1 3 99;
              example_observation "A" 2024 1 1 100;
              example_observation "A" 2024 1 2 110].
      apply Permutation_sym, (Permutation_cons_app [_; _] []). reflexivity.
    + repeat constructor; vm_compute; reflexivity.
Defined.

(** X12: on a table of observations [calculate_cumulative_returns] does
    not fail, whatever symbols are asked for; every row of its result
    carries one of the symbols asked for, a symbol asked for keeps all its
    rows, and a symbol not asked for has none. *)
Theorem cumulative_returns_selected_only (obs : list Observation)
  (top : list value) :
  exists out,
    calculate_cumulative_returns (table_of obs) top = Ok out /\
    (forall r, In r (rows out) -> In (cell r "Symbol") top) /\
    (forall s, In (VStr s) top ->
       List.length (rows_of_symbol out s) = List.length (group_of s obs)) /\
    (forall s, ~ In (VStr s) top -> rows_of_symbol out s = []).
Proof.
  destruct (cumulative_returns_symbols obs top) as [out [Hout Hsym]].
  assert (Hlen : forall s,
             List.length (rows_of_symbol out s)
             = List.length (group_of s (selection top obs))).
  { intros s. unfold rows_of_symbol, group_of.
    rewrite (filter_length_map (fun v => value_eqb v (VStr s))
               (fun r => cell r "Symbol") (fun o => VStr (symbol o))
               (rows out) (selection top obs) Hsym).
    reflexivity. }
  exists out. split; [assumption|]. split; [|split].
  - intros r Hr.
    pose proof (in_map (fun x => cell x "Symbol") (rows out) r Hr) as H.
    cbv beta in H.
    rewrite Hsym in H. apply in_map_iff in H. destruct H as [o [<- Ho]].
    now apply selection_in in Ho.
  - intros s Hs. rewrite Hlen.
    apply Permutation_length. now apply selection_group_perm.
  - intros s Hs. apply length_zero_iff_nil. rewrite Hlen.
    apply length_zero_iff_nil.
    destruct (group_of s (selection top obs)) as [|o g] eqn:E; [reflexivity|].
    exfalso. apply Hs.
    assert (Ho : In o (group_of s (selection top obs)))
      by (rewrite E; now left).
    apply group_of_in in Ho. destruct Ho as [Ho <-].
    now apply selection_in in Ho.
Qed.

(** X13: when [load_stock_data] returns a table from an existing
    directory, no message is shown, the table has as many rows as the CSV
    files of the listing hold together, and every row carries as its
    Symbol the name of one of the listed files that end in ".csv", with
    every ".csv" taken out of the name. *)
Theorem loaded_table_symbols (path_exists : string -> bool)
  (listdir : string -> result (list string))
  (path_join : string -> string -> string)
  (read_csv : string -> result DataFrame)
  (to_datetime : list value -> result (list value))
  (csv_dir : string) (files : list string) (ld : Loaded) :
  path_exists csv_dir = true ->
  listdir csv_dir = Ok files ->
  load_stock_data path_exists listdir path_join read_csv to_datetime csv_dir
  = Ok ld ->
  error_shown ld = None /\
  (exists raws,
      mapM read_csv (map (path_join csv_dir) (csv_files files)) = Ok raws /\
      List.length (rows (table ld)) = List.length (flat_map rows raws)) /\
  forall r, In r (rows (table ld)) ->
    exists file, In file files /\ endswith file ".csv" = true /\
                 cell r "Symbol" = VStr (replace file ".csv" "").
Proof. apply load_stock_data_spec. Qed.

Lemma loaded_table_symbols_witness :
  exists ld,
    load_stock_data example_exists example_listdir example_join
      example_read_csv example_to_datetime "dir" = Ok ld /\
    error_shown ld = None /\
    (exists raws,
        mapM example_read_csv
          (map (example_join "dir") (csv_files ["A.csv"; "notes.txt"; "B.csv"]))
        = Ok raws /\
        List.length (rows (table ld)) = List.length (flat_map rows raws)) /\
    forall r, In r (rows (table ld)) ->
      exists file, In file ["A.csv"; "notes.txt"; "B.csv"] /\
                   endswith file ".csv" = true /\
                   cell r "Symbol" = VStr (replace file ".csv" "").
Proof.
  eexists. split.
  - vm_compute. reflexivity.
  - apply (loaded_table_symbols example_exists example_listdir example_join
             example_read_csv example_to_datetime "dir"
             ["A.csv"; "notes.txt"; "B.csv"]); reflexivity.
Defined.

(** X14: in the table that [load_stock_data] returns, the rows of a symbol
    are the rows of the listed files whose name, every ".csv" taken out,
    is that symbol.  So a file [a.csv] whose stem has no dot is read and
    its rows are rows of symbol [a]; and the symbol is not always the
    name without its extension: the rows of a file [a.csvb.csv] and of a
    file [ab.csv] are all rows of the one symbol [ab]. *)
Theorem csv_file_symbol (path_exists : string -> bool)
  (listdir : string -> result (list string))
  (path_join : string -> string -> string)
  (read_csv : string -> result DataFrame)
  (to_datetime : list value -> result (list value))
  (csv_dir : string) (files : list string) (ld : Loaded) (a b : string) :
  path_exists csv_dir = true ->
  listdir csv_dir = Ok files ->
  load_stock_data path_exists listdir path_join read_csv to_datetime csv_dir
  = Ok ld ->
  no_dot a = true ->
  no_dot b = true ->
  (forall s,
      List.length (rows_of_symbol (table ld) s)
      = rows_for_symbol path_join read_csv csv_dir files s) /\
  (forall raw,
      In (a ++ ".csv")%string files ->
      read_csv (path_join csv_dir (a ++ ".csv")%string) = Ok raw ->
      List.length (rows raw) <= List.length (rows_of_symbol (table ld) a)) /\
  (forall raw1 raw2,
      In (a ++ ".csv" ++ b ++ ".csv")%string files ->
      In ((a ++ b) ++ ".csv")%string files ->
      read_csv (path_join csv_dir (a ++ ".csv" ++ b ++ ".csv")%string)
      = Ok raw1 ->
      read_csv (path_join csv_dir ((a ++ b) ++ ".csv")%string) = Ok raw2 ->
      List.length (rows raw1) + List.length (rows raw2)
      <= List.length (rows_of_symbol (table ld) (a ++ b)%string)).
Proof.
  intros He Hl Hld Ha Hb.
  pose proof (fun s => loaded_symbol_rows path_exists listdir path_join
                         read_csv to_datetime csv_dir files ld s He Hl Hld)
    as Hrows.
  split; [exact Hrows|]. split.
  - intros raw Hin Hraw. rewrite Hrows. unfold rows_for_symbol.
    set (g := fun file =>
                if String.eqb (replace file ".csv" "") a
                then rows_in_file read_csv (path_join csv_dir file) else 0).
    assert (Hg : g (a ++ ".csv")%string = List.length (rows raw)).
    { unfold g, rows_in_file.
      now rewrite (replace_stem a Ha), String.eqb_refl, Hraw. }
    rewrite <- Hg. apply list_sum_in. apply filter_In.
    split; [assumption | apply endswith_app].
  - intros raw1 raw2 Hin1 Hin2 Hraw1 Hraw2. rewrite Hrows.
    unfold rows_for_symbol.
    set (g := fun file =>
                if String.eqb (replace file ".csv" "") (a ++ b)%string
                then rows_in_file read_csv (path_join csv_dir file) else 0).
    assert (Hg1 : g (a ++ ".csv" ++ b ++ ".csv")%string
                  = List.length (rows raw1)).
    { unfold g, rows_in_file.
      now rewrite (replace_two_stems a b Ha Hb), String.eqb_refl, Hraw1. }
    assert (Hg2 : g ((a ++ b) ++ ".csv")%string = List.length (rows raw2)).
    { unfold g, rows_in_file.
      rewrite (replace_stem (a ++ b)%string (no_dot_app a b Ha Hb)).
      now rewrite String.eqb_refl, Hraw2. }
    rewrite <- Hg1, <- Hg2. apply list_sum_in2.
    + apply twin_names_differ.
    + apply filter_In. split; [assumption|].
      rewrite <- !string_app_assoc. apply endswith_app.
    + apply filter_In. split; [assumption | apply endswith_app].
Qed.

Lemma csv_file_symbol_witness :
  exists ld,
    load_stock_data example_exists example_listdir_twins example_join
      example_read_any example_to_datetime "dir" = Ok ld /\
    (forall s,
        List.length (rows_of_symbol (table ld) s)
        = rows_for_symbol example_join example_read_any "dir"
            ["A.csvB.csv"; "notes.txt"; "AB.csv"] s) /\
    (forall raw,
        In ("A" ++ ".csv")%string ["A.csvB.csv"; "notes.txt"; "AB.csv"] ->
        example_read_any (example_join "dir" ("A" ++ ".csv")%string)
        = Ok raw ->
        List.length (rows raw)
        <= List.length (rows_of_symbol (table ld) "A")) /\
    (forall raw1 raw2,
        In ("A" ++ ".csv" ++ "B" ++ ".csv")%string
           ["A.csvB.csv"; "notes.txt"; "AB.csv"] ->
        In (("A" ++ "B") ++ ".csv")%string
           ["A.csvB.csv"; "notes.txt"; "AB.csv"] ->
        example_read_any
          (example_join "dir" ("A" ++ ".csv" ++ "B" ++ ".csv")%string)
        = Ok raw1 ->
        example_read_any (example_join "dir" (("A" ++ "B") ++ ".csv")%string)
        = Ok raw2 ->
        List.length (rows raw1) + List.length (rows raw2)
        <= List.length (rows_of_symbol (table ld) ("A" ++ "B")%string)).
Proof.
  eexists. split.
  - vm_compute. reflexivity.
  - apply (csv_file_symbol example_exists example_listdir_twins example_join
             example_read_any example_to_datetime "dir"
             ["A.csvB.csv"; "notes.txt"; "AB.csv"] _ "A" "B"); reflexivity.
Defined.

(** X15: when the directory does not exist, or lists no name that ends in
    ".csv", [load_stock_data] returns the empty frame (with the "Directory
    not found" message only in the first case), and the page then shows
    the "No data found" warning and nothing else. *)
Theorem load_without_csv (path_exists : string -> bool)
  (listdir : string -> result (list string))
  (path_join : string -> string -> string)
  (read_csv : string -> result DataFrame)
  (to_datetime : list value -> result (list value))
  (csv_dir : string) :
  (path_exists csv_dir = false \/
   exists files, listdir csv_dir = Ok files /\ csv_files files = []) ->
  exists ld,
    load_stock_data path_exists listdir path_join read_csv to_datetime csv_dir
    = Ok ld /\
    table ld = DataFrame_empty /\
    error_shown ld
    = (if path_exists csv_dir then None
       else Some ("Directory not found: " ++ csv_dir)%string) /\
    main (table ld) = (Ok (Warning no_data), table ld).
Proof.
  intros H. unfold load_stock_data.
  destruct (path_exists csv_dir) eqn:E; cbn [negb].
  - destruct H as [H|[files [Hl Hf]]]; [discriminate|].
    rewrite Hl. cbn [bind]. fold (csv_files files). rewrite Hf. cbn [mapM bind].
    eexists. repeat split.
  - eexists. repeat split.
Qed.

Lemma load_without_csv_witness :
  exists ld,
    load_stock_data example_exists example_listdir example_join
      example_read_csv example_to_datetime "nowhere" = Ok ld /\
    table ld = DataFrame_empty /\
    error_shown ld
    = (if example_exists "nowhere" then None
       else Some ("Directory not found: " ++ "nowhere")%string) /\
    main (table ld) = (Ok (Warning no_data), table ld).
Proof.
  apply (load_without_csv example_exists example_listdir example_join
           example_read_csv example_to_datetime "nowhere").
  left. reflexivity.
Defined.

(** X16: one listed CSV file without a [Date] column is enough for
    [load_stock_data] to raise: no table is returned, whatever the other
    files hold. *)
Theorem load_requires_date_column (path_exists : string -> bool)
  (listdir : string -> result (list string))
  (path_join : string -> string -> string)
  (read_csv : string -> result DataFrame)
  (to_datetime : list value -> result (list value))
  (csv_dir file : string) (files : list string) (raw : DataFrame) :
  path_exists csv_dir = true ->
  listdir csv_dir = Ok files ->
  In file files ->
  endswith file ".csv" = true ->
  read_csv (path_join csv_dir file) = Ok raw ->
  has_column raw "Date" = false ->
  exists e,
    load_stock_data path_exists listdir path_join read_csv to_datetime csv_dir
    = Raise e.
Proof.
  intros He Hl Hin Hcsv Hr Hc.
  apply (load_stock_data_raises path_exists listdir path_join read_csv
           to_datetime csv_dir file files (KeyError "Date")); try assumption.
  now apply (load_file_undated path_join read_csv to_datetime csv_dir file raw).
Qed.

Lemma load_requires_date_column_witness :
  exists e,
    load_stock_data example_exists example_listdir example_join
      example_read_undated example_to_datetime "dir" = Raise e.
Proof.
  apply (load_requires_date_column example_exists example_listdir example_join
           example_read_undated example_to_datetime "dir" "B.csv"
           ["A.csv"; "notes.txt"; "B.csv"]
           {| columns := ["Close"]; rows := [[("Close", VNum 1)]] |});
    try reflexivity.
  right. right. now left.
Defined.

(** X17: for a table with at least one row and any selected month, the
    two monthly tables are computed without an error from the rows of the
    monthly performance whose Month is the selected one; each holds the
    first five of those rows (all of them when there are fewer), the
    gainers with their returns from largest to smallest and the losers
    from smallest to largest, NaN returns left out of the order.  A month
    with at most five symbols shows the same rows in both tables. *)
Theorem monthly_top_tables (obs : list Observation) (selected_month : value) :
  obs <> [] ->
  exists monthly m_data gainers losers,
    fst (calculate_monthly_performance (table_of obs)) = Ok monthly /\
    month_data monthly selected_month = Ok m_data /\
    monthly_gainers m_data = Ok gainers /\
    monthly_losers m_data = Ok losers /\
    (forall r, In r (rows m_data) <->
               In r (rows monthly) /\ cell r "Month" = selected_month) /\
    (forall r, In r (rows gainers) -> In r (rows m_data)) /\
    (forall r, In r (rows losers) -> In r (rows m_data)) /\
    List.length (rows gainers) = Nat.min 5 (List.length (rows m_data)) /\
    List.length (rows losers) = Nat.min 5 (List.length (rows m_data)) /\
    descending (defined_values gainers "Return") /\
    ascending (defined_values losers "Return") /\
    (List.length (rows m_data) <= 5 ->
     Permutation (rows gainers) (rows losers)).
Proof.
  intros Hobs.
  destruct (monthly_performance_frame obs Hobs) as [keys [_ [_ Ho]]].
  set (rs := map (fun k => monthly_record (fst k) (snd k)
                             (month_group_of (fst k) (snd k) obs)) keys) in *.
  assert (Hrec : forall r, In r rs ->
                   exists m s g, r = monthly_record m s g).
  { intros r Hr. apply in_map_iff in Hr. destruct Hr as [k [<- _]].
    now eexists _, _, _. }
  set (md := filter (fun r => cell_eq (cell r "Month") selected_month) rs).
  assert (Hnum : forall r, In r md -> exists x, cell r "Return" = VNum x).
  { intros r Hr. apply filter_In in Hr. destruct Hr as [Hr _].
    destruct (Hrec r Hr) as [m [s [g ->]]]. now eexists. }
  exists {| columns := monthly_columns; rows := rs |},
         {| columns := monthly_columns; rows := md |},
         (head 5 {| columns := monthly_columns;
                    rows := nargsort false (fun r => cell r "Return") md |}),
         (head 5 {| columns := monthly_columns;
                    rows := nargsort true (fun r => cell r "Return") md |}).
  split; [exact Ho|]. split.
  { apply month_data_typed. intros r Hr.
    destruct (Hrec r Hr) as [m [s [g ->]]]. discriminate. }
  split; [unfold monthly_gainers; now rewrite sort_by_return|].
  split; [unfold monthly_losers; now rewrite sort_by_return|].
  unfold head. cbn [rows columns].
  split.
  { intros r. unfold md. rewrite filter_In. split.
    - intros [Hr E]. split; [assumption|]. now apply cell_eq_eq.
    - intros [Hr E]. split; [assumption|].
      destruct (Hrec r Hr) as [m [s [g ->]]]. rewrite <- E.
      unfold cell_eq. cbn [cell assoc String.eqb Ascii.eqb Bool.eqb isna negb].
      rewrite andb_true_r. now apply value_eqb_eq. }
  split.
  { intros r Hr. apply in_firstn in Hr.
    exact (Permutation_in _ (nargsort_perm false _ md) Hr). }
  split.
  { intros r Hr. apply in_firstn in Hr.
    exact (Permutation_in _ (nargsort_perm true _ md) Hr). }
  split.
  { rewrite length_firstn.
    now rewrite (Permutation_length (nargsort_perm false _ md)). }
  split.
  { rewrite length_firstn.
    now rewrite (Permutation_length (nargsort_perm true _ md)). }
  split.
  { unfold defined_values, column_nums. cbn [rows].
    apply Sorted_filter_map_firstn.
    now apply (nargsort_descending (fun r => cell r "Return")). }
  split.
  { unfold defined_values, column_nums. cbn [rows].
    apply Sorted_filter_map_firstn.
    now apply (nargsort_ascending (fun r => cell r "Return")). }
  intros Hlen.
  rewrite !firstn_all2
    by now rewrite (Permutation_length (nargsort_perm _ _ md)).
  rewrite (nargsort_perm false), (nargsort_perm true). reflexivity.
Qed.

Lemma monthly_top_tables_witness :
  exists monthly m_data gainers losers,
    fst (calculate_monthly_performance (table_of table_months)) = Ok monthly /\
    month_data monthly (VStr "2024-01") = Ok m_data /\
    monthly_gainers m_data = Ok gainers /\
    monthly_losers m_data = Ok losers /\
    (forall r, In r (rows m_data) <->
               In r (rows monthly) /\ cell r "Month" = VStr "2024-01") /\
    (forall r, In r (rows gainers) -> In r (rows m_data)) /\
    (forall r, In r (rows losers) -> In r (rows m_data)) /\
    List.length (rows gainers) = Nat.min 5 (List.length (rows m_data)) /\
    List.length (rows losers) = Nat.min 5 (List.length (rows m_data)) /\
    descending (defined_values gainers "Return") /\
    ascending (defined_values losers "Return") /\
    (List.length (rows m_data) <= 5 ->
     Permutation (rows gainers) (rows losers)).
Proof.
  apply (monthly_top_tables table_months (VStr "2024-01")). discriminate.
Defined.

(** X18: for a table with at least one row the month select box offers
    each month of the table exactly once, as a "YYYY-MM" string, and lists
    them from the largest string to the smallest. *)
Theorem months_offered (obs : list Observation) :
  obs <> [] ->
  exists monthly choices,
    fst (calculate_monthly_performance (table_of obs)) = Ok monthly /\
    months monthly = Ok choices /\
    NoDup choices /\
    (forall v, In v choices <-> exists m, In m (months_of obs) /\ v = VStr m) /\
    Sorted (fun a b => value_leb b a = true) choices.
Proof.
  intros Hobs.
  destruct (monthly_performance_frame obs Hobs) as [keys [_ [Hin Ho]]].
  set (rs := map (fun k => monthly_record (fst k) (snd k)
                             (month_group_of (fst k) (snd k) obs)) keys) in *.
  set (col := map (fun r => cell r "Month") rs).
  assert (Hcol : forall v, In v col <->
                           exists m, In m (months_of obs) /\ v = VStr m).
  { intros v. unfold col, rs. rewrite map_map. cbn [cell assoc String.eqb].
    rewrite in_map_iff. split.
    - intros [k [<- Hk]]. apply Hin in Hk. apply in_map_iff in Hk.
      destruct Hk as [o [<- Hoin]]. exists (to_period_M (date o)).
      split; [|reflexivity].
      exact (in_map (fun o => to_period_M (date o)) obs o Hoin).
    - intros [m [Hm ->]]. unfold months_of in Hm. apply in_map_iff in Hm.
      destruct Hm as [o [<- Hoin]]. exists (month_key o). split; [reflexivity|].
      apply Hin. exact (in_map month_key obs o Hoin). }
  exists {| columns := monthly_columns; rows := rs |},
         (sorted_reverse (unique col)).
  split; [exact Ho|]. split.
  { unfold months.
    rewrite (getitem_cells {| columns := monthly_columns; rows := rs |} "Month").
    - reflexivity.
    - reflexivity.
    - intros r Hr. apply in_map_iff in Hr. destruct Hr as [k [<- _]].
      discriminate. }
  split.
  { apply (Permutation_NoDup (Permutation_sym (sorted_reverse_perm _))).
    apply unique_nodup. }
  split.
  { intros v. rewrite <- Hcol, <- (unique_in col v). split.
    - apply Permutation_in, sorted_reverse_perm.
    - apply Permutation_in, Permutation_sym, sorted_reverse_perm. }
  apply sorted_reverse_sorted. intros v Hv.
  apply unique_in, Hcol in Hv. destruct Hv as [m [_ ->]]. now exists m.
Qed.

Lemma months_offered_witness :
  exists monthly choices,
    fst (calculate_monthly_performance (table_of table_months)) = Ok monthly /\
    months monthly = Ok choices /\
    NoDup choices /\
    (forall v, In v choices <->
               exists m, In m (months_of table_months) /\ v = VStr m) /\
    Sorted (fun a b => value_leb b a = true) choices.
Proof. apply (months_offered table_months). discriminate. Defined.

(** X19: on a table with at least one row, no two rows for the same date
    and symbol, and a mean volume that is a finite number, the page is
    computed without an error: the overview, the metrics, the cumulative
    returns, the volatility, the correlation matrix and the monthly
    performance are all there.  The cumulative returns hold rows of the
    first five symbols of the metrics only, and the correlation matrix has
    one row per symbol among the first fifteen. *)
Theorem page_shown_on_clean_table (obs : list Observation) :
  obs <> [] ->
  NoDup (map (fun o => (date o, symbol o)) obs) ->
  isfinite (mean (map volume obs)) = true ->
  exists p df',
    main (table_of obs) = (Ok (Shown p), df') /\
    (forall r, In r (rows (cum_df p)) ->
       exists r', In r' (rows (head 5 (metrics_df p))) /\
                  cell r "Symbol" = cell r' "Symbol") /\
    List.length (corr_matrix p)
    = Nat.min 15 (List.length (rows (metrics_df p))) /\
    List.length (rows (vol_df p)) <= 10 /\
    mean_close p = mean (map close obs) /\
    py_int (mean (map volume obs)) = Ok (avg_volume p) /\
    market_summary (metrics_df p) = Ok (green_stocks p, red_stocks p).
Proof.
  intros Hobs Hnd Hfin.
  destruct (overview_typed obs Hobs)
    as [keys [counts [Hin [Hm [Hsum [Hcl Hvo]]]]]].
  set (metrics :=
         {| columns := metrics_columns;
            rows := nargsort false (fun r => cell r "Return (%)")
                      (map (fun s => metrics_record s (group_of s obs))
                           keys) |}) in *.
  destruct (py_int_finite _ Hfin) as [z Hz].
  destruct (head_symbols obs keys 5 Hin) as [H5 Hs5].
  destruct (head_symbols obs keys 15 Hin) as [H15 Hs15].
  fold metrics in H5, Hs5, H15, Hs15.
  set (top5 := map (fun r => cell r "Symbol") (rows (head 5 metrics))) in *.
  set (top15 := map (fun r => cell r "Symbol") (rows (head 15 metrics))) in *.
  destruct (cumulative_returns_symbols obs top5) as [cum [Hcum Hsym]].
  destruct (calculate_volatility_typed obs Hobs) as [vkeys [_ [_ Hv]]].
  destruct (correlation_typed obs top15 Hnd Hs15) as [cm [Hcm Hlen]].
  destruct (monthly_performance_typed obs) as [_ [_ [_ [mo [Hmo _]]]]].
  destruct (calculate_monthly_performance (table_of obs)) as [mres df'] eqn:E.
  cbn [fst] in Hmo. subst mres.
  eexists. exists df'. split.
  { unfold main.
    replace (empty (table_of obs)) with false
      by (destruct obs; [congruence|reflexivity]).
    cbn [negb]. rewrite Hm. cbn [bind]. rewrite Hsum. cbn [bind].
    rewrite Hcl. cbn [bind]. rewrite Hvo. cbn [bind]. rewrite Hz.
    cbn [bind]. rewrite H5. cbn [bind].
    rewrite Hcum. cbn [bind]. rewrite Hv. cbn [bind]. rewrite H15.
    cbn [bind]. rewrite Hcm. cbn [bind]. rewrite E. cbn [bind].
    reflexivity. }
  cbn [cum_df metrics_df corr_matrix vol_df mean_close avg_volume
       green_stocks red_stocks].
  split; [|split; [|split; [|split; [|split]]]].
  - intros r Hr.
    pose proof (in_map (fun x => cell x "Symbol") (rows cum) r Hr) as H.
    cbv beta in H. rewrite Hsym in H. apply in_map_iff in H.
    destruct H as [o [Ho Hosel]]. apply selection_in in Hosel.
    destruct Hosel as [_ Htop]. unfold top5 in Htop.
    apply in_map_iff in Htop. destruct Htop as [r' [Hr' Hin']].
    exists r'. split; [assumption|]. now rewrite Hr', Ho.
  - rewrite Hlen. unfold top15, head. cbn [rows].
    now rewrite length_map, length_firstn.
  - unfold head. cbn [rows]. rewrite length_firstn. lia.
  - reflexivity.
  - exact Hz.
  - rewrite Hsum. now destruct counts.
Qed.

Lemma page_shown_on_clean_table_witness :
  exists p df',
    main (table_of table_AB) = (Ok (Shown p), df') /\
    (forall r, In r (rows (cum_df p)) ->
       exists r', In r' (rows (head 5 (metrics_df p))) /\
                  cell r "Symbol" = cell r' "Symbol") /\
    List.length (corr_matrix p)
    = Nat.min 15 (List.length (rows (metrics_df p))) /\
    List.length (rows (vol_df p)) <= 10 /\
    mean_close p = mean (map close table_AB) /\
    py_int (mean (map volume table_AB)) = Ok (avg_volume p) /\
    market_summary (metrics_df p) = Ok (green_stocks p, red_stocks p).
Proof.
  apply (page_shown_on_clean_table table_AB).
  - discriminate.
  - repeat constructor; simpl; intuition discriminate.
  - vm_compute. reflexivity.
Defined.

(** X20: every cell of a correlation matrix the page computes is NaN or a
    number between -1 and 1: [nancorr] clips the quotient, and a cell that
    is never written stays NaN. *)
Theorem correlation_cells_in_range (df : DataFrame) (top : list value)
  (m : matrix) (i j : nat) :
  correlation df top = Ok m ->
  isnan (mat_get m i j) = true \/
  (PrimFloat.leb (-1) (mat_get m i j) = true /\
   PrimFloat.leb (mat_get m i j) 1 = true).
Proof.
  unfold correlation.
  destruct (pivot df "Date" "Symbol" "Close") as [pv|e]; cbn [bind];
    [|discriminate].
  destruct (select pv top) as [sel|e]; cbn [bind]; [|discriminate].
  intros H. destruct (corr_as_nancorr sel m H) as [cols [_ [_ ->]]].
  apply nancorr_range.
Qed.

Lemma correlation_cells_in_range_witness :
  exists m,
    correlation (table_of table_AB) [VStr "A"; VStr "B"] = Ok m /\
    (isnan (mat_get m 0 1) = true \/
     (PrimFloat.leb (-1) (mat_get m 0 1) = true /\
      PrimFloat.leb (mat_get m 0 1) 1 = true)).
Proof.
  eexists. split.
  - vm_compute. reflexivity.
  - apply (correlation_cells_in_range (table_of table_AB)
             [VStr "A"; VStr "B"]).
    vm_compute. reflexivity.
Defined.

(** X21: when the mean volume of a table with at least one row is not a
    finite number, the page stops at the "Avg Market Volume" of the
    overview: [int] raises [ValueError] for a NaN mean (as when no row has
    a volume) and [OverflowError] for an infinite one.  Nothing below the
    overview is computed, and the table is left without a [Month]
    column. *)
Theorem page_stops_without_mean_volume (obs : list Observation) :
  obs <> [] ->
  isfinite (mean (map volume obs)) = false ->
  main (table_of obs)
  = (Raise (if isnan (mean (map volume obs))
            then ValueError else OverflowError),
     table_of obs) /\
  ((forall o, In o obs -> volume o = nan) ->
   main (table_of obs) = (Raise ValueError, table_of obs)).
Proof.
  intros Hobs Hfin.
  destruct (overview_typed obs Hobs)
    as [keys [counts [Hin [Hm [Hsum [Hcl Hvo]]]]]].
  assert (Hmain : main (table_of obs)
                  = (Raise (if isnan (mean (map volume obs))
                            then ValueError else OverflowError),
                     table_of obs)).
  { unfold main.
    replace (empty (table_of obs)) with false
      by (destruct obs; [congruence|reflexivity]).
    cbn [negb]. rewrite Hm. cbn [bind]. rewrite Hsum. cbn [bind].
    rewrite Hcl. cbn [bind]. rewrite Hvo. cbn [bind].
    rewrite (py_int_undefined _ Hfin). reflexivity. }
  split; [exact Hmain|].
  intros Hnan. rewrite Hmain. rewrite mean_of_nans; [reflexivity|].
  intros x Hx. apply in_map_iff in Hx. destruct Hx as [o [<- Ho]].
  now apply Hnan.
Qed.

Lemma page_stops_without_mean_volume_witness :
  main (table_of table_no_volume)
  = (Raise (if isnan (mean (map volume table_no_volume))
            then ValueError else OverflowError),
     table_of table_no_volume) /\
  ((forall o, In o table_no_volume -> volume o = nan) ->
   main (table_of table_no_volume)
   = (Raise ValueError, table_of table_no_volume)).
Proof.
  apply (page_stops_without_mean_volume table_no_volume).
  - discriminate.
  - vm_compute. reflexivity.
Defined.
